(** * Red Flags Profits: the analytics core of the site generator

    A shallow embedding of [src/site_generator]: the daily aggregation,
    the dashboard metrics and the growth metrics of [data_loader.py], the
    exponential fit, trend line, inflation adjustment, time range and
    summary statistics of [chart_data_processor.py], and the sparkline
    resampler and polygon of [background_sparklines.py]; and of the
    sparkline coordinates of the lightweight generator, [src/generator.py].

    Numbers.  The Python code computes in IEEE binary64 through numpy and
    pandas.  Here a float is a real number or one of the three special
    values; arithmetic on finite values is exact (no rounding, no overflow,
    no signed zero) and the special values follow the IEEE rules.  The
    wealth figures read from the data set are finite, so the records and the
    daily totals hold real numbers; the cells that the code itself tests for
    a missing value (the sparkline frame, the price-index columns) are
    floats, NaN when missing; and what the code computes is a float wherever
    it can leave the finite range.  A calendar date is its day number, an
    integer.

    Rounding is kept where it decides an output that is not continuous.
    The date labels of the trend line are the whole days of binary64
    samples: there every operation is followed by [round64], the rounding
    to the nearest binary64 number.  The exponential fit tests whether a
    sum of squares about [np.mean] is positive: there the computed mean is
    a function [np_mean], of which nothing is assumed.

    Exceptions.  A function that can raise returns an [option], [None] for
    the exception. *)

From Stdlib Require Import String.
From Stdlib Require Import Reals Lra Lia ZArith Bool List Sorting.Sorted Permutation.
Open Scope string_scope.
Import ListNotations.

Open Scope R_scope.

(** ** Floats *)

Module Float64.

Inductive float64 : Type :=
  | Finite (r : R)
  | PosInf
  | NegInf
  | NaN.

Definition is_nan (x : float64) : bool :=
  match x with NaN => true | _ => false end.

(** A finite value between two bounds. *)
Definition in_range (lo hi : R) (x : float64) : Prop :=
  match x with Finite r => (lo <= r <= hi)%R | _ => False end.

Definition of_Z (z : Z) : float64 := Finite (IZR z).
Definition of_nat (n : nat) : float64 := Finite (INR n).

Definition Rltb (a b : R) : bool := if Rlt_dec a b then true else false.
Definition Reqb (a b : R) : bool := if Req_dec_T a b then true else false.

Definition opp (x : float64) : float64 :=
  match x with
  | Finite r => Finite (- r)
  | PosInf => NegInf
  | NegInf => PosInf
  | NaN => NaN
  end.

Definition add (x y : float64) : float64 :=
  match x, y with
  | NaN, _ | _, NaN => NaN
  | Finite a, Finite b => Finite (a + b)
  | PosInf, NegInf | NegInf, PosInf => NaN
  | PosInf, _ | _, PosInf => PosInf
  | NegInf, _ | _, NegInf => NegInf
  end.

Definition sub (x y : float64) : float64 := add x (opp y).

(** The infinity whose sign is the sign of [a], or NaN when [a] is zero. *)
Definition signed_inf (a : R) : float64 :=
  if Reqb a 0 then NaN else if Rltb 0 a then PosInf else NegInf.

Definition mul (x y : float64) : float64 :=
  match x, y with
  | NaN, _ | _, NaN => NaN
  | Finite a, Finite b => Finite (a * b)
  | Finite a, PosInf | PosInf, Finite a => signed_inf a
  | Finite a, NegInf | NegInf, Finite a => signed_inf (- a)
  | PosInf, PosInf | NegInf, NegInf => PosInf
  | PosInf, NegInf | NegInf, PosInf => NegInf
  end.

(** numpy's true division: a zero divisor gives an infinity or NaN (with a
    warning), never an exception. *)
Definition div (x y : float64) : float64 :=
  match x, y with
  | NaN, _ | _, NaN => NaN
  | Finite a, Finite b => if Reqb b 0 then signed_inf a else Finite (a / b)
  | Finite _, _ => Finite 0
  | PosInf, Finite b => if Rltb b 0 then NegInf else PosInf
  | NegInf, Finite b => if Rltb b 0 then PosInf else NegInf
  | _, _ => NaN
  end.

Definition ltb (x y : float64) : bool :=
  match x, y with
  | NaN, _ | _, NaN => false
  | Finite a, Finite b => Rltb a b
  | NegInf, NegInf => false
  | NegInf, _ => true
  | _, PosInf => match x with PosInf => false | _ => true end
  | _, _ => false
  end.

Definition gtb (x y : float64) : bool := ltb y x.

Definition eqb (x y : float64) : bool :=
  match x, y with
  | Finite a, Finite b => Reqb a b
  | PosInf, PosInf | NegInf, NegInf => true
  | _, _ => false
  end.

Definition leb (x y : float64) : bool := ltb x y || eqb x y.
Definition geb (x y : float64) : bool := leb y x.

(** [np.exp], [np.log]. *)
Definition fexp (x : float64) : float64 :=
  match x with
  | Finite r => Finite (exp r)
  | PosInf => PosInf
  | NegInf => Finite 0
  | NaN => NaN
  end.

Definition flog (x : float64) : float64 :=
  match x with
  | Finite r =>
      if Rltb 0 r then Finite (ln r) else if Reqb r 0 then NegInf else NaN
  | PosInf => PosInf
  | _ => NaN
  end.

(** [x ** y] for a float base and a finite exponent, as [np.float64.__pow__]
    computes it: a negative base with a fractional exponent is NaN, zero to
    a negative power is infinite. *)
Definition is_integer (y : R) : bool := Reqb y (IZR (Zfloor y)).

Definition Rpow (x y : R) : float64 :=
  if Rltb 0 x then Finite (Rpower x y)
  else if Reqb x 0 then
    (if Rltb 0 y then Finite 0 else if Reqb y 0 then Finite 1 else PosInf)
  else if is_integer y then Finite (powerRZ x (Zfloor y))
  else NaN.

Definition pow (x : float64) (y : R) : float64 :=
  match x with
  | Finite a => Rpow a y
  | NaN => if Reqb y 0 then Finite 1 else NaN
  | PosInf => if Rltb 0 y then PosInf else if Reqb y 0 then Finite 1 else Finite 0
  | NegInf =>
      if Reqb y 0 then Finite 1
      else if Rltb y 0 then Finite 0
      else if is_integer y && Z.odd (Zfloor y) then NegInf else PosInf
  end.

(** [np.minimum], [np.maximum] and [np.clip]: NaN propagates. *)
Definition minimum (x y : float64) : float64 :=
  if is_nan x then x else if is_nan y then y else if ltb y x then y else x.

Definition maximum (x y : float64) : float64 :=
  if is_nan x then x else if is_nan y then y else if ltb x y then y else x.

Definition clip (x lo hi : float64) : float64 := minimum (maximum x lo) hi.

(** Rounding.  Where the whole part of a computed number is an output (the
    date labels of the trend line), the rounding of binary64 is not left
    out.  [round64] is the rounding to the nearest binary64 number, ties to
    the even significand: 53 bits at the binary exponent of the number, the
    exponent not below -1022 (overflow is left out, as everywhere). *)

(** The binary exponent of a positive number. *)
Definition ilog2 (x : R) : Z := Zfloor (ln x / ln 2).

Definition bpow (e : Z) : R := powerRZ 2 e.

(** The nearest integer, the even one of two. *)
Definition round_half_even (x : R) : Z :=
  let f := Zfloor x in
  let d := (x - IZR f)%R in
  if Rltb d (/ 2) then f
  else if Rltb (/ 2) d then (f + 1)%Z
  else if Z.even f then f else (f + 1)%Z.

(** The exponent of the last bit of a positive number. *)
Definition expo (x : R) : Z := (Z.max (ilog2 x) (-1022) - 52)%Z.

Definition round64 (x : R) : R :=
  if Reqb x 0 then 0%R
  else
    let e := expo (Rabs x) in
    (IZR (round_half_even (x / bpow e)) * bpow e)%R.

(** The relative error of the rounding of a normal number is at most
    [2 ^ -53]. *)
Definition unit_roundoff : R := (/ 9007199254740992)%R.

End Float64.

Import Float64.

Declare Scope f64_scope.
Delimit Scope f64_scope with f64.
Bind Scope f64_scope with float64.
Infix "+" := add : f64_scope.
Infix "-" := sub : f64_scope.
Infix "*" := mul : f64_scope.
Infix "/" := div : f64_scope.
Infix "<?" := ltb : f64_scope.
Infix ">?" := gtb : f64_scope.
Infix "=?" := eqb : f64_scope.

Open Scope f64_scope.

(** ** The numpy functions the code calls

    Each is written after numpy's documented behaviour.  A call that raises
    returns [None]. *)

Module Numpy.

Definition bind {A B : Type} (m : option A) (k : A -> option B) : option B :=
  match m with Some a => k a | None => None end.

Definition fsum (l : list float64) : float64 := fold_right add (Finite 0) l.

Definition zeros (n : nat) : list float64 := repeat (Finite 0) n.

Definition zeros_like (l : list float64) : list float64 := zeros (length l).

(** [np.arange(a, b)] on integers. *)
Definition arange (a b : Z) : list Z :=
  map (fun i => (a + Z.of_nat i)%Z) (seq 0 (Z.to_nat (b - a))).

Definition set_last {A : Type} (l : list A) (v : A) : list A :=
  match l with
  | [] => []
  | _ :: _ => removelast l ++ [v]
  end.

(** [np.linspace(start, stop, num)] with the default [endpoint=True]: the
    samples are [i * step + start], the last one is overwritten by [stop]. *)
Definition linspace (start stop : float64) (num : nat) : list float64 :=
  let div := (num - 1)%nat in
  let delta := stop - start in
  let y := map of_nat (seq 0 num) in
  let y :=
    if (0 <? div)%nat then
      let step := delta / of_nat div in
      if step =? Finite 0
      then map (fun v => v / of_nat div * delta) y
      else map (fun v => v * step) y
    else map (fun v => v * delta) y in
  let y := map (fun v => v + start) y in
  if (1 <? num)%nat then set_last y stop else y.

(** The index search of [np.interp]: below the first abscissa, above the
    last one, or the index [j] with [xp[j] <= x < xp[j+1]].  numpy bisects;
    on the increasing abscissas that [np.interp] requires this is the same
    index as the left-to-right scan below. *)
Inductive position : Type :=
  | Below
  | Above
  | At (j : nat).

Fixpoint scan (x : float64) (l : list float64) : nat :=
  match l with
  | [] => O
  | e :: l' => if geb x e then S (scan x l') else O
  end.

Definition search (x : float64) (xp : list float64) : position :=
  if x >? last xp NaN then Above
  else if x <? hd NaN xp then Below
  else At (scan x (tl xp)).

Definition interp_point (xp fp : list float64) (x : float64) : float64 :=
  let lval := hd NaN fp in
  let rval := last fp NaN in
  if (length xp =? 1)%nat then
    if x <? hd NaN xp then lval
    else if x >? hd NaN xp then rval
    else hd NaN fp
  else if is_nan x then x
  else
    match search x xp with
    | Below => lval
    | Above => rval
    | At j =>
        let xj := nth j xp NaN in
        let fj := nth j fp NaN in
        if (j =? length xp - 1)%nat then fj
        else if xj =? x then fj
        else
          let xj1 := nth (S j) xp NaN in
          let fj1 := nth (S j) fp NaN in
          let slope := (fj1 - fj) / (xj1 - xj) in
          let r := slope * (x - xj) + fj in
          if is_nan r then
            let r2 := slope * (x - xj1) + fj1 in
            if is_nan r2 && (fj =? fj1) then fj else r2
          else r
    end.

(** [np.interp(x, xp, fp)]: raises on empty or mismatched sample arrays. *)
Definition interp (x xp fp : list float64) : option (list float64) :=
  match xp with
  | [] => None
  | _ :: _ =>
      if (length xp =? length fp)%nat
      then Some (map (interp_point xp fp) x)
      else None
  end.

(** [np.convolve(a, v)] in its default full mode:
    [out[n] = sum_m a[m] * v[n - m]] over the overlapping indices, for
    [n < len(a) + len(v) - 1]; raises when either array is empty. *)
Definition overlaps (lv n m : nat) : bool :=
  (m <=? n)%nat && (n - m <? lv)%nat.

Definition conv_at (a v : list float64) (n : nat) : float64 :=
  fsum (map (fun m => nth m a NaN * nth (n - m) v NaN)
            (filter (overlaps (length v) n) (seq 0 (length a)))).

Definition convolve (a v : list float64) : option (list float64) :=
  match a, v with
  | [], _ | _, [] => None
  | _ :: _, _ :: _ =>
      Some (map (conv_at a v) (seq 0 (length a + length v - 1)))
  end.

(** Python's [l[start:stop:step]] for a positive step. *)
Definition slice_bound (len i : Z) : Z :=
  if (i <? 0)%Z then Z.max 0 (len + i) else Z.min i len.

Definition py_slice (l : list float64) (start stop step : Z) : list float64 :=
  let len := Z.of_nat (length l) in
  let lo := slice_bound len start in
  let hi := slice_bound len stop in
  let count := Z.to_nat ((hi - lo + step - 1) / step) in
  map (fun i => nth (Z.to_nat lo + i * Z.to_nat step) l NaN) (seq 0 count).

(** [a.min()] and [a.max()]: NaN propagates, the empty array raises. *)
Definition np_min (l : list float64) : option float64 :=
  match l with
  | [] => None
  | x :: l' => Some (fold_left minimum l' x)
  end.

Definition np_max (l : list float64) : option float64 :=
  match l with
  | [] => None
  | x :: l' => Some (fold_left maximum l' x)
  end.

(** [np.linspace(start, stop, num)] on binary64 numbers, each operation
    followed by its rounding. *)
Definition linspace64 (start stop : R) (num : nat) : list R :=
  let div := (num - 1)%nat in
  let delta := round64 (stop - start)%R in
  let y := map INR (seq 0 num) in
  let y :=
    if (0 <? div)%nat then
      let step := round64 (delta / INR div)%R in
      if Reqb step 0
      then map (fun v => round64 (round64 (v / INR div) * delta)%R) y
      else map (fun v => round64 (v * step)%R) y
    else map (fun v => round64 (v * delta)%R) y in
  let y := map (fun v => round64 (v + start)%R) y in
  if (1 <? num)%nat then set_last y stop else y.

(** The samples of [linspace] on finite bounds, before the last one is
    overwritten (used to state what the function computes). *)
Definition linspace_samples (a b : R) (n : nat) : list R :=
  map (fun i => INR i * ((b - a) / INR (n - 1)) + a)%R (seq 0 n).

End Numpy.

Import Numpy.

Notation "x <- m ;; k" := (bind m (fun x => k))
  (at level 61, m at next level, right associativity).

(** ** The pandas operations the code calls *)

Module Pandas.

Definition Rsum (l : list R) : R := fold_right Rplus 0%R l.

Definition mean (l : list R) : R := (Rsum l / INR (length l))%R.

Definition last_error {A : Type} (l : list A) : option A :=
  nth_error l (length l - 1).

(** The keys of a [groupby]: each key once, in increasing order. *)
Fixpoint insert_key (k : Z) (l : list Z) : list Z :=
  match l with
  | [] => [k]
  | x :: l' =>
      if (k <? x)%Z then k :: l
      else if (k =? x)%Z then l
      else x :: insert_key k l'
  end.

Definition group_keys (l : list Z) : list Z := fold_right insert_key [] l.

(** [sort_values] on an integer key, as a stable insertion sort. *)
Section SortValues.

Context {A : Type} (key : A -> Z).

Fixpoint insert_by (r : A) (l : list A) : list A :=
  match l with
  | [] => [r]
  | x :: l' =>
      if (key r <=? key x)%Z then r :: l else x :: insert_by r l'
  end.

Definition sort_values (l : list A) : list A := fold_right insert_by [] l.

End SortValues.

(** [date.dt.to_period("M")]: the calendar month of a day number counted
    from 1970-01-01, as [12 * year + (month - 1)] in the proleptic Gregorian
    calendar. *)
Definition to_period_M (day : Z) : Z :=
  (let z := day + 719468 in
   let era := z / 146097 in
   let doe := z - era * 146097 in
   let yoe := (doe - doe / 1460 + doe / 36524 - doe / 146096) / 365 in
   let doy := doe - (365 * yoe + yoe / 4 - yoe / 100) in
   let mp := (5 * doy + 2) / 153 in
   let m := if mp <? 10 then mp + 3 else mp - 9 in
   let y := yoe + era * 400 + (if m <=? 2 then 1 else 0) in
   12 * y + (m - 1))%Z.

(** [series.max()] of an integer column (the frames that reach it here are
    not empty). *)
Definition Zmax_list (l : list Z) : Z :=
  match l with
  | [] => 0%Z
  | x :: l' => fold_left Z.max l' x
  end.

End Pandas.

Import Pandas.

(** ** background_sparklines.py *)

Module BackgroundSparklineGenerator.

(** The time-series frame the sparklines are drawn from: one row per date,
    a missing cell is NaN. *)
Record ts_row : Type := {
  date : Z;
  total_wealth : float64;
  billionaire_count : float64
}.

Inductive column : Type :=
  | col_total_wealth
  | col_billionaire_count.

Definition cell (r : ts_row) (c : column) : float64 :=
  match c with
  | col_total_wealth => total_wealth r
  | col_billionaire_count => billionaire_count r
  end.

Record generator : Type := {
  card_width : Z;
  card_height : Z;
  target_points : nat;
  padding : Z;
  wind_len : nat;
  window : list float64
}.

(** [__init__]; squaring is numpy's [x ** 2], computed as [x * x]. *)
Definition init (card_width card_height : Z) : generator :=
  {| card_width := card_width;
     card_height := card_height;
     target_points := 70;
     padding := 15;
     wind_len := 40;
     window := map (fun t => fexp (opp (t * t)))
                   (linspace (of_Z (-2)) (of_Z 2) 40) |}.

(** [BackgroundSparklineGenerator()], as the site generator builds it. *)
Definition default : generator := init 280 120.

Record config : Type := {
  ctype : string;
  columns : list column;
  svg_type : string
}.

(** A row has every required field when none of the cells is NaN. *)
Definition has_required (cols : list column) (r : ts_row) : bool :=
  forallb (fun c => negb (is_nan (cell r c))) cols.

(** [data.dropna(subset=cols)] *)
Definition dropna (data : list ts_row) (cols : list column) : list ts_row :=
  filter (has_required cols) data.

(** A configuration names a first column, and a second one for a ratio
    (indexing [cols] raises otherwise). *)
Definition well_formed (cfg : config) : bool :=
  match columns cfg with
  | [] => false
  | [_] => negb (String.eqb (ctype cfg) "ratio")
  | _ :: _ :: _ => true
  end.

(** [series.replace(0, 1)] *)
Definition replace_0_1 (x : float64) : float64 :=
  if x =? Finite 0 then Finite 1 else x.

(** The metric column of the valid rows. *)
Definition metric_values (cfg : config) (valid_data : list ts_row)
  : option (list float64) :=
  let cols := columns cfg in
  if String.eqb (ctype cfg) "ratio" then
    c0 <- nth_error cols 0 ;;
    c1 <- nth_error cols 1 ;;
    Some (map (fun r => cell r c0 / replace_0_1 (cell r c1)) valid_data)
  else
    c0 <- nth_error cols 0 ;;
    Some (map (fun r => cell r c0) valid_data).

(** Day offsets from the first valid date, divided by the largest one. *)
Definition normalize_timeline (valid_data : list ts_row) : list float64 :=
  let first := match valid_data with r :: _ => date r | [] => 0%Z end in
  let days := map (fun r => (date r - first)%Z) valid_data in
  map (fun d => of_Z d / of_Z (Zmax_list days)) days.

Definition interp_length (g : generator) : Z :=
  (10 * Z.of_nat (target_points g) - (Z.of_nat (wind_len g) - 1))%Z.

Definition grid (g : generator) : list float64 :=
  map (fun k => of_Z k / of_Z (interp_length g))
      (arange (- Z.of_nat (wind_len g))
              (interp_length g + Z.of_nat (wind_len g))).

(** Interpolate onto the grid, smooth, and keep every tenth sample. *)
Definition resample (g : generator) (days_norm values : list float64)
  : option (list float64) :=
  interp_vals <- interp (grid g) days_norm values ;;
  smoothed <- convolve (window g) interp_vals ;;
  Some (py_slice smoothed (Z.of_nat (wind_len g))
                 (- Z.of_nat (wind_len g)) 10).

Definition process_data (g : generator) (data : list ts_row) (cfg : config)
  : option (list float64) :=
  let valid_data := dropna data (columns cfg) in
  match valid_data with
  | [] => Some (zeros (target_points g))
  | _ :: _ =>
      values <- metric_values cfg valid_data ;;
      resample g (normalize_timeline valid_data) values
  end.

(** Min-max normalisation of the smoothed samples. *)
Definition normalize (data : list float64) : option (list float64) :=
  data_min <- np_min data ;;
  data_max <- np_max data ;;
  Some (if data_max >? data_min
        then map (fun d => (d - data_min) / (data_max - data_min)) data
        else zeros_like data).

Definition generate_coordinates (g : generator) (data : list float64)
  : option (list (float64 * float64)) :=
  normalized <- normalize data ;;
  let y := map (fun n => of_Z (card_height g - padding g)
                         - n * of_Z (card_height g - 2 * padding g))
               normalized in
  let x := linspace (Finite 0) (of_Z (card_width g)) (length data) in
  Some (combine x y).

Definition single_total_wealth : config :=
  {| ctype := "single"; columns := [col_total_wealth]; svg_type := "wealth" |}.
Definition ratio_average_wealth : config :=
  {| ctype := "ratio"; columns := [col_total_wealth; col_billionaire_count];
     svg_type := "average" |}.

(** The point list that [_create_svg] builds before it formats it: the
    curve between the two bottom corners of the card. *)
Definition polygon_points (g : generator) (coords : list (float64 * float64))
  : list (float64 * float64) :=
  ((Finite 0, of_Z (card_height g)) :: coords)
  ++ [(of_Z (card_width g), of_Z (card_height g))].

(** [gen_sparkline], up to the point list of the polygon (the rendering of
    the points as an SVG string is left out). *)
Definition gen_sparkline_points (g : generator) (time_series : list ts_row)
           (cfg : config) : option (list (float64 * float64)) :=
  clean_data <- process_data g time_series cfg ;;
  coords <- generate_coordinates g clean_data ;;
  Some (polygon_points g coords).




End BackgroundSparklineGenerator.

(** ** data_loader.py *)

Module DataLoader.

(** One crawled record: a person's net worth on a date. *)
Record Snapshot : Type := {
  crawl_date : Z;
  finalWorth : R;
  personName : string
}.

(** A row of the daily totals (and of the monthly averages, where the count
    is a mean). *)
Record DailyTotal : Type := {
  date : Z;
  total_wealth : R;
  billionaire_count : R
}.

Definition nunique (l : list string) : nat := length (nodup string_dec l).

Definition on_date (df : list Snapshot) (d : Z) : list Snapshot :=
  filter (fun s => (crawl_date s =? d)%Z) df.

(** The [groupby("crawl_date").agg(...)] of [_compute_daily_totals]: one
    row per date, in the order of the group keys. *)
Definition daily_rows (df : list Snapshot) : list DailyTotal :=
  map (fun d =>
         {| date := d;
            total_wealth := Rsum (map finalWorth (on_date df d));
            billionaire_count :=
              INR (nunique (map personName (on_date df d))) |})
      (group_keys (map crawl_date df)).

(** [_compute_daily_totals] *)
Definition compute_daily_totals (df : list Snapshot) : list DailyTotal :=
  sort_values date (daily_rows df).

Definition period (r : DailyTotal) : Z := to_period_M (date r).

Definition in_period (daily_totals : list DailyTotal) (p : Z)
  : list DailyTotal :=
  filter (fun r => (period r =? p)%Z) daily_totals.

(** The [groupby("period").agg(...)] of [_get_monthly_averages]: the two
    means and the first date of each month. *)
Definition monthly_row (daily_totals : list DailyTotal) (p : Z) : DailyTotal :=
  let rows := in_period daily_totals p in
  {| total_wealth := mean (map total_wealth rows);
     billionaire_count := mean (map billionaire_count rows);
     date := match rows with r :: _ => date r | [] => 0%Z end |}.

Definition monthly_rows (daily_totals : list DailyTotal) : list DailyTotal :=
  map (monthly_row daily_totals) (group_keys (map period daily_totals)).

(** [_get_monthly_averages]; nothing raises in the [try] block here, so the
    fallback of its [except] branch is not taken. *)
Definition get_monthly_averages (daily_totals : list DailyTotal)
  : list DailyTotal :=
  sort_values date (monthly_rows daily_totals).

Record growth_metrics : Type := {
  growth_rate : float64;
  doubling_time : float64;
  daily_accumulation : float64
}.

Definition no_growth : growth_metrics :=
  {| growth_rate := Finite 0;
     doubling_time := PosInf;
     daily_accumulation := Finite 0 |}.

(** The body of [_calculate_growth_metrics] once the source is chosen. *)
Definition growth_from_source (source : list DailyTotal)
  : option growth_metrics :=
  first <- hd_error source ;;
  latest <- last_error source ;;
  let start_val := total_wealth first in
  let end_val := total_wealth latest in
  let days_diff := (date latest - date first)%Z in
  if (days_diff =? 0)%Z || Reqb start_val 0 then Some no_growth
  else
    let years_diff := (IZR days_diff / 365.25)%R in
    let cagr :=
      clip ((pow (Finite end_val / Finite start_val) (1 / years_diff)
             - Finite 1) * Finite 100)
           (Finite (-50)) (Finite 100) in
    Some {| growth_rate := cagr;
            doubling_time :=
              if cagr >? Finite 0
              then flog (Finite 2) / flog (Finite 1 + cagr / Finite 100)
              else PosInf;
            daily_accumulation :=
              if cagr >? Finite 0
              then (Finite end_val - Finite start_val)
                   / Finite (1000 * IZR days_diff)
              else Finite 0 |}.

Definition growth_source (daily_totals : list DailyTotal) : list DailyTotal :=
  if (60 <? length daily_totals)%nat
  then get_monthly_averages daily_totals
  else daily_totals.

(** [_calculate_growth_metrics] *)
Definition calculate_growth_metrics (daily_totals : list DailyTotal)
  : option growth_metrics :=
  if (length daily_totals <? 2)%nat then Some no_growth
  else growth_from_source (growth_source daily_totals).

(** [_pct_change] *)
Definition pct_change (new old : R) : R :=
  if Reqb old 0 then 0%R else ((new - old) / old * 100)%R.

(** Python's [int] on a number: towards zero. *)
Definition int_of (r : R) : Z := if Rltb r 0 then Zceil r else Zfloor r.

(** The dictionary of [_compute_all_metrics]; its key [billionaire_count]
    is the field [billionaire_count_now]. *)
Record all_metrics : Type := {
  billionaire_count_now : Z;
  total_wealth_trillions : R;
  average_wealth_billions : R;
  wealth_increase_pct : R;
  billionaire_increase_count : Z;
  avg_wealth_increase_pct : R;
  growth : growth_metrics
}.

(** [_compute_all_metrics].  [Config.TRILLION] is a constant of
    [data_backend.config], which is not part of these sources: it is the
    parameter [TRILLION], a number that is not zero. *)
Definition compute_all_metrics (TRILLION : R) (first latest : DailyTotal)
           (daily_totals : list DailyTotal) : option all_metrics :=
  let count := int_of (billionaire_count latest) in
  let wealth_trillions := (total_wealth latest / TRILLION)%R in
  let avg_wealth :=
    if (count =? 0)%Z then 0%R else (wealth_trillions * 1000 / IZR count)%R in
  let first_wealth := (total_wealth first / TRILLION)%R in
  let first_count := int_of (billionaire_count first) in
  let first_avg :=
    if (first_count =? 0)%Z then 0%R
    else (first_wealth * 1000 / IZR first_count)%R in
  growth_metrics <- calculate_growth_metrics daily_totals ;;
  Some {| billionaire_count_now := count;
          total_wealth_trillions := wealth_trillions;
          average_wealth_billions := avg_wealth;
          wealth_increase_pct := pct_change wealth_trillions first_wealth;
          billionaire_increase_count := (count - first_count)%Z;
          avg_wealth_increase_pct := pct_change avg_wealth first_avg;
          growth := growth_metrics |}.

(** [daily_totals.assign(total_wealth=lambda x: x.total_wealth / TRILLION)] *)
Definition in_trillions (TRILLION : R) (x : DailyTotal) : DailyTotal :=
  {| date := date x;
     total_wealth := (total_wealth x / TRILLION)%R;
     billionaire_count := billionaire_count x |}.

Record dashboard : Type := {
  metrics : all_metrics;
  last_updated : Z;
  data_start_date : Z;
  data_end_date : Z;
  data_days_span : Z;
  data_points : nat;
  time_series : list DailyTotal
}.

(** [calculate_metrics] (its printing left out). *)
Definition calculate_metrics (TRILLION : R) (df : list Snapshot)
  : option dashboard :=
  let daily_totals := compute_daily_totals df in
  data_start <- option_map date (hd_error daily_totals) ;;
  data_end <- option_map date (last_error daily_totals) ;;
  let data_days := (data_end - data_start)%Z in
  let data_points := length daily_totals in
  latest <- last_error daily_totals ;;
  first <- hd_error daily_totals ;;
  metrics <- compute_all_metrics TRILLION first latest daily_totals ;;
  Some {| metrics := metrics;
          last_updated := data_end;
          data_start_date := data_start;
          data_end_date := data_end;
          data_days_span := data_days;
          data_points := data_points;
          time_series := map (in_trillions TRILLION) daily_totals |}.

End DataLoader.

(** ** chart_data_processor.py *)

Module ChartDataProcessor.

(** A row of the frame once [prepare_wealth_timeline_data] has sorted it and
    added its columns; the label [date_str] is the date itself. *)
Record chart_row : Type := {
  date : Z;
  total_wealth : R;
  days_from_start : Z
}.

(** The frame: its rows and the other float columns it may carry (the price
    indexes), cell by cell along the rows. *)
Record frame : Type := {
  rows : list chart_row;
  extra : list (string * list float64)
}.

Definition chart_row_of (d0 : Z) (r : DataLoader.DailyTotal) : chart_row :=
  {| date := DataLoader.date r;
     total_wealth := DataLoader.total_wealth r;
     days_from_start := (DataLoader.date r - d0)%Z |}.

(** The first lines of [prepare_wealth_timeline_data]: sort by date, add the
    day offsets from the first row (which an empty frame does not have). *)
Definition prepare (time_series : list DataLoader.DailyTotal)
  : option (list chart_row) :=
  let df := sort_values DataLoader.date time_series in
  first <- hd_error df ;;
  Some (map (chart_row_of (DataLoader.date first)) df).

Record fit_params : Type := {
  a : R;
  b : R;
  r_squared : R;
  annualGrowthRate : R
}.

Definition sq (x : R) : R := (x * x)%R.

(** [np.polyfit(x, y, 1)]: the slope and the intercept of a least-squares
    line.  numpy scales the two columns of the design matrix, the abscissas
    and the ones, to unit norm and solves by singular values.  When the
    abscissas differ the solution is the one least-squares line, here in
    closed form.  When they are all equal the matrix has rank one: numpy
    returns the solution of least norm, which for the common abscissa [x0]
    is the slope [mean y / (2 * x0)] with the intercept [mean y / 2]; and
    for [x0 = 0] the scaling divides by zero and the solver raises
    [LinAlgError]. *)
Definition polyfit1 (x y : list R) : option (R * R) :=
  let x_mean := mean x in
  let y_mean := mean y in
  let sxx := Rsum (map (fun xi => sq (xi - x_mean)) x) in
  let sxy :=
    Rsum (map (fun p => ((fst p - x_mean) * (snd p - y_mean))%R)
              (combine x y)) in
  if Reqb sxx 0 then
    if Reqb x_mean 0 then None
    else Some ((y_mean / (2 * x_mean))%R, (y_mean / 2)%R)
  else
    let slope := (sxy / sxx)%R in
    Some (slope, (y_mean - slope * x_mean)%R).

(** Sum of the squared residuals of the line [y = slope * x + intercept]. *)
Definition ss_res_of (x y : list R) (slope intercept : R) : R :=
  Rsum (map (fun p => sq (snd p - (slope * fst p + intercept)))
            (combine x y)).

Definition ss_tot_of (y : list R) : R :=
  Rsum (map (fun yi => sq (yi - mean y)) y).

(** The sum of squares about a computed mean [m]. *)
Definition ss_tot_about (m : R) (y : list R) : R :=
  Rsum (map (fun yi => sq (yi - m)) y).

Definition valid_rows (df : list chart_row) : list chart_row :=
  filter (fun r => Rltb 0 (total_wealth r)) df.

Definition degenerate_fit : fit_params :=
  {| a := 1; b := 0; r_squared := 0; annualGrowthRate := 0 |}.

(** [_calculate_exponential_fit].  [np_mean y] is [np.mean(y)] as numpy
    computes it in binary64.  Whether the sum of squares about it is
    positive decides a branch, and on constant totals this depends on how
    the mean was rounded: the computed mean is a parameter of the model,
    not the exact one. *)
Definition calculate_exponential_fit (np_mean : list R -> R)
           (df : list chart_row) : option fit_params :=
  let valid_data := valid_rows df in
  if (length valid_data <? 2)%nat then Some degenerate_fit
  else
    let x := map (fun r => IZR (days_from_start r)) valid_data in
    let y := map (fun r => ln (total_wealth r)) valid_data in
    line <- polyfit1 x y ;;
    let slope := fst line in
    let log_a := snd line in
    let ss_res := ss_res_of x y slope log_a in
    let ss_tot := ss_tot_about (np_mean y) y in
    Some {| a := exp log_a;
            b := slope;
            r_squared :=
              if Rltb 0 ss_tot then (1 - ss_res / ss_tot)%R else 0%R;
            annualGrowthRate := ((exp (slope * 365.25) - 1) * 100)%R |}.

(** Python's [int] on a float: towards zero; raises on NaN and infinities. *)
Definition py_int (x : float64) : option Z :=
  match x with
  | Finite r => Some (if Rltb r 0 then Zceil r else Zfloor r)
  | _ => None
  end.

Fixpoint traverse {A B : Type} (f : A -> option B) (l : list A)
  : option (list B) :=
  match l with
  | [] => Some []
  | x :: l' => y <- f x ;; ys <- traverse f l' ;; Some (y :: ys)
  end.

Definition trend_point (start_date : Z) (fit : fit_params) (days : float64)
  : option (Z * float64) :=
  d <- py_int days ;;
  Some ((start_date + d)%Z, Finite (a fit) * fexp (Finite (b fit) * days)).

(** [_generate_trend_line].  The label of a point is the start date plus
    the whole days of its offset, so the offsets are the binary64 samples
    of [np.linspace], rounding included; the largest offset, an integer,
    is first converted to binary64. *)
Definition generate_trend_line (df : list chart_row) (fit : fit_params)
  : option (list (Z * float64)) :=
  let days_range := Zmax_list (map days_from_start df) in
  let trend_days :=
    map Finite (linspace64 0 (round64 (IZR days_range)) 100) in
  first <- hd_error df ;;
  traverse (trend_point (date first) fit) trend_days.

Record inflation_data : Type := {
  data : list (Z * float64);
  inflationType : string;
  baseValue : float64
}.

Fixpoint lookup (name : string) (cols : list (string * list float64))
  : option (list float64) :=
  match cols with
  | [] => None
  | (n, c) :: cols' => if String.eqb n name then Some c else lookup name cols'
  end.

Definition notna (v : float64) : bool := negb (is_nan v).

Definition upper_ascii (c : Ascii.ascii) : Ascii.ascii :=
  let n := Ascii.nat_of_ascii c in
  if ((97 <=? n) && (n <=? 122))%nat then Ascii.ascii_of_nat (n - 32) else c.

Fixpoint upper (s : string) : string :=
  match s with
  | EmptyString => EmptyString
  | String c s' => String (upper_ascii c) (upper s')
  end.

(** The rows kept by the inflation adjustment. *)
Definition index_usable (p : chart_row * float64) : bool :=
  notna (snd p) && (snd p >? Finite 0).

(** [_prepare_inflation_adjusted_data] *)
Definition prepare_inflation_adjusted_data (df : frame)
           (inflation_column : string) : option inflation_data :=
  column <- lookup inflation_column (extra df) ;;
  base_inflation <- hd_error (filter notna column) ;;
  Some {| data :=
            map (fun p => (date (fst p),
                           Finite (total_wealth (fst p))
                           * (base_inflation / snd p)))
                (filter index_usable (combine (rows df) column));
          inflationType := upper inflation_column;
          baseValue := base_inflation |}.

(** The loop of [_get_inflation_data] over the candidate columns; the
    function returns Python's [None] when it runs out of them. *)
Fixpoint first_available (df : frame) (candidates : list string)
  : option (option inflation_data) :=
  match candidates with
  | [] => Some None
  | col :: rest =>
      match lookup col (extra df) with
      | Some column =>
          if negb (forallb is_nan column)
          then r <- prepare_inflation_adjusted_data df col ;; Some (Some r)
          else first_available df rest
      | None => first_available df rest
      end
  end.

Definition get_inflation_data (df : frame) : option (option inflation_data) :=
  first_available df ["cpi_u"; "pce"].

Record summary_stats : Type := {
  totalIncrease : float64;
  timespan : Z * Z;
  dataPoints : nat;
  startValue : R;
  endValue : R;
  exponentialGrowthRate : R
}.

(** [_get_summary_stats] *)
Definition get_summary_stats (df : list chart_row) (fit : fit_params)
  : option summary_stats :=
  latest <- last_error df ;;
  first <- hd_error df ;;
  Some {| totalIncrease :=
            (Finite (total_wealth latest) - Finite (total_wealth first))
            / Finite (total_wealth first) * Finite 100;
          timespan := (date first, date latest);
          dataPoints := length df;
          startValue := total_wealth first;
          endValue := total_wealth latest;
          exponentialGrowthRate := annualGrowthRate fit |}.

(** The [nominal_data] of [prepare_wealth_timeline_data]. *)
Definition nominal_data (df : list chart_row) : list (Z * R) :=
  map (fun row => (date row, total_wealth row)) df.

Record time_range : Type := {
  range_start : Z;
  range_end : Z;
  totalDays : Z
}.

(** [_get_time_range] *)
Definition get_time_range (df : list chart_row) : option time_range :=
  first <- hd_error df ;;
  latest <- last_error df ;;
  Some {| range_start := date first;
          range_end := date latest;
          totalDays := (date latest - date first)%Z |}.

(** The chart data; the key [data] is the field [chart_points]. *)
Record chart_data : Type := {
  chart_points : list (Z * R);
  trendLine : list (Z * float64);
  fitParams : fit_params;
  inflationData : option inflation_data;
  timeRange : time_range;
  summary : summary_stats
}.

(** [prepare_wealth_timeline_data] on a time series with the columns of the
    dashboard: besides the date and the total, the count is its only
    column of floats. *)
Definition prepare_wealth_timeline_data (np_mean : list R -> R)
           (time_series : list DataLoader.DailyTotal) : option chart_data :=
  df <- prepare time_series ;;
  let nominal := nominal_data df in
  fit <- calculate_exponential_fit np_mean df ;;
  trend_data <- generate_trend_line df fit ;;
  inflation <-
    get_inflation_data
      {| rows := df;
         extra := [("billionaire_count",
                    map (fun r => Finite (DataLoader.billionaire_count r))
                        (sort_values DataLoader.date time_series))] |} ;;
  range <- get_time_range df ;;
  stats <- get_summary_stats df fit ;;
  Some {| chart_points := nominal;
          trendLine := trend_data;
          fitParams := fit;
          inflationData := inflation;
          timeRange := range;
          summary := stats |}.

End ChartDataProcessor.

(** ** generator.py: the lightweight generator *)

Module AdaptedLightweightGenerator.

(** The [bounds] dictionary of one metric: each key may be absent. *)
Record bounds : Type := {
  bounds_min : option R;
  bounds_max : option R
}.

Definition list_min (values : list R) : R :=
  match values with [] => 0%R | v :: l => fold_left Rmin l v end.

Definition list_max (values : list R) : R :=
  match values with [] => 0%R | v :: l => fold_left Rmax l v end.

(** The coordinates computed by the loop of
    [_create_sparkline_svg_data_uri], before they are formatted into the
    SVG string (which is left out); [None] is the [None] that the function
    returns for fewer than two values. *)
Definition sparkline_xy (values : list R) (b : bounds) : option (list (R * R)) :=
  if (length values <? 2)%nat then None
  else
    let width := 280%R in
    let height := 120%R in
    let min_val :=
      match bounds_min b with Some m => m | None => list_min values end in
    let max_val :=
      match bounds_max b with Some m => m | None => list_max values end in
    let range_val := if Rltb min_val max_val then (max_val - min_val)%R else 1%R in
    Some (map (fun p =>
                 let i := fst p in
                 let val := snd p in
                 ((INR i / INR (length values - 1) * width)%R,
                  (height - (val - min_val) / range_val * (height - 20) - 10)%R))
              (combine (seq 0 (length values)) values)).

End AdaptedLightweightGenerator.

(** ** The specification's wording, to compare the code with *)

Module Spec.

Import DataLoader.

(** MonthlyAverage: a row that stands for the rows of the series in its own
    calendar month, with the mean of their total wealth, the mean of their
    count, and the first date in the month as its date. *)
Definition monthly_average (series : list DailyTotal) (r : DailyTotal) : Prop :=
  let month :=
    filter (fun x => (to_period_M (date x) =? to_period_M (date r))%Z) series in
  month <> []
  /\ total_wealth r = mean (map total_wealth month)
  /\ billionaire_count r = mean (map billionaire_count month)
  /\ In (date r) (map date month)
  /\ Forall (fun d => (date r <= d)%Z) (map date month).

(** Inflation adjustment: the first of the price-index columns with at
    least one value that is not missing; its first such value is the base;
    one adjusted point [nominal * (base / index)] for each row whose index
    value is present and positive; no series when no column qualifies. *)
Definition has_value (df : ChartDataProcessor.frame) (name : string) : bool :=
  match ChartDataProcessor.lookup name (ChartDataProcessor.extra df) with
  | Some column => existsb (fun v => negb (is_nan v)) column
  | None => false
  end.

Definition present_and_positive (v : float64) : bool :=
  negb (is_nan v) && ltb (Finite 0) v.

Definition inflation_adjustment (df : ChartDataProcessor.frame)
  : option ChartDataProcessor.inflation_data :=
  match find (has_value df) ["cpi_u"; "pce"] with
  | None => None
  | Some name =>
      match ChartDataProcessor.lookup name (ChartDataProcessor.extra df) with
      | None => None
      | Some column =>
          match find (fun v => negb (is_nan v)) column with
          | None => None
          | Some base =>
              Some {| ChartDataProcessor.data :=
                        map (fun p =>
                               (ChartDataProcessor.date (fst p),
                                Finite (ChartDataProcessor.total_wealth (fst p))
                                * (base / snd p)))
                            (filter (fun p => present_and_positive (snd p))
                                    (combine (ChartDataProcessor.rows df)
                                             column));
                      ChartDataProcessor.inflationType :=
                        ChartDataProcessor.upper name;
                      ChartDataProcessor.baseValue := base |}
          end
      end
  end.

(** Trend line: 100 points at the day offsets [day 0], ..., [day 99], each
    with the fitted value [a * exp (b * day)] and the date [start + day] as
    its label (a date: the whole days of the sum).  The offsets are
    uniformly spaced between 0 and the largest offset: offset [i] is
    [trend_offset max_offset i], within the tolerance of floating point. *)
Definition trend_offset (max_offset : Z) (i : nat) : R :=
  (INR i * IZR max_offset / 99)%R.

Definition trend_line (start_date : Z) (day : nat -> R) (a b : R)
  : list (Z * float64) :=
  map (fun i => ((start_date + Zfloor (day i))%Z,
                 Finite (a * exp (b * day i))))
      (seq 0 100).

End Spec.

(** ** The same computations on real numbers

    On a series without special values the float computations above stay
    finite; these are the reals they compute. *)

Module Ideal.

(** The least-squares line in closed form, the flat line through the mean
    when all abscissas are equal. *)
Definition least_squares_line (x y : list R) : R * R :=
  let x_mean := mean x in
  let y_mean := mean y in
  let sxx := Rsum (map (fun xi => ChartDataProcessor.sq (xi - x_mean)) x) in
  let sxy :=
    Rsum (map (fun p => ((fst p - x_mean) * (snd p - y_mean))%R)
              (combine x y)) in
  let slope := if Reqb sxx 0 then 0%R else (sxy / sxx)%R in
  (slope, (y_mean - slope * x_mean)%R).

Definition Rmin_list (x : R) (l : list R) : R := fold_left Rmin l x.
Definition Rmax_list (x : R) (l : list R) : R := fold_left Rmax l x.

Definition normalize (data : list R) : list R :=
  match data with
  | [] => []
  | x :: l =>
      let data_min := Rmin_list x l in
      let data_max := Rmax_list x l in
      if Rltb data_min data_max
      then map (fun d => (d - data_min) / (data_max - data_min))%R data
      else repeat 0%R (length data)
  end.

(** The samples of [np.linspace(0, D, 100)] in binary64: sample [i] is the
    rounded product of [i] and the rounded step, the last one is [D]. *)
Definition trend_day (D : Z) (i : nat) : R :=
  if (i =? 99)%nat then IZR D else round64 (INR i * round64 (IZR D / 99))%R.

(** The Gaussian window of the sparkline generator. *)
Definition window : list R :=
  map (fun t => exp (- (t * t)))%R (set_last (linspace_samples (-2) 2 40) 2%R).

(** A sample of the full convolution where the whole of [a] overlaps [v]. *)
Definition conv_at (a v : list R) (n : nat) : R :=
  Rsum (map (fun m => nth m a 0 * nth (n - m) v 0)%R (seq 0 (length a))).

End Ideal.

(* ================================================================== *)
(** * Properties *)

(** ** Lengths of the numpy results *)

Section NumpyLengths.

Lemma set_last_length {A : Type} (l : list A) (v : A) :
  length (set_last l v) = length l.
Proof.
  destruct l as [|a l]; [reflexivity|].
  unfold set_last. rewrite length_app, removelast_firstn_len, length_firstn.
  simpl. lia.
Qed.

Lemma linspace_length (start stop : float64) (num : nat) :
  length (linspace start stop num) = num.
Proof.
  unfold linspace.
  destruct (1 <? num)%nat; [rewrite set_last_length|];
    destruct (0 <? num - 1)%nat;
    try destruct (eqb _ _);
    now rewrite !length_map, length_seq.
Qed.

Lemma arange_length (a b : Z) : length (arange a b) = Z.to_nat (b - a).
Proof. unfold arange. now rewrite length_map, length_seq. Qed.

Lemma interp_Some (x xp fp : list float64) :
  xp <> [] -> length xp = length fp ->
  interp x xp fp = Some (map (interp_point xp fp) x).
Proof.
  intros Hne Hlen. unfold interp. destruct xp as [|e xp]; [easy|].
  rewrite Hlen, Nat.eqb_refl. reflexivity.
Qed.

Lemma convolve_Some (a v : list float64) :
  a <> [] -> v <> [] ->
  convolve a v = Some (map (conv_at a v) (seq 0 (length a + length v - 1))).
Proof. destruct a, v; easy. Qed.

Lemma py_slice_length (l : list float64) (start stop step : Z) :
  length (py_slice l start stop step) =
  Z.to_nat ((slice_bound (Z.of_nat (length l)) stop
             - slice_bound (Z.of_nat (length l)) start + step - 1) / step).
Proof. unfold py_slice. now rewrite length_map, length_seq. Qed.

End NumpyLengths.

(** ** The sparkline resampler returns 70 samples *)

Section SparklineLength.

Import BackgroundSparklineGenerator.

Variables (w h : Z).
Let g := init w h.

Lemma window_length : length (window g) = 40%nat.
Proof. unfold g, init; simpl window. now rewrite length_map, linspace_length. Qed.

Lemma grid_length : length (grid g) = 741%nat.
Proof. unfold grid. rewrite length_map, arange_length. reflexivity. Qed.

Lemma normalize_timeline_length (valid_data : list ts_row) :
  length (normalize_timeline valid_data) = length valid_data.
Proof. unfold normalize_timeline. now rewrite !length_map. Qed.

Lemma metric_values_Some (cfg : config) (valid_data : list ts_row) :
  well_formed cfg = true ->
  exists values, metric_values cfg valid_data = Some values
                 /\ length values = length valid_data.
Proof.
  unfold well_formed, metric_values. intros Hwf.
  destruct (columns cfg) as [|c0 [|c1 cols]]; [discriminate| |].
  - destruct (String.eqb (ctype cfg) "ratio"); [discriminate|].
    simpl. eexists; split; [reflexivity|]. now rewrite length_map.
  - destruct (String.eqb (ctype cfg) "ratio"); simpl;
      (eexists; split; [reflexivity|]; now rewrite length_map).
Qed.

(** Whatever is interpolated, the slice of the smoothed signal has 70
    samples: 741 grid points, 780 after the full convolution, and every
    tenth of the 700 between the two trimmed ends. *)
Lemma resample_length (days_norm values : list float64) :
  days_norm <> [] -> length days_norm = length values ->
  exists out, resample g days_norm values = Some out /\ length out = 70%nat.
Proof.
  intros Hne Hlen. unfold resample.
  rewrite (interp_Some _ _ _ Hne Hlen). cbn [bind].
  rewrite convolve_Some.
  - cbn [bind]. eexists; split; [reflexivity|].
    rewrite py_slice_length, length_map, length_seq.
    rewrite window_length, length_map, grid_length. reflexivity.
  - intros E. pose proof window_length as Hw. rewrite E in Hw. discriminate.
  - intros E. apply (f_equal (@length _)) in E.
    rewrite length_map, grid_length in E. discriminate.
Qed.

(** C1. With a configuration that names its columns, the resampler returns
    a sequence: it has exactly 70 values as soon as one row has all the
    required fields, whatever the number of rows, and it is the sequence of
    70 zeros when no row has them. *)
Theorem process_data_70 (data : list ts_row) (cfg : config) :
  well_formed cfg = true ->
  (existsb (has_required (columns cfg)) data = true ->
   exists out, process_data g data cfg = Some out /\ length out = 70%nat)
  /\
  (existsb (has_required (columns cfg)) data = false ->
   process_data g data cfg = Some (repeat (Finite 0) 70)).
Proof.
  intros Hwf. unfold process_data, dropna. split; intros Hex.
  - destruct (filter _ data) as [|r valid] eqn:Hf.
    + apply existsb_exists in Hex as [r [Hin Hr]].
      assert (Hr' : In r (filter (has_required (columns cfg)) data))
        by (apply filter_In; auto).
      rewrite Hf in Hr'. destruct Hr'.
    + destruct (metric_values_Some cfg (r :: valid) Hwf) as [values [Hv Hl]].
      rewrite Hv. cbn [bind]. apply resample_length.
      * unfold normalize_timeline. simpl. discriminate.
      * now rewrite normalize_timeline_length.
  - destruct (filter _ data) as [|r valid] eqn:Hf; [reflexivity|].
    assert (Hin : In r (filter (has_required (columns cfg)) data))
      by (rewrite Hf; now left).
    apply filter_In in Hin as [Hin Hr].
    assert (existsb (has_required (columns cfg)) data = true)
      by (apply existsb_exists; eauto).
    congruence.
Qed.

End SparklineLength.

(** ** Arithmetic on finite floats *)

Section FiniteArithmetic.

Lemma Rltb_true (a b : R) : (a < b)%R -> Rltb a b = true.
Proof. intros H. unfold Rltb. now destruct (Rlt_dec a b). Qed.

Lemma Rltb_false (a b : R) : (b <= a)%R -> Rltb a b = false.
Proof. intros H. unfold Rltb. destruct (Rlt_dec a b); [lra|reflexivity]. Qed.

Lemma Rltb_iff (a b : R) : Rltb a b = true <-> (a < b)%R.
Proof. unfold Rltb. destruct (Rlt_dec a b); split; auto; discriminate. Qed.

Lemma Reqb_true (a b : R) : a = b -> Reqb a b = true.
Proof. intros H. unfold Reqb. now destruct (Req_dec_T a b). Qed.

Lemma Reqb_false (a b : R) : a <> b -> Reqb a b = false.
Proof. intros H. unfold Reqb. now destruct (Req_dec_T a b). Qed.

Lemma Reqb_iff (a b : R) : Reqb a b = true <-> a = b.
Proof. unfold Reqb. destruct (Req_dec_T a b); split; auto; discriminate. Qed.

Lemma div_finite (a b : R) : b <> 0%R -> Finite a / Finite b = Finite (a / b).
Proof. intros H. simpl. now rewrite Reqb_false. Qed.

Lemma sub_finite (a b : R) : Finite a - Finite b = Finite (a - b).
Proof. reflexivity. Qed.

Lemma minimum_finite (a b : R) :
  minimum (Finite a) (Finite b) = Finite (Rmin a b).
Proof.
  unfold minimum, Rmin; simpl. unfold Rltb.
  destruct (Rlt_dec b a), (Rle_dec a b); try reflexivity; try lra.
Qed.

Lemma maximum_finite (a b : R) :
  maximum (Finite a) (Finite b) = Finite (Rmax a b).
Proof.
  unfold maximum, Rmax; simpl. unfold Rltb.
  destruct (Rlt_dec a b), (Rle_dec a b); try reflexivity; try lra.
  f_equal; lra.
Qed.

Lemma fold_minimum_finite (l : list R) (x : R) :
  fold_left minimum (map Finite l) (Finite x)
  = Finite (fold_left Rmin l x).
Proof.
  revert x. induction l as [|a l IH]; intros x; [reflexivity|].
  simpl. now rewrite minimum_finite, IH.
Qed.

Lemma fold_maximum_finite (l : list R) (x : R) :
  fold_left maximum (map Finite l) (Finite x)
  = Finite (fold_left Rmax l x).
Proof.
  revert x. induction l as [|a l IH]; intros x; [reflexivity|].
  simpl. now rewrite maximum_finite, IH.
Qed.

Lemma fold_Rmin_le (l : list R) (x : R) :
  (fold_left Rmin l x <= x)%R /\ Forall (fun v => (fold_left Rmin l x <= v)%R) l.
Proof.
  revert x. induction l as [|a l IH]; intros x; simpl.
  - split; [lra|constructor].
  - destruct (IH (Rmin x a)) as [H1 H2].
    pose proof (Rmin_l x a). pose proof (Rmin_r x a).
    split; [lra|]. constructor; [lra|assumption].
Qed.

Lemma fold_Rmax_ge (l : list R) (x : R) :
  (x <= fold_left Rmax l x)%R /\ Forall (fun v => (v <= fold_left Rmax l x)%R) l.
Proof.
  revert x. induction l as [|a l IH]; intros x; simpl.
  - split; [lra|constructor].
  - destruct (IH (Rmax x a)) as [H1 H2].
    pose proof (Rmax_l x a). pose proof (Rmax_r x a).
    split; [lra|]. constructor; [lra|assumption].
Qed.

End FiniteArithmetic.

(** ** [linspace] on finite bounds *)

Section Linspace.

Lemma set_last_map {A B : Type} (f : A -> B) (l : list A) (v : A) :
  set_last (map f l) (f v) = map f (set_last l v).
Proof.
  destruct l as [|a l]; [reflexivity|].
  unfold set_last. cbn [map]. rewrite map_app. f_equal.
  change (f a :: map f l) with (map f (a :: l)).
  generalize (a :: l). intros l0. induction l0 as [|x [|y l0] IH]; try reflexivity.
  cbn [map removelast] in *. now rewrite IH.
Qed.

Lemma set_last_Forall {A : Type} (P : A -> Prop) (l : list A) (v : A) :
  Forall P l -> P v -> Forall P (set_last l v).
Proof.
  intros Hl Hv. destruct l as [|a l]; [constructor|].
  unfold set_last. apply Forall_app; split; [|now constructor].
  induction Hl as [|x [|y l0] Hx Hl0 IH]; try constructor; auto.
Qed.

Lemma linspace_finite (a b : R) (n : nat) :
  (1 < n)%nat ->
  linspace (Finite a) (Finite b) n
  = map Finite (set_last (linspace_samples a b n) b).
Proof.
  intros Hn. unfold linspace, linspace_samples.
  assert (Hd : INR (n - 1) <> 0%R) by (apply not_0_INR; lia).
  replace (1 <? n)%nat with true by (symmetry; apply Nat.ltb_lt; lia).
  replace (0 <? n - 1)%nat with true by (symmetry; apply Nat.ltb_lt; lia).
  rewrite <- set_last_map. f_equal.
  unfold of_nat at 1. rewrite sub_finite, div_finite by assumption.
  rewrite !map_map.
  destruct (eqb _ _) eqn:E; rewrite map_map; apply map_ext; intros i;
    unfold of_nat; rewrite ?div_finite by assumption; simpl; f_equal.
  apply Reqb_iff in E. field_simplify_eq; [|assumption].
  assert (Hba : (b - a = 0)%R).
  { apply (Rmult_eq_reg_r (/ INR (n - 1))); [|now apply Rinv_neq_0_compat].
    unfold Rdiv in E. lra. }
  nra.
Qed.

Lemma linspace_in_range (b : R) (n : nat) :
  (1 < n)%nat -> (0 <= b)%R ->
  Forall (in_range 0 b) (linspace (Finite 0) (Finite b) n).
Proof.
  intros Hn Hb. rewrite linspace_finite by assumption.
  apply Forall_map. apply set_last_Forall; [|simpl; lra].
  unfold linspace_samples. apply Forall_map, Forall_forall. intros i Hi.
  apply in_seq in Hi. simpl.
  assert (Hd : (0 < INR (n - 1))%R) by (apply lt_0_INR; lia).
  assert (Hi0 : (0 <= INR i)%R) by apply pos_INR.
  assert (Hi1 : (INR i <= INR (n - 1))%R) by (apply le_INR; lia).
  rewrite Rminus_0_r, Rplus_0_r.
  assert (Hq : (0 <= b / INR (n - 1))%R)
    by (apply Rmult_le_pos; [lra|left; now apply Rinv_0_lt_compat]).
  split; [now apply Rmult_le_pos|].
  replace b with (INR (n - 1) * (b / INR (n - 1)))%R at 2 by (field; lra).
  now apply Rmult_le_compat_r.
Qed.

End Linspace.

(** ** The coordinates stay inside the padded frame *)

Section Coordinates.

Import BackgroundSparklineGenerator.

Lemma np_min_finite (x : R) (l : list R) :
  np_min (map Finite (x :: l)) = Some (Finite (Ideal.Rmin_list x l)).
Proof. simpl. now rewrite fold_minimum_finite. Qed.

Lemma np_max_finite (x : R) (l : list R) :
  np_max (map Finite (x :: l)) = Some (Finite (Ideal.Rmax_list x l)).
Proof. simpl. now rewrite fold_maximum_finite. Qed.

Lemma normalize_finite (data : list R) :
  data <> [] ->
  normalize (map Finite data) = Some (map Finite (Ideal.normalize data)).
Proof.
  destruct data as [|x l]; [easy|]. intros _.
  unfold normalize, Ideal.normalize.
  rewrite np_min_finite, np_max_finite. cbn [bind].
  unfold gtb. cbn [ltb].
  destruct (Rltb _ _) eqn:E.
  - apply Rltb_iff in E. f_equal.
    rewrite !map_map. apply map_ext. intros d.
    rewrite !sub_finite, div_finite by lra. reflexivity.
  - f_equal. unfold zeros_like, zeros.
    rewrite length_map, map_repeat. reflexivity.
Qed.

Lemma ideal_normalize_length (data : list R) :
  length (Ideal.normalize data) = length data.
Proof.
  destruct data as [|x l]; [reflexivity|]. unfold Ideal.normalize.
  destruct (Rltb _ _); [apply length_map|apply repeat_length].
Qed.

Lemma ideal_normalize_unit (data : list R) :
  Forall (fun n => 0 <= n <= 1)%R (Ideal.normalize data).
Proof.
  destruct data as [|x l]; [constructor|]. unfold Ideal.normalize.
  destruct (Rltb _ _) eqn:E.
  - apply Rltb_iff in E. apply Forall_map, Forall_forall. intros d Hd.
    set (m := Ideal.Rmin_list x l) in *. set (M := Ideal.Rmax_list x l) in *.
    assert (Hm : (m <= d)%R).
    { destruct (fold_Rmin_le l x) as [H1 H2]. destruct Hd as [<-|Hd]; [exact H1|].
      rewrite Forall_forall in H2. now apply H2. }
    assert (HM : (d <= M)%R).
    { destruct (fold_Rmax_ge l x) as [H1 H2]. destruct Hd as [<-|Hd]; [exact H1|].
      rewrite Forall_forall in H2. now apply H2. }
    split.
    + apply Rmult_le_pos; [lra|]. left. apply Rinv_0_lt_compat. lra.
    + apply (Rmult_le_reg_r (M - m)); [lra|]. field_simplify; lra.
  - apply Forall_forall. intros n Hn. apply repeat_spec in Hn. subst. lra.
Qed.

Lemma Forall_combine {A B : Type} (P : A -> Prop) (Q : B -> Prop)
      (la : list A) (lb : list B) :
  Forall P la -> Forall Q lb ->
  Forall (fun p => P (fst p) /\ Q (snd p)) (combine la lb).
Proof.
  intros Ha. revert lb. induction Ha as [|a la Hp Ha IH]; intros lb Hb.
  - constructor.
  - destruct Hb as [|b lb Hq Hb]; [constructor|].
    simpl. constructor; [now split|]. now apply IH.
Qed.

(** C10. On 70 finite samples, in a frame that is at least as high as its
    two paddings and not of negative width, the coordinate mapping returns
    70 points, each with [0 <= x <= card_width] and
    [padding <= y <= card_height - padding]. *)
Theorem coordinates_in_frame (w h : Z) (data : list R) :
  length data = 70%nat ->
  (0 <= w)%Z -> (2 * padding (init w h) <= h)%Z ->
  exists coords,
    generate_coordinates (init w h) (map Finite data) = Some coords
    /\ length coords = 70%nat
    /\ Forall (fun p =>
         in_range 0 (IZR (card_width (init w h))) (fst p)
         /\ in_range (IZR (padding (init w h)))
                     (IZR (card_height (init w h) - padding (init w h)))
                     (snd p)) coords.
Proof.
  intros Hlen Hw Hh. cbn [init padding card_width card_height] in *.
  unfold generate_coordinates.
  rewrite normalize_finite by (intros E; now rewrite E in Hlen).
  cbn [bind init padding card_width card_height].
  eexists; split; [reflexivity|]. split.
  - rewrite length_combine, linspace_length, !length_map, ideal_normalize_length.
    rewrite Hlen. reflexivity.
  - apply Forall_combine.
    + rewrite length_map, Hlen. apply linspace_in_range; [lia|].
      now apply IZR_le.
    + rewrite map_map. apply Forall_map.
      eapply Forall_impl; [|apply ideal_normalize_unit].
      intros n [Hn0 Hn1]. unfold of_Z. cbn [mul sub add opp in_range].
      rewrite !minus_IZR, mult_IZR.
      apply IZR_le in Hh. rewrite mult_IZR in Hh.
      split; nra.
Qed.

End Coordinates.

(** ** Grouping and sorting *)

Section Grouping.

Lemma insert_key_In (k x : Z) (l : list Z) :
  In x (insert_key k l) <-> x = k \/ In x l.
Proof.
  induction l as [|y l IH]; simpl.
  - intuition.
  - destruct (Z.ltb_spec k y); [simpl; intuition|].
    destruct (Z.eqb_spec k y); [subst; simpl; intuition|].
    simpl. rewrite IH. intuition.
Qed.

Lemma insert_key_sorted (k : Z) (l : list Z) :
  StronglySorted Z.lt l -> StronglySorted Z.lt (insert_key k l).
Proof.
  induction 1 as [|y l Hs IH Hy]; simpl.
  - repeat constructor.
  - destruct (Z.ltb_spec k y).
    + constructor; [now constructor|]. constructor; [assumption|].
      eapply Forall_impl; [|exact Hy]. intros; simpl in *; lia.
    + destruct (Z.eqb_spec k y); [now constructor|].
      constructor; [assumption|].
      apply Forall_forall. intros x Hx. apply insert_key_In in Hx as [->|Hx]; [lia|].
      rewrite Forall_forall in Hy. now apply Hy.
Qed.

Lemma group_keys_In (x : Z) (l : list Z) : In x (group_keys l) <-> In x l.
Proof.
  induction l as [|k l IH]; simpl; [tauto|].
  rewrite insert_key_In, IH. intuition.
Qed.

Lemma group_keys_sorted (l : list Z) : StronglySorted Z.lt (group_keys l).
Proof.
  induction l as [|k l IH]; simpl; [constructor|now apply insert_key_sorted].
Qed.

Lemma sorted_lt_NoDup (l : list Z) : StronglySorted Z.lt l -> NoDup l.
Proof.
  induction 1 as [|y l Hs IH Hy]; constructor; [|assumption].
  intros Hin. rewrite Forall_forall in Hy. apply Hy in Hin. lia.
Qed.

Lemma group_keys_NoDup (l : list Z) : NoDup (group_keys l).
Proof. apply sorted_lt_NoDup, group_keys_sorted. Qed.

Context {A : Type} (key : A -> Z).

(** Sorting a frame that is already in order changes nothing. *)
Lemma sort_values_sorted (l : list A) :
  StronglySorted Z.le (map key l) -> sort_values key l = l.
Proof.
  induction l as [|a l IH]; [reflexivity|]. cbn [map]. intros Hs.
  apply StronglySorted_inv in Hs as [Hs Ha].
  cbn [sort_values fold_right]. fold (sort_values key l). rewrite IH by assumption.
  destruct l as [|b l]; [reflexivity|]. simpl.
  apply Forall_inv in Ha. now apply Z.leb_le in Ha as ->.
Qed.

Lemma sorted_lt_le (l : list Z) : StronglySorted Z.lt l -> StronglySorted Z.le l.
Proof.
  induction 1 as [|y l Hs IH Hy]; constructor; [assumption|].
  eapply Forall_impl; [|exact Hy]. intros; simpl in *; lia.
Qed.

Lemma insert_by_perm (r : A) (l : list A) : Permutation (r :: l) (insert_by key r l).
Proof.
  induction l as [|x l IH]; simpl; [reflexivity|].
  destruct (key r <=? key x)%Z; [reflexivity|].
  rewrite perm_swap. now constructor.
Qed.

Lemma sort_values_perm (l : list A) : Permutation l (sort_values key l).
Proof.
  induction l as [|a l IH]; simpl; [constructor|].
  rewrite <- insert_by_perm. now constructor.
Qed.

Lemma insert_by_sorted (r : A) (l : list A) :
  StronglySorted Z.le (map key l) ->
  StronglySorted Z.le (map key (insert_by key r l)).
Proof.
  induction l as [|x l IH]; simpl; intros Hs.
  - repeat constructor.
  - apply StronglySorted_inv in Hs as [Hs Hx].
    destruct (Z.leb_spec (key r) (key x)); cbn [map].
    + constructor; [now constructor|]. constructor; [assumption|].
      eapply Forall_impl; [|exact Hx]. intros; simpl in *; lia.
    + constructor; [now apply IH|].
      apply Forall_forall. intros k Hk. apply in_map_iff in Hk as [y [<- Hy]].
      apply (Permutation_in _ (Permutation_sym (insert_by_perm r l))) in Hy.
      destruct Hy as [<-|Hy]; [lia|].
      rewrite Forall_forall in Hx. apply Hx. now apply in_map.
Qed.

Lemma sort_values_is_sorted (l : list A) :
  StronglySorted Z.le (map key (sort_values key l)).
Proof.
  induction l as [|a l IH]; simpl; [constructor|now apply insert_by_sorted].
Qed.

(** Summing group by group is summing everything, when every key has
    exactly one group. *)
Lemma Rsum_app (l1 l2 : list R) : Rsum (l1 ++ l2) = (Rsum l1 + Rsum l2)%R.
Proof. induction l1 as [|a l1 IH]; simpl; [lra|rewrite IH; lra]. Qed.

Lemma Rsum_map_plus {B : Type} (f g : B -> R) (l : list B) :
  Rsum (map (fun k => f k + g k)%R l) = (Rsum (map f l) + Rsum (map g l))%R.
Proof. induction l as [|a l IH]; simpl; [lra|rewrite IH; lra]. Qed.

Lemma Rsum_indicator (k0 : Z) (v : R) (keys : list Z) :
  NoDup keys ->
  Rsum (map (fun k => if (k0 =? k)%Z then v else 0%R) keys)
  = if in_dec Z.eq_dec k0 keys then v else 0%R.
Proof.
  induction 1 as [|k keys Hk Hnd IH]; [reflexivity|].
  cbn [map Rsum fold_right]. fold (Rsum (map (fun k => if (k0 =? k)%Z then v else 0%R) keys)).
  rewrite IH. destruct (Z.eqb_spec k0 k) as [->|Hne].
  - destruct (in_dec Z.eq_dec k keys); [contradiction|].
    destruct (in_dec Z.eq_dec k (k :: keys)) as [_|n']; [lra|exfalso; apply n'; now left].
  - destruct (in_dec Z.eq_dec k0 keys) as [i|n];
      destruct (in_dec Z.eq_dec k0 (k :: keys)) as [i'|n']; try lra.
    + exfalso; apply n'; now right.
    + destruct i' as [E|i']; [congruence|contradiction].
Qed.

Lemma Rsum_by_key (f : A -> R) (keys : list Z) (l : list A) :
  NoDup keys -> (forall a, In a l -> In (key a) keys) ->
  Rsum (map (fun k => Rsum (map f (filter (fun a => (key a =? k)%Z) l))) keys)
  = Rsum (map f l).
Proof.
  intros Hnd. induction l as [|a l IH]; intros Hin.
  - simpl. clear. induction keys as [|k keys IHk]; simpl; [reflexivity|].
    rewrite IHk. lra.
  - rewrite (map_ext _
      (fun k => (if (key a =? k)%Z then f a else 0)
                + Rsum (map f (filter (fun a0 => (key a0 =? k)%Z) l)))%R).
    + rewrite Rsum_map_plus, IH by (intros; apply Hin; now right).
      rewrite Rsum_indicator by assumption.
      destruct (in_dec Z.eq_dec (key a) keys) as [_|n]; [reflexivity|].
      exfalso. apply n, Hin. now left.
    + intros k. simpl. destruct (key a =? k)%Z; simpl; lra.
Qed.

End Grouping.

(** ** Daily aggregation *)

Section DailyTotals.

Import DataLoader.

Lemma nunique_le (l : list string) : (nunique l <= length l)%nat.
Proof.
  unfold nunique. induction l as [|a l IH]; simpl; [lia|].
  destruct (in_dec string_dec a l); simpl; lia.
Qed.

Lemma daily_rows_dates (df : list Snapshot) :
  map date (daily_rows df) = group_keys (map crawl_date df).
Proof. unfold daily_rows. rewrite map_map. simpl. apply map_id. Qed.

Lemma compute_daily_totals_rows (df : list Snapshot) :
  compute_daily_totals df = daily_rows df.
Proof.
  unfold compute_daily_totals.
  apply sort_values_sorted. rewrite daily_rows_dates.
  apply sorted_lt_le, group_keys_sorted.
Qed.

(** C3. Aggregation conserves wealth: the totals of all output dates add up
    to the net worth of all input records.  On each output row the count
    of distinct names is at most the number of records of that date (and
    the total is the sum over these records).  The output dates increase
    strictly, so each occurs once, and they are the input dates. *)
Theorem aggregation_conserves (df : list Snapshot) :
  Rsum (map total_wealth (compute_daily_totals df)) = Rsum (map finalWorth df)
  /\ Forall (fun r =>
       total_wealth r = Rsum (map finalWorth (on_date df (date r)))
       /\ (billionaire_count r <= INR (length (on_date df (date r))))%R)
     (compute_daily_totals df)
  /\ StronglySorted Z.lt (map date (compute_daily_totals df))
  /\ (forall d, In d (map date (compute_daily_totals df))
                <-> In d (map crawl_date df)).
Proof.
  rewrite compute_daily_totals_rows. repeat split.
  - unfold daily_rows. rewrite map_map. cbn [total_wealth].
    apply (Rsum_by_key crawl_date finalWorth).
    + apply group_keys_NoDup.
    + intros s Hs. apply group_keys_In. now apply in_map.
  - unfold daily_rows. apply Forall_map, Forall_forall. intros d _.
    cbn [date total_wealth billionaire_count]. split; [reflexivity|].
    apply le_INR. rewrite <- (length_map personName). apply nunique_le.
  - rewrite daily_rows_dates. apply group_keys_sorted.
  - rewrite daily_rows_dates. apply group_keys_In.
  - rewrite daily_rows_dates. apply group_keys_In.
Qed.

End DailyTotals.

(** ** The source of the growth metrics *)

Section GrowthSource.

Import DataLoader.

Lemma in_period_period (dt : list DailyTotal) (p : Z) (r : DailyTotal) :
  In r (in_period dt p) -> period r = p.
Proof. unfold in_period. intros H. apply filter_In in H as [_ H]. lia. Qed.

Lemma in_period_nonempty (dt : list DailyTotal) (p : Z) :
  In p (map period dt) -> in_period dt p <> [].
Proof.
  intros H. apply in_map_iff in H as [r [<- Hr]]. intros E.
  assert (Hin : In r (in_period dt (period r)))
    by (apply filter_In; split; [assumption|apply Z.eqb_refl]).
  rewrite E in Hin. destruct Hin.
Qed.

Lemma monthly_row_period (dt : list DailyTotal) (p : Z) :
  In p (map period dt) -> period (monthly_row dt p) = p.
Proof.
  intros H. apply in_period_nonempty in H. unfold monthly_row, period at 1.
  cbn [date]. destruct (in_period dt p) as [|r rows] eqn:E; [easy|].
  apply (in_period_period dt). rewrite E. now left.
Qed.

Lemma monthly_rows_periods (dt : list DailyTotal) :
  map period (monthly_rows dt) = group_keys (map period dt).
Proof.
  unfold monthly_rows. rewrite map_map.
  rewrite <- (map_id (group_keys (map period dt))) at 2.
  apply map_ext_in. intros p Hp. apply monthly_row_period.
  now apply group_keys_In.
Qed.

Lemma filter_sorted (f : DailyTotal -> bool) (dt : list DailyTotal) :
  StronglySorted Z.le (map date dt) ->
  StronglySorted Z.le (map date (filter f dt)).
Proof.
  induction dt as [|r dt IH]; simpl; intros Hs; [constructor|].
  apply StronglySorted_inv in Hs as [Hs Hr].
  destruct (f r); cbn [map]; [|now apply IH].
  constructor; [now apply IH|].
  apply Forall_forall. intros d Hd. apply in_map_iff in Hd as [x [<- Hx]].
  apply filter_In in Hx as [Hx _]. rewrite Forall_forall in Hr.
  apply Hr. now apply in_map.
Qed.

Lemma monthly_row_spec (dt : list DailyTotal) (p : Z) :
  StronglySorted Z.le (map date dt) -> In p (map period dt) ->
  Spec.monthly_average dt (monthly_row dt p).
Proof.
  intros Hs Hp. unfold Spec.monthly_average.
  change (to_period_M (date (monthly_row dt p))) with (period (monthly_row dt p)).
  rewrite (monthly_row_period dt p Hp).
  change (filter (fun x => (to_period_M (date x) =? p)%Z) dt) with (in_period dt p).
  pose proof (in_period_nonempty dt p Hp) as Hne.
  pose proof (filter_sorted (fun r => (period r =? p)%Z) dt Hs) as Hsf.
  fold (in_period dt p) in Hsf.
  unfold monthly_row. cbn [date total_wealth billionaire_count].
  destruct (in_period dt p) as [|r rows]; [easy|].
  repeat split; try easy.
  - now left.
  - cbn [map] in *. apply StronglySorted_inv in Hsf as [_ Hr].
    constructor; [lia|assumption].
Qed.

(** C4. On a sorted series the metrics are computed from the monthly
    averages when there are more than 60 points, and from the series itself
    when there are at most 60 (none is an early return).  The monthly
    averages are in date order, one row per calendar month of the series,
    each the mean total, the mean count and the first date of its month. *)
Theorem growth_source_selection (daily_totals : list DailyTotal) :
  StronglySorted Z.le (map date daily_totals) ->
  ((60 < length daily_totals)%nat ->
     calculate_growth_metrics daily_totals
     = growth_from_source (get_monthly_averages daily_totals))
  /\ ((0 < length daily_totals <= 60)%nat ->
     calculate_growth_metrics daily_totals = growth_from_source daily_totals)
  /\ (daily_totals = [] -> calculate_growth_metrics daily_totals = Some no_growth)
  /\ Forall (Spec.monthly_average daily_totals)
            (get_monthly_averages daily_totals)
  /\ StronglySorted Z.le (map date (get_monthly_averages daily_totals))
  /\ NoDup (map period (get_monthly_averages daily_totals))
  /\ (forall p, In p (map period (get_monthly_averages daily_totals))
                <-> In p (map period daily_totals)).
Proof.
  intros Hs.
  assert (Hperm : Permutation (monthly_rows daily_totals)
                              (get_monthly_averages daily_totals))
    by apply sort_values_perm.
  repeat split.
  - intros Hlen. unfold calculate_growth_metrics, growth_source.
    replace (length daily_totals <? 2)%nat with false
      by (symmetry; apply Nat.ltb_ge; lia).
    replace (60 <? length daily_totals)%nat with true
      by (symmetry; apply Nat.ltb_lt; lia).
    reflexivity.
  - intros Hlen. unfold calculate_growth_metrics, growth_source.
    replace (60 <? length daily_totals)%nat with false
      by (symmetry; apply Nat.ltb_ge; lia).
    destruct (Nat.ltb_spec (length daily_totals) 2); [|reflexivity].
    destruct daily_totals as [|r [|r' l]]; simpl in *; try lia.
    unfold growth_from_source, last_error.
    cbn [hd_error length Nat.sub nth_error bind]. now rewrite Z.sub_diag.
  - intros ->. reflexivity.
  - eapply Permutation_Forall; [exact Hperm|].
    unfold monthly_rows. apply Forall_map, Forall_forall. intros p Hp.
    apply monthly_row_spec; [assumption|now apply group_keys_In].
  - apply sort_values_is_sorted.
  - eapply Permutation_NoDup; [exact (Permutation_map period Hperm)|].
    rewrite monthly_rows_periods. apply group_keys_NoDup.
  - intros Hp. apply (Permutation_in _ (Permutation_sym (Permutation_map period Hperm))) in Hp.
    rewrite monthly_rows_periods in Hp. exact (proj1 (group_keys_In _ _) Hp).
  - intros Hp. apply (Permutation_in _ (Permutation_map period Hperm)).
    rewrite monthly_rows_periods. exact (proj2 (group_keys_In _ _) Hp).
Qed.

End GrowthSource.

(** ** Growth metrics *)

Section GrowthMetrics.

Import DataLoader.

Lemma clip_finite (x lo hi : R) :
  clip (Finite x) (Finite lo) (Finite hi) = Finite (Rmin (Rmax x lo) hi).
Proof. unfold clip. now rewrite maximum_finite, minimum_finite. Qed.

Lemma clip_in_range (x : float64) (lo hi : R) :
  (lo <= hi)%R -> is_nan x = false ->
  in_range lo hi (clip x (Finite lo) (Finite hi)).
Proof.
  intros Hle Hx. destruct x as [r| | |]; try discriminate.
  - rewrite clip_finite. simpl. unfold Rmin, Rmax.
    destruct (Rle_dec r lo), (Rle_dec _ hi); lra.
  - unfold clip, maximum, minimum. simpl. lra.
  - unfold clip, maximum, minimum. simpl.
    rewrite (Rltb_false hi lo) by lra. simpl. lra.
Qed.

(** The power of a non-negative base is a number or plus infinity. *)
Lemma Rpow_nonneg (x y : R) : (0 <= x)%R -> is_nan (Rpow x y) = false.
Proof.
  intros Hx. unfold Rpow.
  destruct (Rltb 0 x) eqn:E; [reflexivity|].
  rewrite Reqb_true.
  - destruct (Rltb 0 y); [reflexivity|]. now destruct (Reqb y 0).
  - destruct (Rltb_iff 0 x) as [_ H]. destruct (Rlt_dec 0 x); [|lra].
    rewrite H in E by assumption. discriminate.
Qed.

Lemma days_per_year : 365.25%R = (1461 / 4)%R.
Proof. lra. Qed.

(** The exponent [1 / (days / 365.25)] is never a whole number, so a
    negative base always gives NaN. *)
Lemma exponent_not_integer (d : Z) :
  d <> 0%Z -> is_integer (1 / (IZR d / 365.25)) = false.
Proof.
  intros Hd. unfold is_integer. apply Reqb_false. intros E.
  set (k := Zfloor (1 / (IZR d / 365.25))) in *.
  assert (Hd' : IZR d <> 0%R) by (now apply not_0_IZR).
  assert (E' : (IZR (4 * (k * d)) = IZR 1461)%R).
  { rewrite !mult_IZR, <- E, days_per_year. field. assumption. }
  apply eq_IZR in E'. lia.
Qed.

Lemma Rpow_negative (x : R) (d : Z) :
  (x < 0)%R -> d <> 0%Z -> Rpow x (1 / (IZR d / 365.25)) = NaN.
Proof.
  intros Hx Hd. unfold Rpow.
  rewrite Rltb_false by lra. rewrite Reqb_false by lra.
  now rewrite exponent_not_integer.
Qed.

Lemma sub_mul_nan (x : float64) :
  is_nan ((x - Finite 1) * Finite 100) = is_nan x.
Proof.
  destruct x; simpl; try reflexivity; unfold signed_inf;
    rewrite ?Ropp_involutive;
    (rewrite Reqb_false by lra); [rewrite Rltb_true by lra|rewrite Rltb_false by lra];
    reflexivity.
Qed.

Lemma last_error_Some {A : Type} (l : list A) :
  l <> [] -> exists a, last_error l = Some a.
Proof.
  intros H. unfold last_error.
  destruct (nth_error l (length l - 1)) eqn:E; [eauto|].
  apply nth_error_None in E. destruct l; [easy|simpl in E; lia].
Qed.

(** The growth metrics computed from a source whose first and last rows
    are given. *)
Lemma growth_from_source_cases (source : list DailyTotal)
      (first latest : DailyTotal) :
  hd_error source = Some first -> last_error source = Some latest ->
  let start_val := total_wealth first in
  let end_val := total_wealth latest in
  let days_diff := (date latest - date first)%Z in
  let raw :=
    (Rpow (end_val / start_val) (1 / (IZR days_diff / 365.25)) - Finite 1)
    * Finite 100 in
  exists m, growth_from_source source = Some m
    /\ ((days_diff = 0%Z \/ start_val = 0%R) -> m = no_growth)
    /\ (days_diff <> 0%Z -> start_val <> 0%R ->
        growth_rate m = clip raw (Finite (-50)) (Finite 100)
        /\ ((0 <= end_val / start_val)%R -> in_range (-50) 100 (growth_rate m))
        /\ ((end_val / start_val < 0)%R -> growth_rate m = NaN)
        /\ (forall g, growth_rate m = Finite g -> (0 < g)%R ->
              doubling_time m = Finite (ln 2 / ln (1 + g / 100))
              /\ daily_accumulation m
                 = Finite ((end_val - start_val) / (1000 * IZR days_diff)))
        /\ ((forall g, growth_rate m = Finite g -> (g <= 0)%R) ->
              doubling_time m = PosInf /\ daily_accumulation m = Finite 0)).
Proof.
  intros Hhd Hlast start_val end_val days_diff raw.
  unfold growth_from_source. rewrite Hhd, Hlast. cbn [bind].
  fold start_val end_val days_diff.
  destruct (Z.eqb_spec days_diff 0) as [Hd|Hd]; cbn [orb].
  { eexists; split; [reflexivity|]. split; [reflexivity|]. intros; contradiction. }
  destruct (Reqb start_val 0) eqn:Hs.
  { apply Reqb_iff in Hs. eexists; split; [reflexivity|].
    split; [reflexivity|]. intros; contradiction. }
  assert (Hs' : start_val <> 0%R).
  { intros E. apply (Reqb_true start_val 0) in E. congruence. }
  rewrite (div_finite end_val start_val Hs'). cbn [pow]. fold raw.
  set (cagr := clip raw (Finite (-50)) (Finite 100)).
  eexists; split; [reflexivity|]. cbn [growth_rate doubling_time daily_accumulation].
  split; [intros [?|?]; contradiction|]. intros _ _.
  split; [reflexivity|]. split; [|split; [|split]].
  - intros Hr. apply clip_in_range; [lra|]. unfold raw.
    rewrite sub_mul_nan. now apply Rpow_nonneg.
  - intros Hr. unfold cagr, raw. now rewrite Rpow_negative.
  - intros g Hg Hpos.
    assert (Hrange : (g <= 100)%R).
    { destruct raw as [r| | |] eqn:Er; unfold cagr in Hg.
      - rewrite clip_finite in Hg. injection Hg as <-. apply Rmin_r.
      - unfold clip, maximum, minimum in Hg; simpl in Hg. injection Hg as <-. lra.
      - unfold clip, maximum, minimum in Hg; simpl in Hg.
        rewrite (Rltb_false 100 (-50)) in Hg by lra. simpl in Hg.
        injection Hg as <-. lra.
      - discriminate. }
    rewrite Hg. unfold gtb. cbn [ltb]. rewrite (Rltb_true 0 g Hpos).
    assert (H100 : (100 <> 0)%R) by lra.
    rewrite (div_finite g 100 H100). cbn [add flog].
    rewrite (Rltb_true 0 2) by lra. rewrite (Rltb_true 0 (1 + g / 100)) by lra.
    assert (Hln : (0 < ln (1 + g / 100))%R).
    { rewrite <- ln_1. apply ln_increasing; lra. }
    rewrite div_finite by lra. split; [reflexivity|].
    rewrite sub_finite, div_finite; [reflexivity|].
    apply Rmult_integral_contrapositive_currified; [lra|now apply not_0_IZR].
  - intros Hle. unfold gtb.
    destruct cagr as [g| | |] eqn:Ec; cbn [ltb].
    + rewrite Rltb_false by (now apply Hle). now split.
    + exfalso. unfold cagr, clip, minimum in Ec.
      destruct (maximum raw (Finite (-50))); simpl in Ec; try discriminate.
      destruct (Rltb 100 r); discriminate.
    + now split.
    + now split.
Qed.

Lemma get_monthly_averages_nonempty (dt : list DailyTotal) :
  dt <> [] -> get_monthly_averages dt <> [].
Proof.
  intros Hne E. destruct dt as [|r dt]; [easy|].
  pose proof (sort_values_perm date (monthly_rows (r :: dt))) as Hp.
  fold (get_monthly_averages (r :: dt)) in Hp. rewrite E in Hp.
  apply Permutation_sym, Permutation_nil in Hp.
  assert (Hin : In (period r) (group_keys (map period (r :: dt))))
    by (apply group_keys_In; now left).
  unfold monthly_rows in Hp. destruct (group_keys _); [destruct Hin|discriminate].
Qed.

Lemma growth_source_nonempty (dt : list DailyTotal) :
  dt <> [] -> growth_source dt <> [].
Proof.
  intros Hne. unfold growth_source. destruct (60 <? length dt)%nat; [|assumption].
  now apply get_monthly_averages_nonempty.
Qed.

(** C2, as the code has it.  The estimator always returns.  With the first
    and last rows of the source (the monthly averages of a series of more
    than 60 points, the series itself otherwise): a zero day difference or
    a zero first total gives growth 0, infinite doubling time and
    accumulation 0.  Otherwise the growth rate is the clamped compound rate;
    it is a number of [-50, 100] when [end_val / start_val] is not negative
    and NaN when it is negative.  A positive growth rate [g] gives the
    doubling time [ln 2 / ln (1 + g / 100)] and the accumulation
    [(end_val - start_val) / (1000 * days_diff)]; any other gives an
    infinite doubling time and accumulation 0. *)
Theorem growth_metrics_cases (daily_totals : list DailyTotal) :
  exists m, calculate_growth_metrics daily_totals = Some m
  /\ forall first latest,
     hd_error (growth_source daily_totals) = Some first ->
     last_error (growth_source daily_totals) = Some latest ->
     let start_val := total_wealth first in
     let end_val := total_wealth latest in
     let days_diff := (date latest - date first)%Z in
     let raw :=
       (Rpow (end_val / start_val) (1 / (IZR days_diff / 365.25)) - Finite 1)
       * Finite 100 in
     ((days_diff = 0%Z \/ start_val = 0%R) -> m = no_growth)
     /\ (days_diff <> 0%Z -> start_val <> 0%R ->
         growth_rate m = clip raw (Finite (-50)) (Finite 100)
         /\ ((0 <= end_val / start_val)%R -> in_range (-50) 100 (growth_rate m))
         /\ ((end_val / start_val < 0)%R -> growth_rate m = NaN)
         /\ (forall g, growth_rate m = Finite g -> (0 < g)%R ->
               doubling_time m = Finite (ln 2 / ln (1 + g / 100))
               /\ daily_accumulation m
                  = Finite ((end_val - start_val) / (1000 * IZR days_diff)))
         /\ ((forall g, growth_rate m = Finite g -> (g <= 0)%R) ->
               doubling_time m = PosInf /\ daily_accumulation m = Finite 0)).
Proof.
  unfold calculate_growth_metrics.
  destruct (Nat.ltb_spec (length daily_totals) 2) as [Hlt|Hge].
  - exists no_growth. split; [reflexivity|]. intros first latest Hhd Hlast.
    unfold growth_source in *.
    replace (60 <? length daily_totals)%nat with false in *
      by (symmetry; apply Nat.ltb_ge; lia).
    destruct daily_totals as [|r [|r' l]]; simpl in Hlt; try lia; [discriminate|].
    unfold last_error in Hlast. simpl in Hhd, Hlast.
    injection Hhd as <-. injection Hlast as <-. cbv zeta.
    split; [reflexivity|]. intros Hd. exfalso. apply Hd. lia.
  - assert (Hne : growth_source daily_totals <> []).
    { apply growth_source_nonempty. intros ->. simpl in Hge. lia. }
    destruct (growth_source daily_totals) as [|first l] eqn:Es; [easy|].
    destruct (last_error_Some (first :: l)) as [latest Hlast]; [easy|].
    destruct (growth_from_source_cases (first :: l) first latest eq_refl Hlast)
      as [m [Hm Hcases]].
    exists m. split; [exact Hm|]. intros first' latest' Hhd' Hlast'.
    injection Hhd' as <-. rewrite Hlast in Hlast'. injection Hlast' as <-.
    exact Hcases.
Qed.

(** C2 does not hold as it is stated: between a total of 1 and a total of
    -1 one day later the growth rate is NaN, outside [-50, 100]. *)
Lemma growth_rate_not_in_range :
  exists m,
    calculate_growth_metrics
      [ {| date := 0; total_wealth := 1; billionaire_count := 1 |};
        {| date := 1; total_wealth := -1; billionaire_count := 1 |} ] = Some m
    /\ growth_rate m = NaN
    /\ ~ in_range (-50) 100 (growth_rate m).
Proof.
  set (r0 := {| date := 0; total_wealth := 1; billionaire_count := 1 |}).
  set (r1 := {| date := 1; total_wealth := -1; billionaire_count := 1 |}).
  destruct (growth_from_source_cases [r0; r1] r0 r1 eq_refl eq_refl)
    as [m [Hm [_ Hcases]]].
  exists m. split; [exact Hm|].
  destruct Hcases as [_ [_ [Hnan _]]].
  - simpl. lia.
  - simpl. lra.
  - assert (E : growth_rate m = NaN) by (apply Hnan; simpl; lra).
    split; [exact E|]. rewrite E. simpl. tauto.
Qed.

End GrowthMetrics.

(** ** Summary statistics *)

Section SummaryStats.

Import ChartDataProcessor.

(** Where the first total is not zero the summary agrees with
    [_pct_change]. *)
Lemma total_increase_pct_change (df : list chart_row) (fit : fit_params)
      (first latest : chart_row) :
  hd_error df = Some first -> last_error df = Some latest ->
  total_wealth first <> 0%R ->
  exists st, get_summary_stats df fit = Some st
    /\ totalIncrease st
       = Finite (DataLoader.pct_change (total_wealth latest) (total_wealth first)).
Proof.
  intros Hhd Hlast Hne. unfold get_summary_stats. rewrite Hhd, Hlast. cbn [bind].
  eexists; split; [reflexivity|]. cbn [totalIncrease].
  rewrite sub_finite, div_finite by assumption.
  unfold DataLoader.pct_change. now rewrite Reqb_false.
Qed.

(** With a first total of zero the total increase of the summary is never
    a number, whatever the last total is. *)
Lemma total_increase_not_finite (df : list chart_row) (fit : fit_params)
      (first latest : chart_row) (st : summary_stats) :
  hd_error df = Some first -> last_error df = Some latest ->
  total_wealth first = 0%R ->
  get_summary_stats df fit = Some st ->
  forall r, totalIncrease st <> Finite r.
Proof.
  intros Hhd Hlast H0 Hst r. unfold get_summary_stats in Hst.
  rewrite Hhd, Hlast in Hst. cbn [bind] in Hst. injection Hst as <-.
  rewrite H0, (Reqb_true 0 0) by reflexivity. unfold signed_inf.
  destruct (Reqb _ 0); [discriminate|].
  destruct (Rltb 0 _); cbn [mul]; unfold signed_inf;
    rewrite ?Ropp_involutive; (rewrite Reqb_false by lra);
    [rewrite Rltb_true by lra|rewrite Rltb_false by lra]; discriminate.
Qed.

(** C7, at a first total of zero: [_pct_change] returns 0, the summary
    divides by zero and its total increase is infinite. *)
Theorem total_increase_zero_start (fit : fit_params) :
  exists st,
    get_summary_stats
      [ {| date := 0; total_wealth := 0; days_from_start := 0 |};
        {| date := 1; total_wealth := 5; days_from_start := 1 |} ] fit = Some st
    /\ totalIncrease st = PosInf
    /\ DataLoader.pct_change 5 0 = 0%R.
Proof.
  eexists; split; [reflexivity|]. split.
  - cbn [totalIncrease total_wealth]. rewrite sub_finite. cbn [div].
    rewrite (Reqb_true 0 0) by reflexivity. unfold signed_inf.
    rewrite Reqb_false by lra. rewrite Rltb_true by lra.
    cbn [mul]. unfold signed_inf.
    rewrite Reqb_false by lra. now rewrite Rltb_true by lra.
  - unfold DataLoader.pct_change. now rewrite Reqb_true.
Qed.

End SummaryStats.

(** ** Inflation adjustment *)

Section Inflation.

Import ChartDataProcessor.

Lemma forallb_is_nan (column : list float64) :
  negb (forallb is_nan column) = existsb (fun v => negb (is_nan v)) column.
Proof.
  induction column as [|v column IH]; [reflexivity|].
  simpl. rewrite negb_andb, IH. reflexivity.
Qed.

Lemma hd_filter_find {A : Type} (f : A -> bool) (l : list A) :
  hd_error (filter f l) = find f l.
Proof.
  induction l as [|x l IH]; [reflexivity|]. simpl. now destruct (f x).
Qed.

Lemma existsb_find {A : Type} (f : A -> bool) (l : list A) :
  existsb f l = true -> exists x, find f l = Some x.
Proof.
  induction l as [|x l IH]; simpl; [discriminate|].
  destruct (f x); [eauto|exact IH].
Qed.

Lemma prepare_adjusted_find (df : frame) (name : string) (column : list float64)
      (base : float64) :
  lookup name (extra df) = Some column ->
  find (fun v => negb (is_nan v)) column = Some base ->
  prepare_inflation_adjusted_data df name
  = Some {| data :=
              map (fun p => (date (fst p),
                             Finite (total_wealth (fst p)) * (base / snd p)))
                  (filter (fun p => Spec.present_and_positive (snd p))
                          (combine (rows df) column));
            inflationType := upper name;
            baseValue := base |}.
Proof.
  intros Hl Hf. unfold prepare_inflation_adjusted_data. rewrite Hl. cbn [bind].
  unfold notna at 1. rewrite hd_filter_find, Hf. reflexivity.
Qed.

Lemma first_available_spec (df : frame) (candidates : list string) :
  first_available df candidates
  = Some match find (Spec.has_value df) candidates with
         | None => None
         | Some name =>
             match lookup name (extra df) with
             | None => None
             | Some column =>
                 match find (fun v => negb (is_nan v)) column with
                 | None => None
                 | Some base =>
                     Some {| data :=
                               map (fun p =>
                                      (date (fst p),
                                       Finite (total_wealth (fst p))
                                       * (base / snd p)))
                                   (filter (fun p =>
                                              Spec.present_and_positive (snd p))
                                           (combine (rows df) column));
                             inflationType := upper name;
                             baseValue := base |}
                 end
             end
         end.
Proof.
  induction candidates as [|name rest IH]; [reflexivity|].
  cbn [first_available find].
  destruct (lookup name (extra df)) as [column|] eqn:Hl.
  - rewrite forallb_is_nan.
    assert (Hv : Spec.has_value df name
                 = existsb (fun v => negb (is_nan v)) column)
      by (unfold Spec.has_value; now rewrite Hl).
    rewrite Hv. destruct (existsb _ column) eqn:He; [|exact IH].
    destruct (existsb_find _ _ He) as [base Hb].
    rewrite (prepare_adjusted_find df name column base Hl Hb), Hl, Hb.
    reflexivity.
  - assert (Hv : Spec.has_value df name = false)
      by (unfold Spec.has_value; now rewrite Hl).
    rewrite Hv. exact IH.
Qed.

(** C9. The inflation adjustment never raises, and returns what the
    specification describes: the series over the first of [cpi_u] and [pce]
    that has a value, relative to that column's first value, with one point
    [nominal * (base / index)] for each row whose index is present and
    positive and no point for the other rows; and [None] when neither
    column has a value. *)
Theorem inflation_adjustment_refines (df : frame) :
  get_inflation_data df = Some (Spec.inflation_adjustment df)
  /\ (Spec.has_value df "cpi_u" = false -> Spec.has_value df "pce" = false ->
      get_inflation_data df = Some None).
Proof.
  split.
  - unfold get_inflation_data, Spec.inflation_adjustment.
    apply first_available_spec.
  - intros H1 H2. unfold get_inflation_data.
    rewrite first_available_spec. cbn [find]. now rewrite H1, H2.
Qed.

End Inflation.

(** ** Rounding to binary64 *)

Section Binary64.

Local Open Scope R_scope.

Lemma bpow_pos (e : Z) : 0 < bpow e.
Proof. apply powerRZ_lt. lra. Qed.

Lemma bpow_add (a b : Z) : bpow (a + b) = bpow a * bpow b.
Proof. apply powerRZ_add. lra. Qed.

Lemma ln2_pos : 0 < ln 2.
Proof. rewrite <- ln_1. apply ln_increasing; lra. Qed.

Lemma bpow_exp (e : Z) : bpow e = exp (IZR e * ln 2).
Proof. unfold bpow. rewrite powerRZ_Rpower by lra. reflexivity. Qed.

Lemma bpow_le (a b : Z) : (a <= b)%Z -> bpow a <= bpow b.
Proof.
  intros H. rewrite !bpow_exp. apply IZR_le in H. pose proof ln2_pos.
  destruct (Req_dec (IZR a) (IZR b)) as [->|Hne]; [lra|].
  left. apply exp_increasing. nra.
Qed.

Lemma bpow_lt (a b : Z) : (a < b)%Z -> bpow a < bpow b.
Proof.
  intros H. replace b with (a + (b - a))%Z by lia. rewrite bpow_add.
  assert (2 <= bpow (b - a)).
  { replace 2 with (bpow 1) by (unfold bpow; simpl; lra). apply bpow_le. lia. }
  pose proof (bpow_pos a). nra.
Qed.

Lemma bpow_IZR (e : Z) : (0 <= e)%Z -> bpow e = IZR (2 ^ e).
Proof.
  intros H. unfold bpow. destruct e as [|p|p]; [reflexivity| |lia].
  unfold powerRZ. rewrite pow_IZR. now rewrite positive_nat_Z.
Qed.

Lemma bpow_opp (e : Z) : bpow (- e) = / bpow e.
Proof.
  apply (Rmult_eq_reg_l (bpow e)); [|pose proof (bpow_pos e); lra].
  rewrite <- bpow_add, Z.add_opp_diag_r, Rinv_r by (pose proof (bpow_pos e); lra).
  reflexivity.
Qed.

Lemma bpow_neg (p : positive) : bpow (Z.neg p) = / IZR (2 ^ Z.pos p).
Proof.
  change (Z.neg p) with (Z.opp (Z.pos p)). now rewrite bpow_opp, bpow_IZR by lia.
Qed.

Lemma ilog2_spec (x : R) : 0 < x -> bpow (ilog2 x) <= x < bpow (ilog2 x + 1).
Proof.
  intros Hx. unfold ilog2. pose proof ln2_pos as H2.
  pose proof (Zfloor_bound (ln x / ln 2)) as [Hlo Hhi].
  set (k := Zfloor (ln x / ln 2)) in *.
  assert (E : ln x = ln x / ln 2 * ln 2) by (field; lra).
  rewrite !bpow_exp, plus_IZR.
  assert (Hlo' : exp (IZR k * ln 2) <= exp (ln x)).
  { destruct (Req_dec (IZR k * ln 2) (ln x)) as [->|Hne]; [lra|].
    left. apply exp_increasing. nra. }
  assert (Hhi' : exp (ln x) < exp ((IZR k + 1) * ln 2))
    by (apply exp_increasing; nra).
  rewrite exp_ln in Hlo', Hhi' by assumption. now split.
Qed.

Lemma ilog2_unique (x : R) (k : Z) : bpow k <= x < bpow (k + 1) -> ilog2 x = k.
Proof.
  intros [Hlo Hhi].
  assert (Hx : 0 < x) by (pose proof (bpow_pos k); lra).
  destruct (ilog2_spec x Hx) as [Slo Shi].
  destruct (Z_lt_le_dec (ilog2 x) k) as [Hlt|Hge].
  - pose proof (bpow_le (ilog2 x + 1) k ltac:(lia)). lra.
  - destruct (Z_lt_le_dec k (ilog2 x)) as [Hlt|Hle]; [|lia].
    pose proof (bpow_le (k + 1) (ilog2 x) ltac:(lia)). lra.
Qed.

Lemma ilog2_le (x y : R) : 0 < x <= y -> (ilog2 x <= ilog2 y)%Z.
Proof.
  intros [Hx Hxy].
  destruct (ilog2_spec x Hx) as [Slo Shi].
  destruct (ilog2_spec y ltac:(lra)) as [Tlo Thi].
  destruct (Z_lt_le_dec (ilog2 y) (ilog2 x)) as [Hlt|Hge]; [|assumption].
  pose proof (bpow_le (ilog2 y + 1) (ilog2 x) ltac:(lia)). lra.
Qed.

(** The nearest integer. *)

Lemma round_half_even_error (x : R) :
  Rabs (IZR (round_half_even x) - x) <= / 2.
Proof.
  unfold round_half_even. pose proof (Zfloor_bound x) as [Hlo Hhi].
  set (f := Zfloor x) in *. unfold Rltb.
  destruct (Rlt_dec (x - IZR f) (/ 2)) as [H1|H1].
  - apply Rabs_le. lra.
  - destruct (Rlt_dec (/ 2) (x - IZR f)) as [H2|H2].
    + rewrite plus_IZR. apply Rabs_le. lra.
    + destruct (Z.even f); [|rewrite plus_IZR]; apply Rabs_le; lra.
Qed.

Lemma round_half_even_IZR (z : Z) : round_half_even (IZR z) = z.
Proof.
  unfold round_half_even. rewrite ZfloorZ.
  rewrite Rltb_true by lra. reflexivity.
Qed.

Lemma round_half_even_near (x : R) (z : Z) :
  Rabs (x - IZR z) < / 2 -> round_half_even x = z.
Proof.
  intros H. apply Rabs_def2 in H. destruct H as [H1 H2].
  unfold round_half_even.
  destruct (Rle_lt_dec (IZR z) x) as [Hle|Hlt].
  - assert (E : Zfloor x = z) by (apply Zfloor_eq; lra).
    rewrite E. now rewrite Rltb_true by lra.
  - assert (E : Zfloor x = (z - 1)%Z)
      by (apply Zfloor_eq; rewrite minus_IZR; lra).
    rewrite E, minus_IZR. rewrite Rltb_false by lra.
    rewrite Rltb_true by lra. lia.
Qed.

Lemma round_half_even_le (x y : R) :
  x <= y -> (round_half_even x <= round_half_even y)%Z.
Proof.
  intros Hxy. pose proof (Zfloor_le x y Hxy) as Hf.
  assert (Hx : (Zfloor x <= round_half_even x <= Zfloor x + 1)%Z).
  { unfold round_half_even.
    destruct (Rltb _ _); [lia|]. destruct (Rltb _ _); [lia|].
    destruct (Z.even _); lia. }
  assert (Hy : (Zfloor y <= round_half_even y <= Zfloor y + 1)%Z).
  { unfold round_half_even.
    destruct (Rltb _ _); [lia|]. destruct (Rltb _ _); [lia|].
    destruct (Z.even _); lia. }
  destruct (Z.eq_dec (Zfloor x) (Zfloor y)) as [E|NE]; [|lia].
  unfold round_half_even. rewrite <- E. set (f := Zfloor x) in *.
  unfold Rltb.
  destruct (Rlt_dec (x - IZR f) (/ 2)) as [H1|H1];
    destruct (Rlt_dec (y - IZR f) (/ 2)) as [H2|H2]; try lia; try lra.
  - destruct (Rlt_dec (/ 2) (y - IZR f)); [lia|]. destruct (Z.even f); lia.
  - destruct (Rlt_dec (/ 2) (x - IZR f)) as [H3|H3];
      destruct (Rlt_dec (/ 2) (y - IZR f)) as [H4|H4]; try lia; try lra.
    destruct (Z.even f); lia.
Qed.

Lemma round64_pos (x : R) :
  0 < x -> round64 x = IZR (round_half_even (x / bpow (expo x))) * bpow (expo x).
Proof.
  intros Hx. unfold round64. rewrite Reqb_false by lra.
  rewrite Rabs_pos_eq by lra. reflexivity.
Qed.

Lemma round64_0 : round64 0 = 0.
Proof. unfold round64. now rewrite Reqb_true. Qed.

Lemma scaled_lt (x : R) :
  0 < x -> x / bpow (expo x) < 9007199254740992.
Proof.
  intros Hx. destruct (ilog2_spec x Hx) as [_ Hhi].
  pose proof (bpow_pos (expo x)) as He.
  apply (Rmult_lt_reg_r (bpow (expo x))); [assumption|].
  unfold Rdiv. rewrite Rmult_assoc, Rinv_l, Rmult_1_r by lra.
  replace 9007199254740992 with (bpow 53) by (rewrite bpow_IZR by lia; reflexivity).
  rewrite <- bpow_add.
  apply Rlt_le_trans with (1 := Hhi). apply bpow_le. unfold expo. lia.
Qed.

Lemma scaled_ge (x : R) :
  0 < x -> (-1022 <= ilog2 x)%Z -> 4503599627370496 <= x / bpow (expo x).
Proof.
  intros Hx Hn. destruct (ilog2_spec x Hx) as [Hlo _].
  pose proof (bpow_pos (expo x)) as He.
  apply (Rmult_le_reg_r (bpow (expo x))); [assumption|].
  unfold Rdiv. rewrite Rmult_assoc, Rinv_l, Rmult_1_r by lra.
  replace 4503599627370496 with (bpow 52) by (rewrite bpow_IZR by lia; reflexivity).
  rewrite <- bpow_add.
  apply Rle_trans with (2 := Hlo). apply bpow_le. unfold expo. lia.
Qed.

Lemma round64_nonneg (x : R) : 0 <= x -> 0 <= round64 x.
Proof.
  intros [Hx|<-]; [|rewrite round64_0; lra].
  rewrite round64_pos by assumption.
  pose proof (bpow_pos (expo x)) as He.
  apply Rmult_le_pos; [|lra]. apply IZR_le.
  rewrite <- (round_half_even_IZR 0). apply round_half_even_le.
  apply Rmult_le_pos; [lra|]. left. now apply Rinv_0_lt_compat.
Qed.

(** The rounded number lies in the binade of the number, its upper end
    included. *)
Lemma round64_le_top (x : R) :
  0 < x -> round64 x <= bpow (Z.max (ilog2 x) (-1022) + 1).
Proof.
  intros Hx. rewrite round64_pos by assumption.
  pose proof (bpow_pos (expo x)) as He.
  replace (Z.max (ilog2 x) (-1022) + 1)%Z with (53 + expo x)%Z by (unfold expo; lia).
  rewrite bpow_add. apply Rmult_le_compat_r; [lra|].
  rewrite (bpow_IZR 53) by lia. apply IZR_le.
  rewrite <- (round_half_even_IZR (2 ^ 53)). apply round_half_even_le.
  left. now apply scaled_lt.
Qed.

Lemma round64_ge_bottom (x : R) :
  0 < x -> (-1022 <= ilog2 x)%Z -> bpow (ilog2 x) <= round64 x.
Proof.
  intros Hx Hn. rewrite round64_pos by assumption.
  pose proof (bpow_pos (expo x)) as He.
  replace (ilog2 x) with (52 + expo x)%Z at 1 by (unfold expo; lia).
  rewrite bpow_add. apply Rmult_le_compat_r; [lra|].
  rewrite (bpow_IZR 52) by lia. apply IZR_le.
  rewrite <- (round_half_even_IZR (2 ^ 52)). apply round_half_even_le.
  now apply scaled_ge.
Qed.

Lemma round64_monotone (x y : R) : 0 <= x <= y -> round64 x <= round64 y.
Proof.
  intros [[Hx|<-] Hxy].
  2:{ rewrite round64_0. now apply round64_nonneg. }
  assert (Hy : 0 < y) by lra.
  pose proof (ilog2_le x y (conj Hx Hxy)) as Hl.
  destruct (Z.eq_dec (expo x) (expo y)) as [E|NE].
  - rewrite !round64_pos by assumption. rewrite E.
    pose proof (bpow_pos (expo y)) as He.
    apply Rmult_le_compat_r; [lra|]. apply IZR_le, round_half_even_le.
    apply Rmult_le_compat_r; [|assumption]. left. now apply Rinv_0_lt_compat.
  - assert (Hlt : (Z.max (ilog2 x) (-1022) < ilog2 y)%Z /\ (-1022 <= ilog2 y)%Z)
      by (unfold expo in NE; lia).
    destruct Hlt as [Hlt Hn].
    apply Rle_trans with (bpow (Z.max (ilog2 x) (-1022) + 1));
      [now apply round64_le_top|].
    apply Rle_trans with (bpow (ilog2 y)); [apply bpow_le; lia|].
    now apply round64_ge_bottom.
Qed.

(** A number with an integer significand of at most 53 bits at the exponent
    of its binade is not changed. *)
Lemma round64_representable (m e : Z) :
  (0 < m <= 2 ^ 53)%Z -> (-1074 <= e)%Z ->
  (e = -1074 \/ 2 ^ 52 <= m)%Z ->
  round64 (IZR m * bpow e) = IZR m * bpow e.
Proof.
  intros [Hm0 Hm] He Hnorm.
  pose proof (bpow_pos e) as Hbe.
  assert (Hm0' : 1 <= IZR m) by (apply IZR_le; lia).
  assert (Hx : 0 < IZR m * bpow e) by nra.
  destruct (Z.eq_dec m (2 ^ 53)) as [->|Hne].
  - (* the power of two above *)
    assert (Ex : IZR (2 ^ 53) * bpow e = bpow (53 + e))
      by (rewrite bpow_add, (bpow_IZR 53) by lia; reflexivity).
    assert (El : ilog2 (IZR (2 ^ 53) * bpow e) = (53 + e)%Z).
    { apply ilog2_unique. rewrite Ex. split; [lra|]. apply bpow_lt. lia. }
    rewrite round64_pos by assumption. unfold expo. rewrite El.
    replace (Z.max (53 + e) (-1022) - 52)%Z with (1 + e)%Z by lia.
    replace (IZR (2 ^ 53) * bpow e / bpow (1 + e)) with (IZR (2 ^ 52)).
    + rewrite round_half_even_IZR, bpow_add.
      replace (bpow 1) with 2 by (unfold bpow; simpl; lra).
      change (2 ^ 53)%Z with (2 * 2 ^ 52)%Z. rewrite mult_IZR. ring.
    + rewrite bpow_add. replace (bpow 1) with 2 by (unfold bpow; simpl; lra).
      change (2 ^ 53)%Z with (2 * 2 ^ 52)%Z. rewrite mult_IZR. field. lra.
  - assert (Hm' : IZR m < IZR (2 ^ 53)) by (apply IZR_lt; lia).
    assert (Hup : IZR m * bpow e < bpow (53 + e)).
    { rewrite bpow_add, (bpow_IZR 53) by lia. nra. }
    assert (Eexp : expo (IZR m * bpow e) = e).
    { unfold expo. destruct Hnorm as [->|Hn].
      - assert (ilog2 (IZR m * bpow (-1074)) <= -1022)%Z; [|lia].
        destruct (ilog2_spec _ Hx) as [Slo _].
        destruct (Z_lt_le_dec (-1022) (ilog2 (IZR m * bpow (-1074)))) as [Hc|]; [|assumption].
        pose proof (bpow_le (53 + -1074) (ilog2 (IZR m * bpow (-1074))) ltac:(lia)).
        lra.
      - assert (El : ilog2 (IZR m * bpow e) = (52 + e)%Z).
        { apply ilog2_unique. split.
          - rewrite bpow_add, (bpow_IZR 52) by lia.
            apply Rmult_le_compat_r; [lra|]. now apply IZR_le.
          - now replace (52 + e + 1)%Z with (53 + e)%Z by lia. }
        rewrite El. lia. }
    rewrite round64_pos by assumption. rewrite Eexp.
    replace (IZR m * bpow e / bpow e) with (IZR m) by (field; lra).
    now rewrite round_half_even_IZR.
Qed.

Lemma round64_idempotent (x : R) : 0 <= x -> round64 (round64 x) = round64 x.
Proof.
  intros [Hx|<-]; [|now rewrite !round64_0].
  rewrite (round64_pos x Hx).
  set (m := round_half_even (x / bpow (expo x))).
  assert (Hm0 : (0 <= m)%Z).
  { unfold m. rewrite <- (round_half_even_IZR 0). apply round_half_even_le.
    pose proof (bpow_pos (expo x)).
    apply Rmult_le_pos; [lra|]. left. now apply Rinv_0_lt_compat. }
  assert (Hm1 : (m <= 2 ^ 53)%Z).
  { unfold m. rewrite <- (round_half_even_IZR (2 ^ 53)). apply round_half_even_le.
    left. now apply scaled_lt. }
  destruct (Z.eq_dec m 0) as [->|Hne].
  { rewrite Rmult_0_l. apply round64_0. }
  apply round64_representable; [lia|unfold expo; lia|].
  destruct (Z_lt_le_dec (ilog2 x) (-1022)) as [Hs|Hn].
  - left. unfold expo. lia.
  - right. unfold m. rewrite <- (round_half_even_IZR (2 ^ 52)).
    apply round_half_even_le. now apply scaled_ge.
Qed.

Lemma ilog2_IZR (z : Z) : (0 < z)%Z -> ilog2 (IZR z) = Z.log2 z.
Proof.
  intros Hz. apply ilog2_unique.
  pose proof (Z.log2_spec z Hz) as [Hlo Hhi].
  pose proof (Z.log2_nonneg z) as Hnn.
  rewrite !bpow_IZR by lia. split; [now apply IZR_le|].
  apply IZR_lt. now rewrite <- Z.add_1_r in Hhi.
Qed.

Lemma round64_integer (z : Z) :
  (0 <= z <= 9007199254740992)%Z -> round64 (IZR z) = IZR z.
Proof.
  intros [H0 H1]. destruct (Z.eq_dec z 0) as [->|Hne]; [apply round64_0|].
  assert (Hz : (0 < z)%Z) by lia.
  pose proof (Z.log2_spec z Hz) as [Hlo Hhi].
  pose proof (Z.log2_nonneg z) as Hnn.
  assert (Hl53 : (Z.log2 z <= 53)%Z).
  { destruct (Z_lt_le_dec 53 (Z.log2 z)) as [Hc|]; [|assumption].
    pose proof (Z.pow_le_mono_r 2 54 (Z.log2 z) ltac:(lia) ltac:(lia)).
    change (2 ^ 54)%Z with 18014398509481984%Z in *. lia. }
  rewrite round64_pos by (now apply IZR_lt).
  unfold expo. rewrite ilog2_IZR by assumption.
  replace (Z.max (Z.log2 z) (-1022)) with (Z.log2 z) by lia.
  set (e := (Z.log2 z - 52)%Z).
  pose proof (bpow_pos e) as He.
  destruct (Z_le_gt_dec e 0) as [Hle|Hgt].
  - replace (IZR z / bpow e) with (IZR (z * 2 ^ (- e))).
    + rewrite round_half_even_IZR, mult_IZR, <- bpow_IZR by lia.
      rewrite Rmult_assoc, <- bpow_add. replace (- e + e)%Z with 0%Z by lia.
      unfold bpow. simpl. ring.
    + rewrite mult_IZR, <- bpow_IZR by lia. rewrite bpow_opp. reflexivity.
  - assert (E53 : Z.log2 z = 53%Z) by (unfold e in *; lia).
    assert (Ez : z = 9007199254740992%Z).
    { rewrite E53 in Hlo. change (2 ^ 53)%Z with 9007199254740992%Z in Hlo. lia. }
    unfold e. rewrite E53, Ez. change (53 - 52)%Z with 1%Z.
    replace (bpow 1) with 2 by (unfold bpow; simpl; lra).
    replace (9007199254740992 / 2) with (IZR 4503599627370496) by lra.
    rewrite round_half_even_IZR. lra.
Qed.

Lemma round64_error (x : R) :
  / 1024 <= x <= 4611686018427387904 ->
  Rabs (round64 x - x) <= unit_roundoff * x.
Proof.
  intros [Hlo Hhi]. assert (Hx : 0 < x) by lra.
  assert (Hn : (-1022 <= ilog2 x)%Z).
  { destruct (Z_lt_le_dec (ilog2 x) (-10)) as [Hc|]; [|lia].
    destruct (ilog2_spec x Hx) as [_ Shi].
    pose proof (bpow_le (ilog2 x + 1) (-10) ltac:(lia)) as Hb.
    replace (bpow (-10)) with (/ 1024) in Hb; [lra|].
    rewrite bpow_neg. reflexivity. }
  rewrite round64_pos by assumption.
  destruct (ilog2_spec x Hx) as [Slo _].
  set (e := expo x). pose proof (bpow_pos e) as He.
  pose proof (round_half_even_error (x / bpow e)) as Herr.
  set (m := IZR (round_half_even (x / bpow e))) in *.
  assert (Eb : bpow (ilog2 x) = 4503599627370496 * bpow e).
  { replace (ilog2 x) with (52 + e)%Z by (unfold e, expo; lia).
    rewrite bpow_add, (bpow_IZR 52) by lia. reflexivity. }
  replace (m * bpow e - x) with ((m - x / bpow e) * bpow e) by (field; lra).
  rewrite Rabs_mult, (Rabs_pos_eq (bpow e)) by lra.
  unfold unit_roundoff.
  apply Rle_trans with (/ 2 * bpow e); [apply Rmult_le_compat_r; lra|].
  lra.
Qed.

(** The rounding of a normal number, from its binade and the nearest
    integer to its significand. *)
Lemma round64_value (x : R) (k m : Z) :
  (-1022 <= k)%Z ->
  bpow k <= x < bpow (k + 1) ->
  Rabs (x / bpow (k - 52) - IZR m) < / 2 ->
  round64 x = IZR m * bpow (k - 52).
Proof.
  intros Hk Hx Hm.
  assert (Hpos : 0 < x) by (pose proof (bpow_pos k); lra).
  rewrite round64_pos by assumption. unfold expo.
  rewrite (ilog2_unique x k Hx).
  replace (Z.max k (-1022)) with k by lia.
  now rewrite (round_half_even_near _ m Hm).
Qed.

(** The step of 100 samples over 27 days is below 27 / 99, and the sample
    55 below 15. *)
Lemma step_27 : round64 (27 / 99) = 4913017775313268 / 18014398509481984.
Proof.
  rewrite (round64_value (27 / 99) (-2) 4913017775313268); [| lia | |].
  - change (-2 - 52)%Z with (-54)%Z. rewrite bpow_neg.
    change (2 ^ 54)%Z with 18014398509481984%Z. reflexivity.
  - change (-2 + 1)%Z with (-1)%Z. rewrite !bpow_neg.
    change (2 ^ 2)%Z with 4%Z. change (2 ^ 1)%Z with 2%Z. lra.
  - change (-2 - 52)%Z with (-54)%Z. rewrite bpow_neg.
    change (2 ^ 54)%Z with 18014398509481984%Z.
    apply Rabs_def1; lra.
Qed.

Lemma sample_27_55 :
  round64 (55 * round64 (27 / 99)) = 8444249301319679 / 562949953421312.
Proof.
  rewrite step_27.
  rewrite (round64_value _ 3 8444249301319679); [| lia | |].
  - change (3 - 52)%Z with (-49)%Z. rewrite bpow_neg.
    change (2 ^ 49)%Z with 562949953421312%Z. reflexivity.
  - rewrite !bpow_IZR by lia.
    change (2 ^ 3)%Z with 8%Z. change (2 ^ (3 + 1))%Z with 16%Z. lra.
  - change (3 - 52)%Z with (-49)%Z. rewrite bpow_neg.
    change (2 ^ 49)%Z with 562949953421312%Z.
    apply Rabs_def1; lra.
Qed.

Lemma label_27_55 : Zfloor (round64 (55 * round64 (27 / 99))) = 14%Z.
Proof. rewrite sample_27_55. apply Zfloor_eq. simpl. lra. Qed.

End Binary64.

(** ** Trend line *)

Section TrendLine.

Import ChartDataProcessor.

Lemma set_last_last {A : Type} (l : list A) (d : A) :
  set_last l (last l d) = l.
Proof.
  destruct l as [|x l]; [reflexivity|]. unfold set_last.
  symmetry. apply app_removelast_last. discriminate.
Qed.

Lemma traverse_map_Some {A B C : Type} (f : B -> option C) (g : A -> B)
      (h : A -> C) (l : list A) :
  (forall x, In x l -> f (g x) = Some (h x)) ->
  traverse f (map g l) = Some (map h l).
Proof.
  induction l as [|x l IH]; intros H; [reflexivity|].
  cbn [map traverse]. rewrite (H x) by now left. cbn [bind].
  rewrite IH by (intros; apply H; now right). reflexivity.
Qed.

Lemma fold_Zmax_ge (l : list Z) (x : Z) : (x <= fold_left Z.max l x)%Z.
Proof.
  revert x. induction l as [|y l IH]; intros x; simpl; [lia|].
  specialize (IH (Z.max x y)). lia.
Qed.

Lemma INR_99 : INR 99 = 99%R.
Proof. rewrite INR_IZR_INZ. reflexivity. Qed.

(** A frame made by [prepare] starts at offset 0. *)
Lemma prepare_first (ts : list DataLoader.DailyTotal) (df : list chart_row) :
  prepare ts = Some df ->
  exists first rest, df = first :: rest /\ days_from_start first = 0%Z.
Proof.
  unfold prepare. destruct (sort_values DataLoader.date ts) as [|r l]; [discriminate|].
  cbn [hd_error bind map]. intros E. injection E as <-.
  eexists _, _. split; [reflexivity|]. simpl. lia.
Qed.

Lemma set_last_snoc {A : Type} (l : list A) (x v : A) :
  set_last (l ++ [x]) v = (l ++ [v])%list.
Proof.
  unfold set_last. destruct (l ++ [x])%list eqn:E.
  - now destruct l.
  - rewrite <- E. now rewrite removelast_last.
Qed.

Lemma linspace64_length (start stop : R) (num : nat) :
  length (linspace64 start stop num) = num.
Proof.
  unfold linspace64.
  destruct (1 <? num)%nat; [rewrite set_last_length|];
    destruct (0 <? num - 1)%nat;
    try destruct (Reqb _ _);
    now rewrite !length_map, length_seq.
Qed.

(** Whatever the offsets are, the trend line has its 100 points, each with
    the fitted value at its offset. *)
Lemma generate_trend_line_total (first : chart_row)
      (rest : list chart_row) (fit : fit_params) :
  exists pts,
    generate_trend_line (first :: rest) fit = Some pts
    /\ length pts = 100%nat
    /\ Forall (fun p => exists day, snd p = Finite (a fit * exp (b fit * day)))
              pts.
Proof.
  unfold generate_trend_line. cbn [hd_error bind].
  set (days := linspace64 0 _ 100).
  exists (map (fun r => ((date first
                          + (if Rltb r 0 then Zceil r else Zfloor r))%Z,
                         Finite (a fit * exp (b fit * r)))) days).
  split; [|split].
  - apply traverse_map_Some. intros r _. reflexivity.
  - unfold days. now rewrite length_map, linspace64_length.
  - apply Forall_map, Forall_forall. intros r _. now exists r.
Qed.

Lemma Rabs_le_inv (x a : R) : (Rabs x <= a)%R -> (- a <= x <= a)%R.
Proof. unfold Rabs. destruct (Rcase_abs x); lra. Qed.

Lemma step_bounds (D : Z) :
  (1 <= D <= 9007199254740992)%Z ->
  (IZR D / 99 * (1 - unit_roundoff) <= round64 (IZR D / 99)
   <= IZR D / 99 * (1 + unit_roundoff))%R.
Proof.
  intros [H1 H2]. apply IZR_le in H1, H2.
  assert (Hq : (/ 1024 <= IZR D / 99 <= 4611686018427387904)%R) by lra.
  pose proof (round64_error _ Hq) as He. apply Rabs_le_inv in He.
  unfold unit_roundoff in *. lra.
Qed.

Lemma linspace64_days (D : Z) :
  (0 <= D <= 9007199254740992)%Z ->
  linspace64 0 (IZR D) 100 = map (Ideal.trend_day D) (seq 0 100).
Proof.
  intros HD. assert (HD0 : (0 <= D)%Z) by lia. unfold linspace64.
  change (100 - 1)%nat with 99%nat. cbn [Nat.ltb Nat.leb]. rewrite INR_99.
  rewrite Rminus_0_r, round64_integer by lia.
  assert (Hbody : map (fun v => round64 (v + 0))
                      (if Reqb (round64 (IZR D / 99)) 0
                       then map (fun v => round64 (round64 (v / 99) * IZR D))
                                (map INR (seq 0 100))
                       else map (fun v => round64 (v * round64 (IZR D / 99)))
                                (map INR (seq 0 100)))
                  = map (fun i => round64 (INR i * round64 (IZR D / 99))) (seq 0 100)).
  { destruct (Reqb (round64 (IZR D / 99)) 0) eqn:E.
    - apply Reqb_iff in E.
      assert (D = 0%Z) as ->.
      { destruct (Z.eq_dec D 0) as [|Hne]; [assumption|].
        pose proof (step_bounds D ltac:(lia)) as [Hlo _].
        assert (1 <= IZR D)%R by (apply IZR_le; lia).
        unfold unit_roundoff in Hlo. lra. }
      rewrite !map_map. apply map_ext. intros i.
      rewrite E, !Rmult_0_r, Rplus_0_r, !round64_0. reflexivity.
    - rewrite !map_map. apply map_ext. intros i.
      rewrite Rplus_0_r, round64_idempotent; [reflexivity|].
      apply Rmult_le_pos; [apply pos_INR|].
      apply round64_nonneg. apply IZR_le in HD0. lra. }
  rewrite Hbody.
  change (seq 0 100) with (seq 0 99 ++ [99%nat])%list.
  rewrite !map_app. cbn [map]. rewrite set_last_snoc. reflexivity.
Qed.

Lemma day_nonneg (D : Z) (i : nat) : (0 <= D)%Z -> (0 <= Ideal.trend_day D i)%R.
Proof.
  intros HD. apply IZR_le in HD. unfold Ideal.trend_day.
  destruct (i =? 99)%nat; [assumption|].
  apply round64_nonneg. apply Rmult_le_pos; [apply pos_INR|].
  apply round64_nonneg. lra.
Qed.

(** The offsets are uniformly spaced within the tolerance of two
    roundings. *)
Lemma day_error (D : Z) (i : nat) :
  (0 <= D <= 9007199254740992)%Z -> (i < 100)%nat ->
  (Rabs (Ideal.trend_day D i - Spec.trend_offset D i)
   <= 3 * unit_roundoff * Spec.trend_offset D i)%R.
Proof.
  intros HD Hi. unfold Ideal.trend_day, Spec.trend_offset, unit_roundoff.
  assert (HD0 : (0 <= IZR D)%R) by (apply IZR_le; lia).
  destruct (Nat.eqb_spec i 99) as [->|Hne].
  - rewrite INR_99. replace (IZR D - 99 * IZR D / 99)%R with 0%R by field.
    rewrite Rabs_R0. lra.
  - destruct (Z.eq_dec D 0) as [->|HDne].
    { unfold Rdiv. rewrite !Rmult_0_r, !Rmult_0_l, round64_0, !Rmult_0_r, round64_0.
      rewrite Rminus_0_r, Rabs_R0. lra. }
    destruct i as [|i].
    { cbn [INR]. rewrite !Rmult_0_l, round64_0. unfold Rdiv.
      rewrite !Rmult_0_l, Rminus_0_r, Rabs_R0. lra. }
    pose proof (step_bounds D ltac:(lia)) as [Hlo Hhi].
    unfold unit_roundoff in Hlo, Hhi.
    assert (H1 : (1 <= IZR D)%R) by (apply IZR_le; lia).
    assert (H2 : (IZR D <= 9007199254740992)%R) by (apply IZR_le; lia).
    assert (Hi1 : (1 <= INR (S i))%R)
      by (change 1%R with (INR 1); apply le_INR; lia).
    assert (Hi2 : (INR (S i) <= 98)%R).
    { replace 98%R with (INR 98) by (rewrite INR_IZR_INZ; reflexivity).
      apply le_INR. lia. }
    set (q := (IZR D / 99)%R) in *. set (s := round64 q) in *.
    set (n := INR (S i)) in *.
    assert (Hq : (/ 99 <= q <= 9007199254740992 / 99)%R) by (unfold q; lra).
    assert (Hs_hi : (n * s <= n * q * (1 + / 9007199254740992))%R).
    { rewrite Rmult_assoc. apply Rmult_le_compat_l; lra. }
    assert (Hs_lo : (n * q * (1 - / 9007199254740992) <= n * s)%R).
    { rewrite Rmult_assoc. apply Rmult_le_compat_l; lra. }
    assert (Hnq : (/ 99 <= n * q <= 98 * (9007199254740992 / 99))%R).
    { split.
      - replace (/ 99)%R with (1 * / 99)%R by ring.
        apply Rmult_le_compat; lra.
      - apply Rmult_le_compat; lra. }
    replace (n * IZR D / 99)%R with (n * q)%R by (unfold q; field).
    set (P := (n * q)%R) in *. set (X := (n * s)%R) in *.
    assert (Hx : (/ 1024 <= X <= 4611686018427387904)%R) by lra.
    pose proof (round64_error _ Hx) as He. apply Rabs_le_inv in He.
    unfold unit_roundoff in He.
    apply Rabs_le. lra.
Qed.

Lemma floor_quotient (n : Z) :
  Zfloor (IZR n / 99) = (n / 99)%Z
  /\ (IZR n / 99 = IZR (n / 99) + IZR (n mod 99) / 99)%R.
Proof.
  assert (E : (IZR n / 99 = IZR (n / 99) + IZR (n mod 99) / 99)%R).
  { rewrite (Z.div_mod n 99) at 1 by lia. rewrite plus_IZR, mult_IZR. field. }
  split; [|exact E]. apply Zfloor_eq. rewrite E.
  pose proof (Z.mod_pos_bound n 99 ltac:(lia)) as [Hm1 Hm2].
  apply IZR_le in Hm1. apply IZR_lt in Hm2. lra.
Qed.

(** The whole days of an offset: those of the exact quotient, or one less
    where rounding has brought a whole quotient just below itself. *)
Lemma day_floor (D : Z) (i : nat) :
  (0 <= D <= 2147483648)%Z -> (i < 100)%nat ->
  (Zfloor (Spec.trend_offset D i) - 1 <= Zfloor (Ideal.trend_day D i)
   <= Zfloor (Spec.trend_offset D i))%Z
  /\ (((Z.of_nat i * D) mod 99 <> 0)%Z ->
      Zfloor (Ideal.trend_day D i) = Zfloor (Spec.trend_offset D i)).
Proof.
  intros HD Hi. pose proof (day_error D i ltac:(lia) Hi) as He.
  apply Rabs_le_inv in He.
  assert (Hoff : Spec.trend_offset D i = (IZR (Z.of_nat i * D) / 99)%R)
    by (unfold Spec.trend_offset; now rewrite mult_IZR, <- INR_IZR_INZ).
  destruct (floor_quotient (Z.of_nat i * D)) as [Hfl Hsplit].
  rewrite Hoff in *. rewrite Hfl. rewrite Hsplit in He.
  set (k := (Z.of_nat i * D / 99)%Z) in *.
  set (m := ((Z.of_nat i * D) mod 99)%Z) in *.
  pose proof (Z.mod_pos_bound (Z.of_nat i * D) 99 ltac:(lia)) as [Hm1 Hm2].
  fold m in Hm1, Hm2.
  assert (Hm1' : (0 <= IZR m)%R) by (now apply IZR_le).
  assert (Hm2' : (IZR m <= 98)%R) by (apply IZR_le; lia).
  assert (Hk : (IZR k + IZR m / 99 <= 2147483648)%R).
  { rewrite <- Hsplit, mult_IZR, <- INR_IZR_INZ.
    assert (INR i <= 99)%R.
    { replace 99%R with (INR 99) by apply INR_99. apply le_INR. lia. }
    assert (0 <= IZR D <= 2147483648)%R by (split; apply IZR_le; lia).
    pose proof (pos_INR i). nra. }
  assert (Hk0 : (0 <= IZR k + IZR m / 99)%R).
  { rewrite <- Hsplit, mult_IZR, <- INR_IZR_INZ.
    assert (0 <= IZR D)%R by (apply IZR_le; lia).
    pose proof (pos_INR i). unfold Rdiv. nra. }
  unfold unit_roundoff in He.
  pose proof (Zfloor_bound (Ideal.trend_day D i)) as [Hb1 Hb2].
  assert (Hup : (Zfloor (Ideal.trend_day D i) <= k)%Z).
  { apply Z.lt_succ_r, lt_IZR. rewrite succ_IZR. lra. }
  assert (Hlow : (k - 1 <= Zfloor (Ideal.trend_day D i))%Z).
  { apply Zfloor_lub. rewrite minus_IZR. lra. }
  split; [lia|]. intros Hm.
  assert (Hm3 : (1 <= IZR m)%R) by (apply IZR_le; lia).
  assert (k <= Zfloor (Ideal.trend_day D i))%Z by (apply Zfloor_lub; lra).
  lia.
Qed.

(** The offsets never go back. *)
Lemma day_monotone (D : Z) (i j : nat) :
  (0 <= D <= 9007199254740992)%Z -> (i <= j)%nat -> (j < 100)%nat ->
  (Ideal.trend_day D i <= Ideal.trend_day D j)%R.
Proof.
  intros HD Hij Hj. unfold Ideal.trend_day.
  assert (HD0 : (0 <= IZR D)%R) by (apply IZR_le; lia).
  assert (Hs : (0 <= round64 (IZR D / 99))%R) by (apply round64_nonneg; lra).
  destruct (Nat.eqb_spec j 99) as [->|Hj99].
  - destruct (Nat.eqb_spec i 99) as [|Hi99]; [lra|].
    apply Rle_trans with (round64 (IZR D));
      [apply round64_monotone; split;
       [apply Rmult_le_pos; [apply pos_INR|assumption]|]
      |rewrite round64_integer by lia; lra].
    assert (Hi : (INR i <= 98)%R).
    { replace 98%R with (INR 98) by (rewrite INR_IZR_INZ; reflexivity).
      apply le_INR. lia. }
    pose proof (pos_INR i) as Hi0.
    destruct (Z.eq_dec D 0) as [->|HDne].
    + unfold Rdiv. rewrite Rmult_0_l, round64_0. lra.
    + pose proof (step_bounds D ltac:(lia)) as [_ Hhi].
      unfold unit_roundoff in Hhi.
      assert (INR i * round64 (IZR D / 99) <= 98 * round64 (IZR D / 99))%R
        by (apply Rmult_le_compat_r; assumption).
      lra.
  - destruct (Nat.eqb_spec i 99) as [|Hi99]; [lia|].
    apply round64_monotone. split;
      [apply Rmult_le_pos; [apply pos_INR|assumption]|].
    apply Rmult_le_compat_r; [assumption|].
    now apply le_INR.
Qed.

(** The trend line of a frame that starts at the offset 0, by its offsets. *)
Lemma generate_trend_line_days (first : chart_row) (rest : list chart_row)
      (fit : fit_params) :
  days_from_start first = 0%Z ->
  (Zmax_list (map days_from_start (first :: rest)) <= 9007199254740992)%Z ->
  generate_trend_line (first :: rest) fit
  = Some (Spec.trend_line
            (date first)
            (Ideal.trend_day (Zmax_list (map days_from_start (first :: rest))))
            (a fit) (b fit)).
Proof.
  intros H0 Hmax. set (D := Zmax_list (map days_from_start (first :: rest))) in *.
  assert (HD : (0 <= D)%Z).
  { unfold D. cbn [map Zmax_list]. rewrite H0. apply fold_Zmax_ge. }
  unfold generate_trend_line. fold D.
  rewrite round64_integer, linspace64_days by lia.
  cbn [hd_error bind]. rewrite map_map.
  unfold Spec.trend_line. apply traverse_map_Some. intros i Hi.
  unfold trend_point. cbn [py_int].
  rewrite Rltb_false by (now apply day_nonneg). reflexivity.
Qed.

(** C8. On a prepared frame whose offsets span at most [2 ^ 31] days the
    trend line has 100 points.  Point [i] is at a day offset [day i]: the
    first is 0, the last the largest offset, and the others are the rounded
    product of [i] and the rounded step [max / 99], which is [i * max / 99]
    to within the rounding of two operations, so the offsets are uniformly
    spaced between 0 and the largest offset.  The value of a point is
    [a * exp (b * day)] and its label the start date plus the whole days of
    its offset: those of [i * max / 99], or one day less where that is a
    whole number.  The value of the first point is [a]. *)
Theorem trend_line_points (ts : list DataLoader.DailyTotal)
        (df : list chart_row) (fit : fit_params) :
  prepare ts = Some df ->
  (Zmax_list (map days_from_start df) <= 2147483648)%Z ->
  let D := Zmax_list (map days_from_start df) in
  exists first pts (day : nat -> R),
    hd_error df = Some first
    /\ generate_trend_line df fit = Some pts
    /\ pts = Spec.trend_line (date first) day (a fit) (b fit)
    /\ length pts = 100%nat
    /\ day 0%nat = 0%R
    /\ day 99%nat = IZR D
    /\ (forall i, (i < 99)%nat ->
          day i = round64 (INR i * round64 (IZR D / 99))%R)
    /\ (forall i, (i < 100)%nat ->
          (Rabs (day i - Spec.trend_offset D i)
           <= 3 * unit_roundoff * Spec.trend_offset D i)%R)
    /\ (forall i, (i < 100)%nat ->
          (Zfloor (Spec.trend_offset D i) - 1 <= Zfloor (day i)
           <= Zfloor (Spec.trend_offset D i))%Z
          /\ (((Z.of_nat i * D) mod 99 <> 0)%Z ->
              Zfloor (day i) = Zfloor (Spec.trend_offset D i)))
    /\ option_map snd (hd_error pts) = Some (Finite (a fit)).
Proof.
  intros Hp Hmax D. destruct (prepare_first ts df Hp) as [first [rest [-> H0]]].
  assert (HD : (0 <= D)%Z).
  { unfold D. cbn [map Zmax_list]. rewrite H0. apply fold_Zmax_ge. }
  fold D in Hmax.
  assert (Hgen : generate_trend_line (first :: rest) fit
                 = Some (Spec.trend_line (date first) (Ideal.trend_day D)
                                         (a fit) (b fit))).
  { apply generate_trend_line_days; [assumption|fold D; lia]. }
  assert (Hday0 : Ideal.trend_day D 0 = 0%R).
  { unfold Ideal.trend_day. cbn [Nat.eqb INR]. now rewrite Rmult_0_l, round64_0. }
  exists first,
    (Spec.trend_line (date first) (Ideal.trend_day D) (a fit) (b fit)),
    (Ideal.trend_day D).
  split; [reflexivity|]. split; [exact Hgen|]. split; [reflexivity|].
  split; [unfold Spec.trend_line; now rewrite length_map, length_seq|].
  split; [exact Hday0|]. split; [reflexivity|].
  split.
  { intros i Hi. unfold Ideal.trend_day.
    destruct (Nat.eqb_spec i 99); [lia|reflexivity]. }
  split; [intros i Hi; apply day_error; [lia|assumption]|].
  split; [intros i Hi; apply day_floor; [lia|assumption]|].
  unfold Spec.trend_line. cbn [seq map hd_error option_map snd].
  now rewrite Hday0, Rmult_0_r, exp_0, Rmult_1_r.
Qed.

End TrendLine.

(** ** Least squares *)

Section LeastSquares.

Import ChartDataProcessor.

Local Notation "'Sn' l" := (INR (length l)) (at level 10, l at level 9).
Local Notation "'Sx' l" := (Rsum (map fst l)) (at level 10, l at level 9).
Local Notation "'Sy' l" := (Rsum (map snd l)) (at level 10, l at level 9).
Local Notation "'Sxx' l" :=
  (Rsum (map (fun p : R * R => fst p * fst p)%R l)) (at level 10, l at level 9).
Local Notation "'Sxy' l" :=
  (Rsum (map (fun p : R * R => fst p * snd p)%R l)) (at level 10, l at level 9).
Local Notation "'Syy' l" :=
  (Rsum (map (fun p : R * R => snd p * snd p)%R l)) (at level 10, l at level 9).

Lemma Rsum_cons (a : R) (l : list R) : Rsum (a :: l) = (a + Rsum l)%R.
Proof. reflexivity. Qed.

Ltac moments l :=
  induction l as [|[? ?] l IH];
  [ simpl; unfold sq; ring
  | cbn [map length fst snd]; rewrite ?Rsum_cons, ?S_INR, IH;
    cbn [fst snd]; unfold sq; ring ].

Lemma combine_fst_snd {A B : Type} (l : list (A * B)) :
  combine (map fst l) (map snd l) = l.
Proof. induction l as [|[a b] l IH]; simpl; [reflexivity|now rewrite IH]. Qed.


Lemma centred_squares_y (k : R) (l : list (R * R)) :
  Rsum (map (fun yi => sq (yi - k)) (map snd l))
  = (Syy l - 2 * k * Sy l + Sn l * k * k)%R.
Proof. rewrite map_map. moments l. Qed.




Lemma Rsum_squares_nonneg {A : Type} (f : A -> R) (l : list A) :
  (0 <= Rsum (map (fun p => sq (f p)) l))%R.
Proof.
  induction l as [|p l IH]; simpl; [lra|].
  unfold sq at 1. pose proof (Rle_0_sqr (f p)) as H. unfold Rsqr in H. lra.
Qed.

Lemma Rsum_squares_zero {A : Type} (f : A -> R) (l : list A) :
  Rsum (map (fun p => sq (f p)) l) = 0%R -> Forall (fun p => f p = 0%R) l.
Proof.
  induction l as [|p l IH]; simpl; intros H; [constructor|].
  pose proof (Rsum_squares_nonneg f l) as Hl.
  pose proof (Rle_0_sqr (f p)) as Hp. unfold Rsqr in Hp. unfold sq at 1 in H.
  constructor; [|apply IH; lra].
  assert (E : (f p * f p = 0)%R) by lra.
  apply Rmult_integral in E. tauto.
Qed.


Variable l : list (R * R).
Hypothesis nonempty : l <> [].

Let x := map fst l.
Let y := map snd l.
Let slope := fst (Ideal.least_squares_line x y).
Let intercept := snd (Ideal.least_squares_line x y).




Lemma least_squares_pairs :
  Ideal.least_squares_line x y
  = (let sxx := Rsum (map (fun p => sq (fst p - mean x)) l) in
     let sxy :=
       Rsum (map (fun p => ((fst p - mean x) * (snd p - mean y))%R) l) in
     let s := if Reqb sxx 0 then 0%R else (sxy / sxx)%R in
     (s, (mean y - s * mean x)%R)).
Proof.
  unfold Ideal.least_squares_line, x, y. rewrite combine_fst_snd, map_map. reflexivity.
Qed.




Lemma ss_res_nonneg : (0 <= ss_res_of x y slope intercept)%R.
Proof.
  unfold ss_res_of.
  apply (Rsum_squares_nonneg
           (fun p : R * R => (snd p - (slope * fst p + intercept))%R)).
Qed.



(** What [np.polyfit] returns, by the abscissas. *)
Lemma polyfit1_regular :
  Rsum (map (fun p => sq (fst p - mean x)) l) <> 0%R ->
  polyfit1 x y = Some (slope, intercept).
Proof.
  intros Hxx. unfold slope, intercept. rewrite least_squares_pairs. cbv zeta.
  unfold polyfit1, x, y. rewrite combine_fst_snd, map_map. cbn [fst snd].
  fold x y. now rewrite Reqb_false by assumption.
Qed.

Lemma polyfit1_rank_one :
  Rsum (map (fun p => sq (fst p - mean x)) l) = 0%R ->
  polyfit1 x y
  = if Reqb (mean x) 0 then None
    else Some ((mean y / (2 * mean x))%R, (mean y / 2)%R).
Proof.
  intros Hxx. unfold polyfit1, x, y. rewrite map_map. cbn [fst].
  fold x y. now rewrite (Reqb_true _ _ Hxx).
Qed.


Lemma all_zero_rank_one :
  Forall (fun v => v = 0%R) x
  <-> Rsum (map (fun p => sq (fst p - mean x)) l) = 0%R /\ mean x = 0%R.
Proof.
  split.
  - intros H.
    assert (Hm : mean x = 0%R).
    { unfold mean. replace (Rsum x) with 0%R; [unfold Rdiv; ring|].
      clear -H. induction H as [|v t Hv _ IH]; [reflexivity|].
      rewrite Rsum_cons, <- IH, Hv. ring. }
    split; [|assumption]. rewrite Hm.
    unfold x in H. rewrite Forall_map in H.
    clear -H. induction H as [|p t Hp _ IH]; [reflexivity|].
    cbn [map]. rewrite Rsum_cons, IH, Hp. unfold sq. ring.
  - intros [Hxx Hm]. apply Rsum_squares_zero in Hxx. unfold x.
    apply Forall_map. eapply Forall_impl; [|exact Hxx].
    intros p Hp. cbv beta in Hp. fold x in Hp. lra.
Qed.

End LeastSquares.

(** ** Exponential fit *)

Section ExponentialFit.

Import ChartDataProcessor.


(** The sum of squares about any number is at least the one about the
    exact mean. *)
Lemma ss_tot_about_ge (m : R) (y : list R) :
  y <> [] -> (ss_tot_of y <= ss_tot_about m y)%R.
Proof.
  intros Hne. unfold ss_tot_of, ss_tot_about.
  set (l' := map (fun v => (0%R, v)) y).
  assert (Hy : map snd l' = y) by (unfold l'; rewrite map_map; apply map_id).
  assert (Hn : (0 < INR (length l'))%R).
  { unfold l'. rewrite length_map.
    destruct y; [easy|apply lt_0_INR; simpl; lia]. }
  clearbody l'. subst y. rewrite !centred_squares_y.
  assert (Hm : (INR (length l') * mean (map snd l') = Rsum (map snd l'))%R)
    by (unfold mean; rewrite length_map; field; lra).
  pose proof (Rle_0_sqr (m - mean (map snd l'))) as Hsq. unfold Rsqr in Hsq.
  assert (Hprod : (0 <= INR (length l')
                        * ((m - mean (map snd l')) * (m - mean (map snd l'))))%R)
    by (apply Rmult_le_pos; [lra|exact Hsq]).
  rewrite <- Hm. nra.
Qed.




End ExponentialFit.

(** ** The smoothed samples, sample by sample *)

Section Resample.

Import BackgroundSparklineGenerator.

Variables (w h : Z).
Let g := init w h.

Lemma nth_map_seq {A : Type} (f : nat -> A) (n i : nat) (d : A) :
  (i < n)%nat -> nth i (map f (seq 0 n)) d = f i.
Proof.
  intros Hi. rewrite (nth_indep _ d (f O)) by (now rewrite length_map, length_seq).
  rewrite (map_nth f (seq 0 n) O i), seq_nth by assumption. reflexivity.
Qed.

(** The 70 samples are the convolution at the indices 40, 50, ..., 730. *)
Lemma resample_samples (days_norm values : list float64) :
  days_norm <> [] -> length days_norm = length values ->
  resample g days_norm values
  = Some (map (fun i =>
                 conv_at (window g)
                         (map (interp_point days_norm values) (grid g))
                         (40 + i * 10))
              (seq 0 70)).
Proof.
  intros Hne Hlen. unfold resample.
  rewrite (interp_Some _ _ _ Hne Hlen). cbn [bind].
  set (iv := map (interp_point days_norm values) (grid g)).
  assert (Hiv : length iv = 741%nat)
    by (unfold iv, g; now rewrite length_map, grid_length).
  pose proof (window_length w h) as Hw. fold g in Hw.
  rewrite convolve_Some.
  - cbn [bind]. f_equal. unfold py_slice.
    rewrite length_map, length_seq, Hw, Hiv.
    change (wind_len g) with 40%nat.
    change (Z.to_nat ((_ - _ + 10 - 1) / 10)) with 70%nat.
    change (Z.to_nat (slice_bound _ _)) with 40%nat.
    change (Z.to_nat 10) with 10%nat.
    apply map_ext_in. intros i Hi. apply in_seq in Hi.
    apply nth_map_seq. lia.
  - intros E. rewrite E in Hw. discriminate.
  - intros E. rewrite E in Hiv. discriminate.
Qed.

End Resample.

(** ** Convolution and interpolation of finite samples *)

Section FiniteSamples.

Import BackgroundSparklineGenerator.

Lemma nth_map_Finite (l : list R) (i : nat) :
  (i < length l)%nat -> nth i (map Finite l) NaN = Finite (nth i l 0%R).
Proof.
  intros Hi. rewrite (nth_indep _ NaN (Finite 0)) by (now rewrite length_map).
  apply (map_nth Finite).
Qed.

Lemma fsum_finite (l : list R) : fsum (map Finite l) = Finite (Rsum l).
Proof.
  induction l as [|a l IH]; [reflexivity|].
  cbn [map fsum fold_right]. fold (fsum (map Finite l)). now rewrite IH.
Qed.

Lemma filter_all {A : Type} (f : A -> bool) (l : list A) :
  (forall x, In x l -> f x = true) -> filter f l = l.
Proof.
  induction l as [|a l IH]; intros H; [reflexivity|].
  simpl. rewrite (H a) by now left. f_equal. apply IH. intros; apply H; now right.
Qed.

Lemma conv_at_finite (a v : list R) (n : nat) :
  (length a - 1 <= n)%nat -> (n < length v)%nat ->
  conv_at (map Finite a) (map Finite v) n = Finite (Ideal.conv_at a v n).
Proof.
  intros Ha Hv. unfold conv_at, Ideal.conv_at. rewrite !length_map.
  rewrite filter_all.
  - rewrite <- fsum_finite, map_map. f_equal. apply map_ext_in.
    intros m Hm. apply in_seq in Hm.
    rewrite !nth_map_Finite by lia. reflexivity.
  - intros m Hm. apply in_seq in Hm. unfold overlaps.
    apply andb_true_intro. split; [apply Nat.leb_le|apply Nat.ltb_lt]; lia.
Qed.

Lemma Rsum_nth (l : list R) :
  Rsum (map (fun m => nth m l 0%R) (seq 0 (length l))) = Rsum l.
Proof.
  induction l as [|a l IH]; [reflexivity|].
  cbn [length seq map]. rewrite <- seq_shift, map_map. cbn [nth].
  rewrite !Rsum_cons. now rewrite IH.
Qed.

(** Convolution is affine in the signal, with the sum of the window as the
    weight of the offset. *)
Lemma conv_at_affine (s o : R) (a v : list R) (n : nat) :
  (length a - 1 <= n)%nat -> (n < length v)%nat ->
  Ideal.conv_at a (map (fun t => s * t + o)%R v) n
  = (s * Ideal.conv_at a v n + o * Rsum a)%R.
Proof.
  intros Ha Hv. unfold Ideal.conv_at. rewrite <- (Rsum_nth a).
  assert (E : forall k,
    Rsum (map (fun m => nth m a 0 * nth (n - m) (map (fun t => s * t + o) v) 0)%R
              (seq 0 k))
    = (s * Rsum (map (fun m => nth m a 0 * nth (n - m) v 0)%R (seq 0 k))
       + o * Rsum (map (fun m => nth m a 0%R) (seq 0 k)))%R).
  { induction k as [|k IH]; [simpl; ring|].
    rewrite seq_S, !map_app, !Rsum_app. cbn [map Nat.add]. rewrite !Rsum_cons.
    rewrite IH. cbn [Rsum fold_right].
    rewrite (nth_indep (map _ v) 0%R (s * 0 + o)%R) by (rewrite length_map; lia).
    rewrite (map_nth (fun t => s * t + o)%R). ring. }
  apply E.
Qed.

Lemma window_finite (w h : Z) : window (init w h) = map Finite Ideal.window.
Proof.
  unfold init, Ideal.window; cbn [window].
  change (of_Z (-2)) with (Finite (-2)). change (of_Z 2) with (Finite 2).
  rewrite linspace_finite by lia. rewrite !map_map. reflexivity.
Qed.

Lemma ideal_window_length : length Ideal.window = 40%nat.
Proof.
  unfold Ideal.window, linspace_samples.
  now rewrite length_map, set_last_length, length_map, length_seq.
Qed.

Lemma grid_finite (w h : Z) :
  Forall (fun x => exists r, x = Finite r) (grid (init w h)).
Proof.
  unfold grid. apply Forall_map, Forall_forall. intros k _.
  exists (IZR k / IZR (interp_length (init w h)))%R.
  unfold of_Z. apply div_finite. apply not_0_IZR. discriminate.
Qed.

End FiniteSamples.

(** ** Interpolation of an affine image *)

Section InterpAffine.

Lemma scan_le (x : float64) (l : list float64) : (scan x l <= length l)%nat.
Proof.
  induction l as [|e l IH]; simpl; [lia|]. destruct (geb x e); simpl; lia.
Qed.

Lemma scan_stop (x : float64) (l : list float64) :
  (scan x l < length l)%nat -> geb x (nth (scan x l) l NaN) = false.
Proof.
  induction l as [|e l IH]; simpl; [lia|].
  destruct (geb x e) eqn:E; simpl; [|intros _; exact E].
  intros H. apply IH. lia.
Qed.

Lemma scan_before (x : float64) (l : list float64) (i : nat) :
  (i < scan x l)%nat -> geb x (nth i l NaN) = true.
Proof.
  revert i. induction l as [|e l IH]; simpl; intros i Hi; [lia|].
  destruct (geb x e) eqn:E; [|lia].
  destruct i as [|i]; [exact E|]. apply IH. lia.
Qed.

Lemma geb_finite_true (a b : R) : geb (Finite a) (Finite b) = true -> (b <= a)%R.
Proof.
  unfold geb, leb. cbn [ltb eqb]. intros H. apply orb_true_iff in H as [H|H].
  - apply Rltb_iff in H. lra.
  - apply Reqb_iff in H. lra.
Qed.

Lemma geb_finite_false (a b : R) : geb (Finite a) (Finite b) = false -> (a < b)%R.
Proof.
  unfold geb, leb. cbn [ltb eqb]. intros H. apply orb_false_iff in H as [H1 H2].
  destruct (Rlt_dec b a) as [Hlt|Hge].
  - rewrite (Rltb_true _ _ Hlt) in H1. discriminate.
  - destruct (Req_dec_T b a) as [He|Hne].
    + rewrite (Reqb_true _ _ He) in H2. discriminate.
    + lra.
Qed.

Lemma nth_finite (l : list float64) (i : nat) :
  Forall (fun u => exists r, u = Finite r) l -> (i < length l)%nat ->
  exists r, nth i l NaN = Finite r.
Proof.
  intros H Hi. rewrite Forall_forall in H. apply H. now apply nth_In.
Qed.

Lemma hd_map_Finite (l : list R) :
  l <> [] -> hd NaN (map Finite l) = Finite (hd 0%R l).
Proof. destruct l; easy. Qed.

Lemma last_map_Finite (l : list R) :
  l <> [] -> last (map Finite l) NaN = Finite (last l 0%R).
Proof.
  induction l as [|a [|b l] IH]; try easy. intros _.
  change (last (map Finite (a :: b :: l)) NaN) with (last (map Finite (b :: l)) NaN).
  rewrite IH by discriminate. reflexivity.
Qed.

Lemma hd_map_nonempty {A B : Type} (f : A -> B) (l : list A) (d : A) (d' : B) :
  l <> [] -> hd d' (map f l) = f (hd d l).
Proof. destruct l; easy. Qed.

Lemma last_map_nonempty {A B : Type} (f : A -> B) (l : list A) (d : A) (d' : B) :
  l <> [] -> last (map f l) d' = f (last l d).
Proof.
  induction l as [|a [|b l] IH]; try easy. intros _.
  change (last (map f (a :: b :: l)) d') with (last (map f (b :: l)) d').
  rewrite IH by discriminate. reflexivity.
Qed.

Lemma nth_map_inrange {A B : Type} (f : A -> B) (l : list A) (d : A) (d' : B)
      (i : nat) :
  (i < length l)%nat -> nth i (map f l) d' = f (nth i l d).
Proof.
  intros Hi. rewrite (nth_indep _ d' (f d)) by (now rewrite length_map).
  apply map_nth.
Qed.

Variables (s o : R).
Let A (t : R) : R := (s * t + o)%R.

(** At a finite abscissa, over finite sample abscissas (or a single one,
    whatever it is), the interpolant of the finite ordinates is finite and
    the interpolant of their affine image is its affine image. *)
Lemma interp_point_affine (xp : list float64) (vals : list R) (xr : R) :
  xp <> [] -> length xp = length vals ->
  (length xp = 1%nat \/ Forall (fun u => exists r, u = Finite r) xp) ->
  exists r,
    interp_point xp (map Finite vals) (Finite xr) = Finite r
    /\ interp_point xp (map Finite (map A vals)) (Finite xr) = Finite (A r).
Proof.
  intros Hne Hlen Hok.
  assert (Hv : vals <> []) by (intros ->; destruct xp; easy).
  assert (Hv' : map A vals <> []) by (destruct vals; easy).
  unfold interp_point.
  rewrite !hd_map_Finite, !last_map_Finite by assumption.
  rewrite (hd_map_nonempty A vals 0%R 0%R Hv).
  rewrite (last_map_nonempty A vals 0%R 0%R Hv).
  destruct (Nat.eqb_spec (length xp) 1) as [H1|H1].
  { destruct (ltb _ _); [eauto|]. destruct (gtb _ _); eauto. }
  destruct Hok as [Hok|Hfin]; [contradiction|].
  cbn [is_nan]. unfold search.
  destruct (gtb _ _) eqn:Habove; [eauto|].
  destruct (ltb _ _) eqn:Hbelow; [eauto|].
  set (j := scan (Finite xr) (tl xp)).
  assert (Hj : (j <= length xp - 1)%nat).
  { unfold j. pose proof (scan_le (Finite xr) (tl xp)) as H.
    destruct xp; simpl in *; lia. }
  assert (Hnth : forall i, (i < length vals)%nat ->
            nth i (map Finite vals) NaN = Finite (nth i vals 0%R)
            /\ nth i (map Finite (map A vals)) NaN = Finite (A (nth i vals 0%R))).
  { intros i Hi. split.
    - now apply nth_map_Finite.
    - rewrite nth_map_Finite by (now rewrite length_map). f_equal.
      now apply nth_map_inrange. }
  destruct (Nat.eqb_spec j (length xp - 1)) as [Hlast|Hnot].
  { destruct (Hnth j) as [E1 E2]; [destruct xp; simpl in *; [easy|lia]|].
    rewrite E1, E2. eauto. }
  assert (Hj1 : (S j < length xp)%nat) by lia.
  destruct (Hnth j) as [E0 E0']; [lia|].
  destruct (Hnth (S j)) as [E1 E1']; [lia|].
  rewrite E0, E0', E1, E1'.
  destruct (eqb _ _) eqn:Heq; [eauto|].
  destruct (nth_finite xp j Hfin) as [a0 Ha0]; [lia|].
  destruct (nth_finite xp (S j) Hfin) as [a1 Ha1]; [lia|].
  rewrite Ha0, Ha1 in *.
  assert (Hlt1 : (xr < a1)%R).
  { apply geb_finite_false. rewrite <- Ha1.
    replace (nth (S j) xp NaN) with (nth j (tl xp) NaN) by (destruct xp; easy).
    apply scan_stop. fold j. destruct xp; simpl in *; [easy|lia]. }
  assert (Hle0 : (a0 <= xr)%R).
  { destruct j as [|j'] eqn:Ej.
    - assert (Hhd : hd NaN xp = Finite a0) by (destruct xp; [easy|exact Ha0]).
      rewrite Hhd in Hbelow. cbn [ltb] in Hbelow.
      destruct (Rlt_dec xr a0) as [Hlt|]; [|lra].
      rewrite (Rltb_true _ _ Hlt) in Hbelow. discriminate.
    - apply geb_finite_true. rewrite <- Ha0.
      replace (nth (S j') xp NaN) with (nth j' (tl xp) NaN) by (destruct xp; easy).
      apply scan_before. fold j. lia. }
  assert (Hne0 : a0 <> xr).
  { intros E. cbn [eqb] in Heq. rewrite (Reqb_true _ _ E) in Heq. discriminate. }
  rewrite !sub_finite. rewrite !div_finite by lra.
  cbn [mul add is_nan].
  eexists; split; [reflexivity|]. f_equal. unfold A. field. lra.
Qed.

End InterpAffine.

(** ** The resampler on an affine image of the metric *)

Section ResampleAffine.

Import BackgroundSparklineGenerator.

Variables (w h : Z).
Let g := init w h.

Lemma map_pointwise {X : Type} (f f' : X -> float64) (A : R -> R) (l : list X) :
  (forall x, In x l -> exists r, f x = Finite r /\ f' x = Finite (A r)) ->
  exists rs, map f l = map Finite rs /\ map f' l = map Finite (map A rs).
Proof.
  induction l as [|x l IH]; intros H.
  - exists []. now split.
  - destruct (H x (or_introl eq_refl)) as [r [E E']].
    destruct IH as [rs [Hrs Hrs']]; [intros; apply H; now right|].
    exists (r :: rs). cbn [map]. now rewrite E, E', Hrs, Hrs'.
Qed.

Lemma map_Finite_ext {X : Type} (f : X -> float64) (k : R -> R) (h0 : X -> R)
      (l : list X) :
  (forall i, In i l -> f i = Finite (k (h0 i))) ->
  map f l = map Finite (map k (map h0 l)).
Proof. intros H. rewrite !map_map. now apply map_ext_in. Qed.

(** The constant of the offset after smoothing: the sum of the window. *)
Lemma resample_affine (s o : R) (xp : list float64) (vals : list R) :
  xp <> [] -> length xp = length vals ->
  (length xp = 1%nat \/ Forall (fun u => exists r, u = Finite r) xp) ->
  exists outR,
    length outR = 70%nat
    /\ resample g xp (map Finite vals) = Some (map Finite outR)
    /\ resample g xp (map Finite (map (fun t => s * t + o)%R vals))
       = Some (map Finite
                   (map (fun t => s * t + o * Rsum Ideal.window)%R outR)).
Proof.
  intros Hne Hlen Hok.
  destruct (map_pointwise
              (interp_point xp (map Finite vals))
              (interp_point xp (map Finite (map (fun t => s * t + o)%R vals)))
              (fun t => s * t + o)%R (grid g)) as [ivR [Hiv Hiv']].
  { intros x Hx. pose proof (grid_finite w h) as Hg. rewrite Forall_forall in Hg.
    destruct (Hg x Hx) as [xr ->]. now apply interp_point_affine. }
  assert (Hlen_iv : length ivR = 741%nat).
  { apply (f_equal (@length _)) in Hiv. rewrite !length_map in Hiv.
    unfold g in Hiv. now rewrite grid_length in Hiv. }
  exists (map (fun i => Ideal.conv_at Ideal.window ivR (40 + i * 10)) (seq 0 70)).
  split; [now rewrite length_map, length_seq|].
  pose proof ideal_window_length as Hw.
  unfold g in *. split.
  - rewrite resample_samples by (rewrite ?length_map; assumption).
    f_equal. rewrite Hiv. rewrite window_finite, map_map.
    apply map_ext_in. intros i Hi. apply in_seq in Hi.
    apply conv_at_finite; lia.
  - rewrite resample_samples by (rewrite ?length_map; assumption).
    f_equal. apply map_Finite_ext. intros i Hi. apply in_seq in Hi.
    rewrite Hiv', window_finite.
    rewrite conv_at_finite by (rewrite ?length_map; lia).
    f_equal. apply conv_at_affine; lia.
Qed.

End ResampleAffine.

(** ** Min-max normalisation and affine maps *)

Section NormalizeAffine.

Lemma Rmin_affine (s o a b : R) :
  (0 < s)%R -> Rmin (s * a + o) (s * b + o) = (s * Rmin a b + o)%R.
Proof. intros Hs. unfold Rmin. destruct (Rle_dec a b), (Rle_dec _ _); nra. Qed.

Lemma Rmax_affine (s o a b : R) :
  (0 < s)%R -> Rmax (s * a + o) (s * b + o) = (s * Rmax a b + o)%R.
Proof. intros Hs. unfold Rmax. destruct (Rle_dec a b), (Rle_dec _ _); nra. Qed.

Lemma Rmin_list_affine (s o : R) (l : list R) (x : R) :
  (0 < s)%R ->
  Ideal.Rmin_list (s * x + o) (map (fun t => s * t + o)%R l)
  = (s * Ideal.Rmin_list x l + o)%R.
Proof.
  intros Hs. unfold Ideal.Rmin_list. revert x.
  induction l as [|a l IH]; intros x; [reflexivity|].
  cbn [map fold_left]. now rewrite Rmin_affine, IH.
Qed.

Lemma Rmax_list_affine (s o : R) (l : list R) (x : R) :
  (0 < s)%R ->
  Ideal.Rmax_list (s * x + o) (map (fun t => s * t + o)%R l)
  = (s * Ideal.Rmax_list x l + o)%R.
Proof.
  intros Hs. unfold Ideal.Rmax_list. revert x.
  induction l as [|a l IH]; intros x; [reflexivity|].
  cbn [map fold_left]. now rewrite Rmax_affine, IH.
Qed.

(** Min-max normalisation does not see an increasing affine map. *)
Lemma ideal_normalize_affine (s o : R) (l : list R) :
  (0 < s)%R ->
  Ideal.normalize (map (fun t => s * t + o)%R l) = Ideal.normalize l.
Proof.
  intros Hs. destruct l as [|x l]; [reflexivity|].
  unfold Ideal.normalize. cbn [map].
  rewrite Rmin_list_affine, Rmax_list_affine by assumption.
  set (m := Ideal.Rmin_list x l). set (M := Ideal.Rmax_list x l).
  destruct (Rltb m M) eqn:E.
  - apply Rltb_iff in E. rewrite Rltb_true by nra.
    assert (Hden : forall d,
      ((s * d + o - (s * m + o)) / (s * M + o - (s * m + o))
       = (d - m) / (M - m))%R).
    { intros d. replace (s * d + o - (s * m + o))%R with (s * (d - m))%R by ring.
      replace (s * M + o - (s * m + o))%R with (s * (M - m))%R by ring.
      field. split; lra. }
    cbn [map]. f_equal; [apply Hden|].
    rewrite map_map. apply map_ext. intros d. apply Hden.
  - assert (Hle : (M <= m)%R).
    { destruct (Rlt_dec m M) as [Hlt|]; [|lra].
      rewrite (Rltb_true _ _ Hlt) in E. discriminate. }
    rewrite Rltb_false by nra. cbn [length]. now rewrite length_map.
Qed.

(** A flat sequence normalises to zeros. *)
Lemma ideal_normalize_flat (k : R) (l : list R) :
  Forall (fun v => v = k) l -> Ideal.normalize l = repeat 0%R (length l).
Proof.
  intros H. destruct l as [|x l]; [reflexivity|].
  unfold Ideal.normalize.
  assert (Hm : Ideal.Rmin_list x l = k /\ Ideal.Rmax_list x l = k).
  { inversion H as [|? ? Hx Hl]; subst. clear H.
    unfold Ideal.Rmin_list, Ideal.Rmax_list.
    induction Hl as [|a l Ha Hl IH]; [now split|]. subst a. cbn [fold_left].
    unfold Rmin at 2, Rmax at 2. destruct (Rle_dec k k); [exact IH|lra]. }
  destruct Hm as [-> ->]. now rewrite Rltb_false by lra.
Qed.

End NormalizeAffine.

(** ** Affine invariance of the sparkline *)

Section SparklineAffine.

Import BackgroundSparklineGenerator.

(** Between two equal ordinates the interpolant is that ordinate, whatever
    the abscissas are: a NaN of the slope formula falls back on it. *)
Lemma flat_segment (c : R) (D X X1 : float64) :
  (if is_nan ((Finite c - Finite c) / D * X + Finite c)
   then if is_nan ((Finite c - Finite c) / D * X1 + Finite c)
           && (Finite c =? Finite c)
        then Finite c
        else (Finite c - Finite c) / D * X1 + Finite c
   else (Finite c - Finite c) / D * X + Finite c) = Finite c.
Proof.
  assert (Hslope : (Finite c - Finite c) / D = NaN
                   \/ (Finite c - Finite c) / D = Finite 0).
  { rewrite sub_finite. replace (c - c)%R with 0%R by ring.
    destruct D as [d| | |]; cbn [div]; auto.
    destruct (Reqb d 0) eqn:E.
    - left. unfold signed_inf. now rewrite Reqb_true.
    - right. f_equal. unfold Rdiv. ring. }
  assert (Hcc : (Finite c =? Finite c) = true) by (cbn [eqb]; now apply Reqb_true).
  assert (H0 : forall Y, Finite 0 * Y + Finite c = Finite c
                         \/ Finite 0 * Y + Finite c = NaN).
  { intros [y| | |]; cbn [mul add]; auto.
    - left. f_equal. ring.
    - right. unfold signed_inf. now rewrite Reqb_true.
    - right. unfold signed_inf. rewrite Reqb_true; [reflexivity|ring]. }
  rewrite Hcc, andb_true_r.
  destruct Hslope as [-> | ->].
  - reflexivity.
  - destruct (H0 X) as [-> | ->]; [reflexivity|].
    destruct (H0 X1) as [-> | ->]; reflexivity.
Qed.

Lemma interp_point_flat (c : R) (xp : list float64) (vals : list R) (xr : R) :
  xp <> [] -> length xp = length vals -> Forall (fun v => v = c) vals ->
  interp_point xp (map Finite vals) (Finite xr) = Finite c.
Proof.
  intros Hne Hlen Hc.
  assert (Hv : vals <> []) by (intros ->; destruct xp; easy).
  assert (Hnth : forall i, (i < length vals)%nat ->
                           nth i (map Finite vals) NaN = Finite c).
  { intros i Hi. rewrite nth_map_Finite by assumption. f_equal.
    rewrite Forall_forall in Hc. apply Hc. now apply nth_In. }
  assert (Hhd : hd NaN (map Finite vals) = Finite c).
  { rewrite hd_map_Finite by assumption. f_equal.
    destruct vals; [easy|]. now inversion Hc. }
  assert (Hlast : last (map Finite vals) NaN = Finite c).
  { rewrite last_map_Finite by assumption. f_equal.
    rewrite Forall_forall in Hc. apply Hc.
    rewrite (app_removelast_last 0%R Hv) at 2. apply in_or_app. right. now left. }
  unfold interp_point. rewrite Hhd, Hlast.
  destruct (length xp =? 1)%nat.
  { destruct (ltb _ _); [reflexivity|]. now destruct (gtb _ _). }
  cbn [is_nan]. unfold search.
  destruct (gtb _ _); [reflexivity|]. destruct (ltb _ _); [reflexivity|].
  set (j := scan (Finite xr) (tl xp)).
  assert (Hj : (j <= length xp - 1)%nat).
  { unfold j. pose proof (scan_le (Finite xr) (tl xp)) as H.
    destruct xp; simpl in *; lia. }
  assert (Hpos : (0 < length xp)%nat) by (destruct xp; simpl; [easy|lia]).
  destruct (Nat.eqb_spec j (length xp - 1)) as [Hl|Hnl].
  { apply Hnth. lia. }
  rewrite (Hnth j) by lia. rewrite (Hnth (S j)) by lia.
  destruct (eqb _ _); [reflexivity|]. apply flat_segment.
Qed.

(** The normalised timeline depends on the dates only. *)
Lemma normalize_timeline_dates (v v' : list ts_row) :
  map date v' = map date v -> normalize_timeline v' = normalize_timeline v.
Proof.
  intros E.
  assert (H : forall u, normalize_timeline u
    = (let ds := map date u in
       let days := map (fun d => (d - hd 0%Z ds)%Z) ds in
       map (fun d => of_Z d / of_Z (Zmax_list days)) days)).
  { intros u. unfold normalize_timeline. cbv zeta.
    replace (match u with [] => 0%Z | r :: _ => date r end)
      with (hd 0%Z (map date u)) by (destruct u; reflexivity).
    now rewrite !map_map. }
  now rewrite !H, E.
Qed.

(** On strictly increasing dates the timeline is a single sample or is
    finite: the largest offset is not zero. *)
Lemma normalize_timeline_ok (v : list ts_row) :
  v <> [] -> StronglySorted Z.lt (map date v) ->
  length (normalize_timeline v) = 1%nat
  \/ Forall (fun u => exists r, u = Finite r) (normalize_timeline v).
Proof.
  intros Hne Hs. destruct v as [|r0 [|r1 v]]; [easy|now left|right].
  unfold normalize_timeline.
  set (days := map (fun r => (date r - date r0)%Z) (r0 :: r1 :: v)).
  assert (Hmax : (0 < Zmax_list days)%Z).
  { unfold days. cbn [map Zmax_list fold_left].
    pose proof (fold_Zmax_ge (map (fun r => (date r - date r0)%Z) v)
                             (Z.max (date r0 - date r0) (date r1 - date r0))) as H.
    cbn [map] in Hs. apply StronglySorted_inv in Hs as [_ Hs].
    apply Forall_inv in Hs. lia. }
  apply Forall_map, Forall_forall. intros d _.
  exists (IZR d / IZR (Zmax_list days))%R. unfold of_Z. apply div_finite.
  apply not_0_IZR. lia.
Qed.

Lemma normalize_zeros (l : list R) (k : R) :
  l <> [] -> Forall (fun v => v = k) l ->
  normalize (map Finite l) = Some (repeat (Finite 0) (length l)).
Proof.
  intros Hne Hk. rewrite normalize_finite by assumption.
  rewrite (ideal_normalize_flat k l Hk). now rewrite map_repeat.
Qed.

Lemma Rsum_scal {X : Type} (c : R) (f : X -> R) (l : list X) :
  Rsum (map (fun m => c * f m)%R l) = (c * Rsum (map f l))%R.
Proof.
  induction l as [|a l IH]; [simpl; ring|].
  cbn [map]. rewrite !Rsum_cons, IH. ring.
Qed.

Lemma conv_at_flat (c : R) (a v : list R) (n : nat) :
  Forall (fun t => t = c) v ->
  (length a - 1 <= n)%nat -> (n < length v)%nat ->
  Ideal.conv_at a v n = (c * Rsum a)%R.
Proof.
  intros Hc Ha Hv. unfold Ideal.conv_at. rewrite <- (Rsum_nth a), <- Rsum_scal.
  f_equal. apply map_ext_in. intros m Hm. apply in_seq in Hm.
  rewrite Forall_forall in Hc.
  rewrite (Hc (nth (n - m) v 0%R)) by (apply nth_In; lia). ring.
Qed.

Lemma map_const_seq {X : Type} (v : X) (k n : nat) :
  map (fun _ : nat => v) (seq k n) = repeat v n.
Proof.
  revert k. induction n as [|n IH]; intros k; [reflexivity|].
  cbn [seq map repeat]. now rewrite IH.
Qed.

(** The samples of a flat metric are all the same number. *)
Lemma resample_flat (w h : Z) (c : R) (xp : list float64) (vals : list R) :
  xp <> [] -> length xp = length vals -> Forall (fun v => v = c) vals ->
  resample (init w h) xp (map Finite vals)
  = Some (map Finite (repeat (c * Rsum Ideal.window)%R 70)).
Proof.
  intros Hne Hlen Hc.
  rewrite resample_samples by (rewrite ?length_map; assumption).
  f_equal.
  assert (Hiv : map (interp_point xp (map Finite vals)) (grid (init w h))
                = map Finite (repeat c 741)).
  { rewrite <- (grid_length w h), map_repeat.
    pose proof (grid_finite w h) as Hg.
    induction (grid (init w h)) as [|x l IH]; [reflexivity|].
    apply Forall_cons_iff in Hg as [[xr ->] Hg].
    cbn [map length repeat]. rewrite (interp_point_flat c) by assumption.
    now rewrite IH. }
  rewrite Hiv, window_finite.
  transitivity (map (fun _ : nat => Finite (c * Rsum Ideal.window)) (seq 0 70)).
  - apply map_ext_in. intros i Hi. apply in_seq in Hi.
    pose proof ideal_window_length as Hw.
    rewrite conv_at_finite by (rewrite ?repeat_length; lia).
    f_equal. apply conv_at_flat; rewrite ?repeat_length; try lia.
    apply Forall_forall. intros t Ht. now apply repeat_spec in Ht.
  - rewrite map_repeat. apply map_const_seq.
Qed.

Lemma metric_values_length (cfg : config) (v : list ts_row) (values : list float64) :
  metric_values cfg v = Some values -> length values = length v.
Proof.
  unfold metric_values.
  destruct (String.eqb _ _);
    repeat (destruct (nth_error _ _); [cbn [bind]|discriminate]);
    intros E; injection E as <-; apply length_map.
Qed.

Lemma process_data_valid (g : generator) (data : list ts_row) (cfg : config)
      (values : list float64) :
  dropna data (columns cfg) <> [] ->
  metric_values cfg (dropna data (columns cfg)) = Some values ->
  process_data g data cfg
  = resample g (normalize_timeline (dropna data (columns cfg))) values.
Proof.
  intros Hne Hv. unfold process_data.
  destruct (dropna data (columns cfg)); [easy|]. now rewrite Hv.
Qed.

(** C6. Take a frame some of whose rows have all the required fields, with
    finite metric values on these rows.  If the dates of these rows
    increase strictly, then a frame whose valid rows have the same dates and
    the metric values [s * v + o], with [s > 0], is drawn at the same 70
    coordinates, exactly.  And if the metric values are all equal, the
    samples contain no NaN and their normalisation is the sequence of 70
    zeros. *)
Theorem sparkline_affine_invariance (w h : Z) (data data' : list ts_row)
        (cfg : config) (vals : list R) (s o c : R) :
  let g := init w h in
  let valid_data := dropna data (columns cfg) in
  let valid_data' := dropna data' (columns cfg) in
  valid_data <> [] ->
  metric_values cfg valid_data = Some (map Finite vals) ->
  (StronglySorted Z.lt (map date valid_data) ->
   map date valid_data' = map date valid_data ->
   metric_values cfg valid_data'
   = Some (map Finite (map (fun v => s * v + o)%R vals)) ->
   (0 < s)%R ->
   exists out out' coords,
     process_data g data cfg = Some out
     /\ process_data g data' cfg = Some out'
     /\ generate_coordinates g out = Some coords
     /\ generate_coordinates g out' = Some coords
     /\ length coords = 70%nat)
  /\ (Forall (fun v => v = c) vals ->
      exists out,
        process_data g data cfg = Some out
        /\ normalize out = Some (repeat (Finite 0) 70)
        /\ Forall (fun v => is_nan v = false) out).
Proof.
  intros g valid_data valid_data' Hne Hvals.
  assert (Hlen : length (normalize_timeline valid_data) = length vals).
  { rewrite normalize_timeline_length.
    apply metric_values_length in Hvals. now rewrite length_map in Hvals. }
  assert (Hxp : normalize_timeline valid_data <> []).
  { intros E. apply (f_equal (@length _)) in E.
    rewrite normalize_timeline_length in E. destruct valid_data; easy. }
  split.
  - intros Hsorted Hdates Hvals' Hs.
    assert (Hne' : valid_data' <> []).
    { intros E. rewrite E in Hdates. destruct valid_data; easy. }
    destruct (resample_affine w h s o (normalize_timeline valid_data) vals
                              Hxp Hlen (normalize_timeline_ok _ Hne Hsorted))
      as [outR [Hout [Hr Hr']]].
    exists (map Finite outR),
           (map Finite (map (fun t => s * t + o * Rsum Ideal.window)%R outR)).
    assert (HoutR : outR <> []) by (intros ->; discriminate).
    assert (Hcoords : forall l, l <> [] ->
      generate_coordinates g (map Finite l)
      = Some (combine (linspace (Finite 0) (of_Z (card_width g)) (length l))
                (map (fun n => of_Z (card_height g - padding g)
                               - n * of_Z (card_height g - 2 * padding g))
                     (map Finite (Ideal.normalize l))))).
    { intros l Hl. unfold generate_coordinates.
      rewrite normalize_finite by assumption. cbn [bind].
      now rewrite length_map. }
    eexists. split; [|split; [|split; [|split]]].
    + unfold g. rewrite (process_data_valid _ _ _ _ Hne Hvals). exact Hr.
    + unfold g. rewrite (process_data_valid _ _ _ _ Hne' Hvals').
      fold valid_data'. rewrite (normalize_timeline_dates _ _ Hdates). exact Hr'.
    + apply Hcoords. exact HoutR.
    + rewrite Hcoords by (destruct outR; easy).
      rewrite ideal_normalize_affine by assumption. now rewrite length_map.
    + rewrite length_combine, linspace_length, !length_map, ideal_normalize_length.
      rewrite Hout. reflexivity.
  - intros Hc. eexists. split; [|split].
    + unfold g. rewrite (process_data_valid _ _ _ _ Hne Hvals).
      apply (resample_flat w h c); assumption.
    + rewrite (normalize_zeros _ (c * Rsum Ideal.window)%R).
      * now rewrite repeat_length.
      * discriminate.
      * apply Forall_forall. intros t Ht. now apply repeat_spec in Ht.
    + apply Forall_map, Forall_forall. intros t _. reflexivity.
Qed.

End SparklineAffine.

(** ** The scenario of the specification *)

Section Scenario.

Import DataLoader.

Example group_keys_example : group_keys [3; 1; 3; 2]%Z = [1; 2; 3]%Z.
Proof. reflexivity. Qed.

(** 2024-01-01 is day 19723; February 2024 has 29 days. *)
Example to_period_M_example :
  map to_period_M [0; 19723; 19782; 19783]%Z
  = [12 * 1970; 12 * 2024; 12 * 2024 + 1; 12 * 2024 + 2]%Z.
Proof. reflexivity. Qed.

(** Four records on two days aggregate to the totals 30 and 35, two names
    each day. *)
Example scenario_daily_totals :
  compute_daily_totals
    [ {| crawl_date := 19723; finalWorth := 10; personName := "A" |};
      {| crawl_date := 19723; finalWorth := 20; personName := "B" |};
      {| crawl_date := 19724; finalWorth := 15; personName := "A" |};
      {| crawl_date := 19724; finalWorth := 20; personName := "B" |} ]
  = [ {| date := 19723; total_wealth := 30; billionaire_count := 2 |};
      {| date := 19724; total_wealth := 35; billionaire_count := 2 |} ].
Proof.
  rewrite compute_daily_totals_rows. unfold daily_rows. cbn.
  repeat f_equal; lra.
Qed.

(** Deciding the comparisons of real constants met when a float
    computation is evaluated. *)
Ltac rdec :=
  repeat first [ rewrite Rltb_true by lra | rewrite Rltb_false by lra
               | rewrite Reqb_true by lra | rewrite Reqb_false by lra ].

(** Half-way between the samples (0, 10) and (1, 20) the interpolant is 15;
    outside the samples it is the nearest ordinate. *)
Example interp_example :
  interp [Finite (1 / 2); Finite (-1); Finite 2]
         [Finite 0; Finite 1] [Finite 10; Finite 20]
  = Some [Finite 15; Finite 10; Finite 20].
Proof.
  unfold interp, interp_point, search.
  repeat (progress
            (unfold gtb, geb, leb;
             cbn [map length Nat.eqb is_nan last hd tl scan ltb eqb
                  nth Nat.sub orb andb sub add opp div mul];
             rdec)).
  repeat f_equal. field.
Qed.

Example linspace_example :
  linspace (Finite 0) (Finite 3) 4 = [Finite 0; Finite 1; Finite 2; Finite 3].
Proof.
  rewrite linspace_finite by lia. unfold linspace_samples.
  cbn [seq map set_last removelast app Nat.sub INR].
  repeat f_equal; field.
Qed.

(** The slice [40:-40:10] of 780 samples keeps the indices 40, 50, ..., 730. *)
Example py_slice_example :
  py_slice (map of_nat (seq 0 780)) 40 (-40) 10
  = map (fun i => of_nat (40 + 10 * i)) (seq 0 70).
Proof. reflexivity. Qed.

(** A price index missing on the first day: the base is its first value, 4,
    and only the second day has an adjusted point. *)
Example inflation_example :
  ChartDataProcessor.get_inflation_data
    {| ChartDataProcessor.rows :=
         [ {| ChartDataProcessor.date := 0;
              ChartDataProcessor.total_wealth := 2;
              ChartDataProcessor.days_from_start := 0 |};
           {| ChartDataProcessor.date := 1;
              ChartDataProcessor.total_wealth := 3;
              ChartDataProcessor.days_from_start := 1 |} ];
       ChartDataProcessor.extra := [("cpi_u", [NaN; Finite 4])] |}
  = Some (Some {| ChartDataProcessor.data := [(1%Z, Finite (3 * (4 / 4)))];
                  ChartDataProcessor.inflationType := "CPI_U";
                  ChartDataProcessor.baseValue := Finite 4 |}).
Proof.
  unfold ChartDataProcessor.get_inflation_data,
    ChartDataProcessor.first_available,
    ChartDataProcessor.prepare_inflation_adjusted_data,
    ChartDataProcessor.index_usable, ChartDataProcessor.notna, gtb.
  simpl. rdec. simpl. rdec. reflexivity.
Qed.

(** A year and a quarter of daily growth by one sixth more than doubles. *)
Lemma scenario_power : (2 <= Rpower (35 / 30) (1 / (IZR 1 / 365.25)))%R.
Proof.
  replace (1 / (IZR 1 / 365.25))%R with (INR 365 + / 4)%R
    by (rewrite INR_IZR_INZ, days_per_year; simpl; field).
  rewrite Rpower_plus, Rpower_pow by lra.
  assert (H1 : (1 + INR 365 * (1 / 6) <= (35 / 30) ^ 365)%R).
  { replace (35 / 30)%R with (1 + 1 / 6)%R by field. apply poly. lra. }
  rewrite INR_IZR_INZ in H1. simpl in H1.
  assert (H2 : (1 <= Rpower (35 / 30) (/ 4))%R).
  { unfold Rpower. rewrite <- exp_0 at 1.
    destruct (Rle_lt_or_eq_dec 0 (/ 4 * ln (35 / 30))) as [Hlt|Heq].
    - apply Rmult_le_pos; [lra|]. rewrite <- ln_1. left. apply ln_increasing; lra.
    - left. now apply exp_increasing.
    - rewrite <- Heq. lra. }
  nra.
Qed.

(** On the two totals the raw one-day rate is clamped to 100 and the
    doubling time is [ln 2 / ln 2]. *)
Example scenario_growth_metrics :
  calculate_growth_metrics
    [ {| date := 19723; total_wealth := 30; billionaire_count := 2 |};
      {| date := 19724; total_wealth := 35; billionaire_count := 2 |} ]
  = Some {| growth_rate := Finite 100;
            doubling_time := Finite (ln 2 / ln (1 + 100 / 100));
            daily_accumulation := Finite ((35 - 30) / (1000 * IZR 1)) |}.
Proof.
  set (r0 := {| date := 19723; total_wealth := 30; billionaire_count := 2 |}).
  set (r1 := {| date := 19724; total_wealth := 35; billionaire_count := 2 |}).
  destruct (growth_from_source_cases [r0; r1] r0 r1 eq_refl eq_refl)
    as [m [Hm [_ Hcases]]].
  change (calculate_growth_metrics [r0; r1]) with (growth_from_source [r0; r1]).
  rewrite Hm. f_equal.
  destruct Hcases as [Hrate [_ [_ [Hpos _]]]]; [simpl; lia|simpl; lra|].
  cbn [date total_wealth r0 r1] in Hrate, Hpos.
  change (19724 - 19723)%Z with 1%Z in Hrate, Hpos.
  assert (Hg : growth_rate m = Finite 100).
  { rewrite Hrate. unfold Rpow. rewrite Rltb_true by lra.
    cbn [sub add opp mul]. rewrite clip_finite. f_equal.
    pose proof scenario_power as Hp.
    unfold Rmax. destruct (Rle_dec _ (-50)); [lra|].
    unfold Rmin. destruct (Rle_dec _ 100); lra. }
  destruct (Hpos 100%R Hg) as [Hd Ha]; [lra|].
  destruct m as [g d a0]. cbn [growth_rate doubling_time daily_accumulation] in *.
  now rewrite Hg, Hd, Ha.
Qed.

End Scenario.

(** ** The theorems at concrete inputs *)

Section Instances.

(** Two dated rows with totals 1 and 2, drawn with the total-wealth
    configuration on the default card: 70 samples. *)
Lemma process_data_70_witness :
  exists out,
    BackgroundSparklineGenerator.process_data
      BackgroundSparklineGenerator.default
      [ {| BackgroundSparklineGenerator.date := 0;
           BackgroundSparklineGenerator.total_wealth := Finite 1;
           BackgroundSparklineGenerator.billionaire_count := Finite 2 |};
        {| BackgroundSparklineGenerator.date := 1;
           BackgroundSparklineGenerator.total_wealth := Finite 2;
           BackgroundSparklineGenerator.billionaire_count := NaN |} ]
      BackgroundSparklineGenerator.single_total_wealth = Some out
    /\ length out = 70%nat.
Proof.
  refine (proj1 (process_data_70 280 120 _ _ _) _); reflexivity.
Defined.

(** The scenario of the specification: totals 30 and 35 one day apart. *)
Lemma growth_metrics_cases_witness :
  exists m,
    DataLoader.calculate_growth_metrics
      [ {| DataLoader.date := 0; DataLoader.total_wealth := 30;
           DataLoader.billionaire_count := 2 |};
        {| DataLoader.date := 1; DataLoader.total_wealth := 35;
           DataLoader.billionaire_count := 2 |} ] = Some m
    /\ in_range (-50) 100 (DataLoader.growth_rate m).
Proof.
  destruct (growth_metrics_cases
              [ {| DataLoader.date := 0; DataLoader.total_wealth := 30;
                   DataLoader.billionaire_count := 2 |};
                {| DataLoader.date := 1; DataLoader.total_wealth := 35;
                   DataLoader.billionaire_count := 2 |} ]) as [m [Hm H]].
  exists m. split; [exact Hm|].
  destruct (H _ _ eq_refl eq_refl) as [_ H'].
  destruct H' as [_ [Hrange _]].
  - simpl. lia.
  - simpl. lra.
  - apply Hrange. simpl. lra.
Defined.

Lemma growth_source_selection_witness :
  DataLoader.calculate_growth_metrics
    [ {| DataLoader.date := 0; DataLoader.total_wealth := 30;
         DataLoader.billionaire_count := 2 |};
      {| DataLoader.date := 1; DataLoader.total_wealth := 35;
         DataLoader.billionaire_count := 2 |} ]
  = DataLoader.growth_from_source
      [ {| DataLoader.date := 0; DataLoader.total_wealth := 30;
           DataLoader.billionaire_count := 2 |};
        {| DataLoader.date := 1; DataLoader.total_wealth := 35;
           DataLoader.billionaire_count := 2 |} ].
Proof.
  refine (proj1 (proj2 (growth_source_selection _ _)) _).
  - repeat constructor; simpl; lia.
  - simpl. lia.
Defined.


(** Totals 1 and 2 against totals 3 and 5, their image by [2 * v + 1]. *)
Lemma sparkline_affine_invariance_witness :
  exists out out' coords,
    BackgroundSparklineGenerator.process_data
      (BackgroundSparklineGenerator.init 280 120)
      [ {| BackgroundSparklineGenerator.date := 0;
           BackgroundSparklineGenerator.total_wealth := Finite 1;
           BackgroundSparklineGenerator.billionaire_count := Finite 2 |};
        {| BackgroundSparklineGenerator.date := 1;
           BackgroundSparklineGenerator.total_wealth := Finite 2;
           BackgroundSparklineGenerator.billionaire_count := Finite 2 |} ]
      BackgroundSparklineGenerator.single_total_wealth = Some out
    /\ BackgroundSparklineGenerator.process_data
         (BackgroundSparklineGenerator.init 280 120)
         [ {| BackgroundSparklineGenerator.date := 0;
              BackgroundSparklineGenerator.total_wealth := Finite (2 * 1 + 1);
              BackgroundSparklineGenerator.billionaire_count := Finite 2 |};
           {| BackgroundSparklineGenerator.date := 1;
              BackgroundSparklineGenerator.total_wealth := Finite (2 * 2 + 1);
              BackgroundSparklineGenerator.billionaire_count := Finite 2 |} ]
         BackgroundSparklineGenerator.single_total_wealth = Some out'
    /\ BackgroundSparklineGenerator.generate_coordinates
         (BackgroundSparklineGenerator.init 280 120) out = Some coords
    /\ BackgroundSparklineGenerator.generate_coordinates
         (BackgroundSparklineGenerator.init 280 120) out' = Some coords
    /\ length coords = 70%nat.
Proof.
  refine (proj1 (sparkline_affine_invariance 280 120 _ _ _ [1; 2]%R 2 1 0 _ _)
                _ _ _ _).
  - discriminate.
  - reflexivity.
  - repeat constructor; simpl; lia.
  - reflexivity.
  - reflexivity.
  - lra.
Defined.

(** Two daily totals 27 days apart, with the degenerate fit and the
    rounding of binary64: 100 points, the last labelled with day 27, and
    point 55, at 55 * 27 / 99 = 15 days before rounding, with day 14. *)
Lemma trend_line_points_witness :
  exists pts,
    ChartDataProcessor.generate_trend_line
      [ {| ChartDataProcessor.date := 0; ChartDataProcessor.total_wealth := 1;
           ChartDataProcessor.days_from_start := 0 |};
        {| ChartDataProcessor.date := 27; ChartDataProcessor.total_wealth := 2;
           ChartDataProcessor.days_from_start := 27 |} ]
      ChartDataProcessor.degenerate_fit = Some pts
    /\ length pts = 100%nat
    /\ option_map fst (nth_error pts 55) = Some 14%Z
    /\ option_map fst (nth_error pts 99) = Some 27%Z.
Proof.
  destruct (trend_line_points
              [ {| DataLoader.date := 0; DataLoader.total_wealth := 1;
                   DataLoader.billionaire_count := 1 |};
                {| DataLoader.date := 27; DataLoader.total_wealth := 2;
                   DataLoader.billionaire_count := 1 |} ]
              _ ChartDataProcessor.degenerate_fit eq_refl)
    as [first [pts [day [H1 [H2 [H3 [H4 [_ [H5 [H6 _]]]]]]]]]].
  - simpl. lia.
  - exists pts. split; [exact H2|]. split; [exact H4|].
    cbn [hd_error] in H1. injection H1 as <-.
    change (Zmax_list _) with 27%Z in H5, H6.
    rewrite H3. unfold Spec.trend_line.
    split.
    + rewrite nth_error_map, nth_error_seq. cbn [Nat.ltb Nat.leb option_map fst Nat.add].
      rewrite (H6 55%nat) by lia.
      replace (INR 55) with 55%R by (rewrite INR_IZR_INZ; reflexivity).
      now rewrite label_27_55.
    + rewrite nth_error_map, nth_error_seq. cbn [Nat.ltb Nat.leb option_map fst Nat.add].
      now rewrite H5, ZfloorZ.
Defined.

(** A frame without price-index columns has no adjusted series. *)
Lemma inflation_adjustment_refines_witness :
  ChartDataProcessor.get_inflation_data
    {| ChartDataProcessor.rows := []; ChartDataProcessor.extra := [] |}
  = Some None.
Proof.
  refine (proj2 (inflation_adjustment_refines _) _ _); reflexivity.
Defined.

(** Seventy zeros on the default card: [0 <= x <= 280], [15 <= y <= 105]. *)
Lemma coordinates_in_frame_witness :
  exists coords,
    BackgroundSparklineGenerator.generate_coordinates
      BackgroundSparklineGenerator.default
      (map Finite (repeat 0%R 70)) = Some coords
    /\ length coords = 70%nat
    /\ Forall (fun p => in_range 0 280 (fst p) /\ in_range 15 105 (snd p))
              coords.
Proof.
  refine (coordinates_in_frame 280 120 (repeat 0%R 70) _ _ _).
  - reflexivity.
  - lia.
  - simpl. lia.
Defined.

End Instances.

(* ====================================================================== *)
(** * Further properties of the data loader *)

Section RecordOrder.

Import DataLoader.

(** Two strictly increasing lists with the same elements are the same. *)
Lemma sorted_lt_unique (l1 l2 : list Z) :
  StronglySorted Z.lt l1 -> StronglySorted Z.lt l2 ->
  (forall x, In x l1 <-> In x l2) -> l1 = l2.
Proof.
  intros H1. revert l2.
  induction H1 as [|a l1 Hs1 IH Ha]; intros l2 H2 Hin.
  - destruct l2 as [|b l2]; [reflexivity|].
    exfalso. apply (proj2 (Hin b)). now left.
  - destruct H2 as [|b l2 Hs2 Hb].
    + exfalso. apply (proj1 (Hin a)). now left.
    + rewrite Forall_forall in Ha, Hb.
      assert (a = b) as ->.
      { destruct (proj1 (Hin a) (or_introl eq_refl)) as [E|Hab]; [now symmetry|].
        destruct (proj2 (Hin b) (or_introl eq_refl)) as [E|Hba]; [assumption|].
        apply Hb in Hab. apply Ha in Hba. lia. }
      f_equal. apply IH; [assumption|]. intros x. split; intros Hx.
      * destruct (proj1 (Hin x) (or_intror Hx)) as [E|Hx']; [|assumption].
        apply Ha in Hx. lia.
      * destruct (proj2 (Hin x) (or_intror Hx)) as [E|Hx']; [|assumption].
        apply Hb in Hx. lia.
Qed.

Lemma group_keys_same (l l' : list Z) :
  (forall x, In x l <-> In x l') -> group_keys l = group_keys l'.
Proof.
  intros H. apply sorted_lt_unique; try apply group_keys_sorted.
  intros x. rewrite !group_keys_In. apply H.
Qed.

Lemma Rsum_perm (l l' : list R) : Permutation l l' -> Rsum l = Rsum l'.
Proof.
  induction 1 as [|x l l' _ IH|x y l|l l' l'' _ IH1 _ IH2];
    rewrite ?Rsum_cons; lra.
Qed.

Lemma filter_perm {A : Type} (f : A -> bool) (l l' : list A) :
  Permutation l l' -> Permutation (filter f l) (filter f l').
Proof.
  induction 1 as [|x l l' _ IH|x y l|l l' l'' _ IH1 _ IH2]; simpl.
  - constructor.
  - destruct (f x); [now constructor|assumption].
  - destruct (f x), (f y); try reflexivity. apply perm_swap.
  - now transitivity (filter f l').
Qed.

Lemma nunique_perm (l l' : list string) :
  Permutation l l' -> nunique l = nunique l'.
Proof.
  intros H. unfold nunique. apply Permutation_length, NoDup_Permutation.
  - apply NoDup_nodup.
  - apply NoDup_nodup.
  - intros x. rewrite !nodup_In. split; apply Permutation_in;
      [assumption|now apply Permutation_sym].
Qed.

(** X1. The daily totals do not depend on the order of the records (sums
    being exact): two inputs that hold the same records, in any order,
    give the same rows. *)
Theorem daily_totals_order_independent (df df' : list Snapshot) :
  Permutation df df' -> compute_daily_totals df = compute_daily_totals df'.
Proof.
  intros H. rewrite !compute_daily_totals_rows. unfold daily_rows.
  rewrite (group_keys_same (map crawl_date df) (map crawl_date df')).
  2:{ intros x. split; apply Permutation_in; apply Permutation_map;
        [assumption|now apply Permutation_sym]. }
  apply map_ext. intros d.
  assert (Hd : Permutation (on_date df d) (on_date df' d))
    by now apply filter_perm.
  f_equal.
  - now apply Rsum_perm, Permutation_map.
  - f_equal. now apply nunique_perm, Permutation_map.
Qed.

Lemma daily_totals_order_independent_witness :
  compute_daily_totals
    [ {| crawl_date := 2; finalWorth := 5; personName := "a" |};
      {| crawl_date := 1; finalWorth := 7; personName := "b" |} ]
  = compute_daily_totals
      [ {| crawl_date := 1; finalWorth := 7; personName := "b" |};
        {| crawl_date := 2; finalWorth := 5; personName := "a" |} ].
Proof.
  apply daily_totals_order_independent. apply perm_swap.
Defined.

Lemma group_keys_length (l : list Z) : (length (group_keys l) <= length l)%nat.
Proof.
  transitivity (length (nodup Z.eq_dec l)).
  - apply NoDup_incl_length; [apply group_keys_NoDup|].
    intros x Hx. apply nodup_In. now apply group_keys_In.
  - clear. induction l as [|a l IH]; simpl; [lia|].
    destruct (in_dec Z.eq_dec a l); simpl; lia.
Qed.

Lemma nunique_pos (l : list string) : l <> [] -> (1 <= nunique l)%nat.
Proof.
  unfold nunique. destruct l as [|a l]; [easy|]. intros _.
  assert (H : In a (nodup string_dec (a :: l))) by (apply nodup_In; now left).
  destruct (nodup string_dec (a :: l)); [destruct H|simpl; lia].
Qed.

(** X2. The daily totals have one row per distinct date, so never more rows
    than there are records, and no row exactly when there is no record;
    every row counts at least one person, as a whole number. *)
Theorem daily_totals_rows (df : list Snapshot) :
  (length (compute_daily_totals df) <= length df)%nat
  /\ (compute_daily_totals df = [] <-> df = [])
  /\ Forall (fun r => exists n : nat,
               billionaire_count r = INR n /\ (1 <= n)%nat)
            (compute_daily_totals df).
Proof.
  rewrite compute_daily_totals_rows. unfold daily_rows. split; [|split].
  - rewrite length_map, <- (length_map crawl_date df). apply group_keys_length.
  - split; [|intros ->; reflexivity].
    intros E. apply map_eq_nil in E. destruct df as [|s df]; [reflexivity|].
    exfalso. assert (H : In (crawl_date s) (group_keys (map crawl_date (s :: df))))
      by (apply group_keys_In; now left).
    rewrite E in H. destruct H.
  - apply Forall_map, Forall_forall. intros d Hd. cbn [billionaire_count].
    eexists. split; [reflexivity|]. apply nunique_pos.
    apply group_keys_In, in_map_iff in Hd as [s [Hs Hin]].
    intros E. apply map_eq_nil in E.
    assert (H : In s (on_date df d))
      by (apply filter_In; split; [assumption|now apply Z.eqb_eq]).
    rewrite E in H. destruct H.
Qed.

End RecordOrder.

(** ** The shape of the growth metrics *)

Section GrowthShape.

Import DataLoader.

Lemma calculate_growth_metrics_source (dt : list DailyTotal) :
  (2 <= length dt)%nat ->
  calculate_growth_metrics dt = growth_from_source (growth_source dt).
Proof.
  intros H. unfold calculate_growth_metrics.
  destruct (Nat.ltb_spec (length dt) 2); [lia|reflexivity].
Qed.

Lemma growth_source_ends (dt : list DailyTotal) :
  dt <> [] ->
  exists first latest,
    hd_error (growth_source dt) = Some first
    /\ last_error (growth_source dt) = Some latest.
Proof.
  intros H. apply growth_source_nonempty in H.
  destruct (last_error_Some _ H) as [latest Hl].
  destruct (growth_source dt) as [|first src]; [easy|]. now exists first, latest.
Qed.

Lemma doubling_at_least_one (g : R) :
  (0 < g <= 100)%R -> (1 <= ln 2 / ln (1 + g / 100))%R.
Proof.
  intros Hg.
  assert (H1 : (0 < ln (1 + g / 100))%R)
    by (rewrite <- ln_1; apply ln_increasing; lra).
  assert (H2 : (ln (1 + g / 100) <= ln 2)%R).
  { destruct (Req_dec g 100) as [->|Hne].
    - replace (1 + 100 / 100)%R with 2%R by lra. lra.
    - left. apply ln_increasing; lra. }
  replace (ln 2 / ln (1 + g / 100))%R
    with (1 + (ln 2 - ln (1 + g / 100)) / ln (1 + g / 100))%R by (field; lra).
  assert (0 <= (ln 2 - ln (1 + g / 100)) / ln (1 + g / 100))%R
    by (apply Rmult_le_pos; [lra|left; now apply Rinv_0_lt_compat]).
  lra.
Qed.

(** X3. The growth metrics always come out in one of a few shapes: the
    growth rate is NaN or a number from -50 to 100; the doubling time is
    infinite or a number of years that is at least one (never NaN, never
    negative); the daily accumulation is always a finite number. *)
Theorem growth_metrics_shape (dt : list DailyTotal) :
  exists m, calculate_growth_metrics dt = Some m
  /\ (growth_rate m = NaN \/ in_range (-50) 100 (growth_rate m))
  /\ (doubling_time m = PosInf
      \/ exists d, doubling_time m = Finite d /\ (1 <= d)%R)
  /\ (exists acc, daily_accumulation m = Finite acc).
Proof.
  assert (Hno : (growth_rate no_growth = NaN
                 \/ in_range (-50) 100 (growth_rate no_growth))
                /\ (doubling_time no_growth = PosInf
                    \/ exists d, doubling_time no_growth = Finite d /\ (1 <= d)%R)
                /\ (exists acc, daily_accumulation no_growth = Finite acc)).
  { split; [right; simpl; lra|]. split; [now left|now exists 0%R]. }
  destruct (Nat.ltb_spec (length dt) 2) as [Hlen|Hlen].
  { exists no_growth. split; [|exact Hno]. unfold calculate_growth_metrics.
    destruct (Nat.ltb_spec (length dt) 2); [reflexivity|lia]. }
  rewrite calculate_growth_metrics_source by assumption.
  destruct (growth_source_ends dt) as [first [latest [Hf Hl]]].
  { destruct dt; [simpl in Hlen; lia|easy]. }
  destruct (growth_from_source_cases _ _ _ Hf Hl) as [m [Hm [Hz Hnz]]].
  exists m. split; [assumption|].
  destruct (Z.eq_dec (date latest - date first) 0) as [Hd|Hd];
    [rewrite Hz by (now left); exact Hno|].
  destruct (Req_dec (total_wealth first) 0) as [Hs|Hs];
    [rewrite Hz by (now right); exact Hno|].
  destruct (Hnz Hd Hs) as [_ [Hpos [Hneg [Hg Hng]]]].
  destruct (Rle_or_lt 0 (total_wealth latest / total_wealth first)) as [Hr|Hr].
  - specialize (Hpos Hr). destruct (growth_rate m) as [g| | |] eqn:E;
      try (now destruct Hpos).
    split; [now right|]. simpl in Hpos.
    destruct (Rlt_or_le 0 g) as [Hg0|Hg0].
    + destruct (Hg g eq_refl Hg0) as [-> ->]. split; [|eauto].
      right. eexists. split; [reflexivity|]. apply doubling_at_least_one. lra.
    + destruct Hng as [-> ->]; [|split; [now left|eauto]].
      intros g' [= <-]. assumption.
  - rewrite (Hneg Hr) in *. split; [now left|].
    destruct Hng as [-> ->]; [intros g' [=]|]. split; [now left|eauto].
Qed.

(** X4. Between two positive totals over a positive time span the growth
    rate is a number whose sign is the direction of the change; and unless
    it was cut off at -50 or 100, compounding the first total at that
    yearly rate over the span gives back the last total. *)
Theorem growth_rate_compounds (dt : list DailyTotal) (first latest : DailyTotal) :
  (2 <= length dt)%nat ->
  hd_error (growth_source dt) = Some first ->
  last_error (growth_source dt) = Some latest ->
  (0 < total_wealth first)%R -> (0 < total_wealth latest)%R ->
  (date first < date latest)%Z ->
  let years := (IZR (date latest - date first) / 365.25)%R in
  exists m g, calculate_growth_metrics dt = Some m
  /\ growth_rate m = Finite g
  /\ ((0 < g)%R <-> (total_wealth first < total_wealth latest)%R)
  /\ ((g < 0)%R <-> (total_wealth latest < total_wealth first)%R)
  /\ ((-50 < g < 100)%R ->
      (total_wealth first * Rpower (1 + g / 100) years)%R = total_wealth latest).
Proof.
  intros Hlen Hf Hl Hs He Hd years.
  rewrite calculate_growth_metrics_source by assumption.
  destruct (growth_from_source_cases _ _ _ Hf Hl) as [m [Hm [_ Hnz]]].
  destruct Hnz as [Hclip _]; [lia|lra|].
  set (s := total_wealth first) in *. set (e := total_wealth latest) in *.
  fold years in Hclip.
  assert (Hy : (0 < years)%R).
  { unfold years. rewrite days_per_year. apply Rdiv_lt_0_compat; [|lra].
    apply IZR_lt. lia. }
  assert (Hq : (0 < e / s)%R) by (apply Rdiv_lt_0_compat; assumption).
  unfold Rpow in Hclip. rewrite Rltb_true in Hclip by assumption.
  cbn [sub add opp mul] in Hclip. rewrite clip_finite in Hclip.
  set (p := Rpower (e / s) (1 / years)) in *.
  assert (Hone : (Rpower 1 (1 / years) = 1)%R)
    by (unfold Rpower; rewrite ln_1, Rmult_0_r; apply exp_0).
  assert (Hinv : (0 < 1 / years)%R) by (apply Rdiv_lt_0_compat; lra).
  assert (Hup : (s < e)%R -> (1 < p)%R).
  { intros H. rewrite <- Hone. apply Rlt_Rpower_l; [assumption|].
    split; [lra|]. apply Rmult_lt_reg_r with s; [assumption|].
    unfold Rdiv. rewrite Rmult_assoc, Rinv_l by lra. lra. }
  assert (Hdown : (e < s)%R -> (p < 1)%R).
  { intros H. rewrite <- Hone. apply Rlt_Rpower_l; [assumption|].
    split; [assumption|]. apply Rmult_lt_reg_r with s; [assumption|].
    unfold Rdiv. rewrite Rmult_assoc, Rinv_l by lra. lra. }
  assert (Hsame : e = s -> p = 1%R).
  { intros H. unfold p. rewrite H. unfold Rdiv at 1. rewrite Rinv_r by lra.
    exact Hone. }
  exists m, (Rmin (Rmax ((p + - 1) * 100) (-50)) 100). split; [assumption|].
  split; [assumption|].
  assert (Hcases : (s < e)%R \/ e = s \/ (e < s)%R) by lra.
  split; [|split].
  - unfold Rmin, Rmax.
    destruct (Rle_dec ((p + - 1) * 100) (-50)), (Rle_dec _ 100);
      destruct Hcases as [H|[H|H]];
      try (apply Hup in H); try (apply Hsame in H); try (apply Hdown in H); lra.
  - unfold Rmin, Rmax.
    destruct (Rle_dec ((p + - 1) * 100) (-50)), (Rle_dec _ 100);
      destruct Hcases as [H|[H|H]];
      try (apply Hup in H); try (apply Hsame in H); try (apply Hdown in H); lra.
  - intros Hg.
    assert (Hp : (1 + Rmin (Rmax ((p + - 1) * 100) (-50)) 100 / 100 = p)%R).
    { revert Hg. unfold Rmin, Rmax.
      destruct (Rle_dec ((p + - 1) * 100) (-50)), (Rle_dec _ 100); lra. }
    rewrite Hp. unfold p.
    rewrite Rpower_mult. replace (1 / years * years)%R with 1%R by (field; lra).
    rewrite Rpower_1 by assumption. field. lra.
Qed.

(** From 30 to 35 in one day. *)
Lemma growth_rate_compounds_witness :
  exists m g,
    calculate_growth_metrics
      [ {| date := 0; total_wealth := 30; billionaire_count := 2 |};
        {| date := 1; total_wealth := 35; billionaire_count := 2 |} ] = Some m
    /\ growth_rate m = Finite g
    /\ ((0 < g)%R <-> (30 < 35)%R)
    /\ ((g < 0)%R <-> (35 < 30)%R)
    /\ ((-50 < g < 100)%R ->
        (30 * Rpower (1 + g / 100) (IZR (1 - 0) / 365.25))%R = 35%R).
Proof.
  refine (growth_rate_compounds
            [ {| date := 0; total_wealth := 30; billionaire_count := 2 |};
              {| date := 1; total_wealth := 35; billionaire_count := 2 |} ]
            {| date := 0; total_wealth := 30; billionaire_count := 2 |}
            {| date := 1; total_wealth := 35; billionaire_count := 2 |}
            _ _ _ _ _ _).
  - simpl. lia.
  - reflexivity.
  - reflexivity.
  - simpl. lra.
  - simpl. lra.
  - simpl. lia.
Defined.

End GrowthShape.

(** ** The unit of the totals *)

Section Units.

Import DataLoader.

Variable T : R.
Hypothesis T_pos : (0 < T)%R.

Let f := in_trillions T.

Lemma insert_by_map {A : Type} (key : A -> Z) (h : A -> A) (r : A) (l : list A) :
  (forall a, key (h a) = key a) ->
  insert_by key (h r) (map h l) = map h (insert_by key r l).
Proof.
  intros Hk. induction l as [|x l IH]; [reflexivity|].
  cbn [map insert_by]. rewrite !Hk.
  destruct (key r <=? key x)%Z; [reflexivity|]. cbn [map]. now rewrite IH.
Qed.

Lemma sort_values_map {A : Type} (key : A -> Z) (h : A -> A) (l : list A) :
  (forall a, key (h a) = key a) ->
  sort_values key (map h l) = map h (sort_values key l).
Proof.
  intros Hk. induction l as [|x l IH]; [reflexivity|].
  cbn [map]. unfold sort_values in *. cbn [fold_right]. rewrite IH.
  now apply insert_by_map.
Qed.

Lemma filter_map_comm {A : Type} (h : A -> A) (q : A -> bool) (l : list A) :
  (forall a, q (h a) = q a) -> filter q (map h l) = map h (filter q l).
Proof.
  intros Hq. induction l as [|x l IH]; [reflexivity|].
  cbn [map filter]. rewrite Hq. destruct (q x); cbn [map]; now rewrite IH.
Qed.

Lemma Rsum_div {A : Type} (c : R) (v : A -> R) (l : list A) :
  Rsum (map (fun x => v x / c)%R l) = (Rsum (map v l) / c)%R.
Proof.
  induction l as [|a l IH]; [simpl; unfold Rdiv; ring|].
  cbn [map]. rewrite !Rsum_cons, IH. unfold Rdiv. ring.
Qed.

Lemma mean_div {A : Type} (c : R) (v : A -> R) (l : list A) :
  mean (map (fun x => v x / c)%R l) = (mean (map v l) / c)%R.
Proof.
  unfold mean. rewrite Rsum_div, !length_map. unfold Rdiv. ring.
Qed.

Lemma monthly_row_units (dt : list DailyTotal) (p : Z) :
  monthly_row (map f dt) p = f (monthly_row dt p).
Proof.
  unfold monthly_row, in_period.
  rewrite (filter_map_comm f) by reflexivity.
  set (rows := filter _ dt). unfold f, in_trillions.
  cbn [date total_wealth billionaire_count]. f_equal.
  - destruct rows; reflexivity.
  - rewrite map_map. cbn [total_wealth]. apply mean_div.
  - now rewrite map_map.
Qed.

Lemma get_monthly_averages_units (dt : list DailyTotal) :
  get_monthly_averages (map f dt) = map f (get_monthly_averages dt).
Proof.
  unfold get_monthly_averages, monthly_rows.
  rewrite <- (sort_values_map date f) by reflexivity. f_equal.
  rewrite !map_map. apply map_ext. intros p. apply monthly_row_units.
Qed.

Lemma growth_source_units (dt : list DailyTotal) :
  growth_source (map f dt) = map f (growth_source dt).
Proof.
  unfold growth_source. rewrite length_map.
  destruct (60 <? length dt)%nat; [apply get_monthly_averages_units|reflexivity].
Qed.

Lemma last_error_map {A B : Type} (h : A -> B) (l : list A) :
  last_error (map h l) = option_map h (last_error l).
Proof. unfold last_error. now rewrite length_map, nth_error_map. Qed.

Lemma Reqb_div (s : R) : Reqb (s / T) 0 = Reqb s 0.
Proof.
  destruct (Req_dec s 0) as [->|Hs].
  - rewrite !Reqb_true; [reflexivity|reflexivity|unfold Rdiv; ring].
  - rewrite !Reqb_false; [reflexivity|assumption|].
    intros E. apply Hs. apply Rmult_eq_reg_r with (/ T)%R.
    + unfold Rdiv in E. rewrite E. ring.
    + apply Rinv_neq_0_compat. lra.
Qed.

Lemma growth_from_source_units (src : list DailyTotal) (m : growth_metrics) :
  growth_from_source src = Some m ->
  exists m', growth_from_source (map (in_trillions T) src) = Some m'
  /\ growth_rate m' = growth_rate m
  /\ doubling_time m' = doubling_time m
  /\ daily_accumulation m' = daily_accumulation m / Finite T.
Proof.
  assert (HT : Reqb T 0 = false) by (apply Reqb_false; lra).
  assert (Hno : daily_accumulation no_growth
                = daily_accumulation no_growth / Finite T).
  { simpl. rewrite HT. f_equal. unfold Rdiv. ring. }
  unfold growth_from_source. rewrite last_error_map.
  destruct src as [|first rest]; [discriminate|].
  cbn [map hd_error bind].
  destruct (last_error (first :: rest)) as [latest|]; [|discriminate].
  cbn [option_map bind in_trillions date total_wealth].
  rewrite Reqb_div.
  destruct (date latest - date first =? 0)%Z eqn:Hd;
    [intros [= <-]; exists no_growth; auto|].
  destruct (Reqb (total_wealth first) 0) eqn:Hs;
    [intros [= <-]; exists no_growth; auto|].
  cbn [orb]. apply Z.eqb_neq in Hd.
  assert (Hs' : total_wealth first <> 0%R).
  { intros E. apply Reqb_iff in E. congruence. }
  assert (Hq : Finite (total_wealth latest / T) / Finite (total_wealth first / T)
               = Finite (total_wealth latest) / Finite (total_wealth first)).
  { cbn [div]. rewrite Reqb_div, Hs. f_equal. field. split; [assumption|lra]. }
  rewrite Hq. set (cagr := clip _ _ _). clearbody cagr.
  intros E.
  assert (Em : forall x y : growth_metrics, Some x = Some y -> x = y)
    by (intros x y [=]; assumption).
  apply Em in E. subst m. eexists. split; [reflexivity|].
  cbv beta iota delta [growth_rate doubling_time daily_accumulation].
  split; [reflexivity|]. split; [reflexivity|].
  destruct (cagr >? Finite 0); [|exact Hno].
  assert (Hk : Reqb (1000 * IZR (date latest - date first)) 0 = false).
  { apply Reqb_false. apply not_0_IZR in Hd. lra. }
  cbn [sub add opp div]. rewrite Hk. cbn [div]. rewrite HT. f_equal. field.
  repeat split; first [lra | now apply not_0_IZR].
Qed.

(** X5. The growth metrics do not depend on the unit of the totals:
    dividing every total by the same positive constant (dollars into
    trillions) leaves the growth rate and the doubling time as they are,
    and divides the daily accumulation by that constant. *)
Theorem growth_metrics_unit_free (dt : list DailyTotal) :
  exists m m',
    calculate_growth_metrics dt = Some m
    /\ calculate_growth_metrics (map (in_trillions T) dt) = Some m'
    /\ growth_rate m' = growth_rate m
    /\ doubling_time m' = doubling_time m
    /\ daily_accumulation m' = daily_accumulation m / Finite T.
Proof.
  unfold calculate_growth_metrics. rewrite length_map.
  destruct (Nat.ltb_spec (length dt) 2) as [Hlen|Hlen].
  - exists no_growth, no_growth. repeat split.
    simpl. rewrite Reqb_false by lra. f_equal. unfold Rdiv. ring.
  - fold f. rewrite (growth_source_units dt). unfold f.
    destruct (growth_source_ends dt) as [first [latest [Hf Hl]]].
    { destruct dt; [simpl in Hlen; lia|easy]. }
    destruct (growth_from_source_cases _ _ _ Hf Hl) as [m [Hm _]].
    destruct (growth_from_source_units _ _ Hm) as [m' H].
    exists m, m'. split; [assumption|]. exact H.
Qed.

End Units.

(** Six weekly totals in dollars, and in trillions of dollars. *)
Lemma growth_metrics_unit_free_witness :
  exists m m',
    DataLoader.calculate_growth_metrics
      [ {| DataLoader.date := 0; DataLoader.total_wealth := 3e12;
           DataLoader.billionaire_count := 2 |};
        {| DataLoader.date := 7; DataLoader.total_wealth := 4e12;
           DataLoader.billionaire_count := 2 |} ] = Some m
    /\ DataLoader.calculate_growth_metrics
         (map (DataLoader.in_trillions 1e12)
           [ {| DataLoader.date := 0; DataLoader.total_wealth := 3e12;
                DataLoader.billionaire_count := 2 |};
             {| DataLoader.date := 7; DataLoader.total_wealth := 4e12;
                DataLoader.billionaire_count := 2 |} ]) = Some m'
    /\ DataLoader.growth_rate m' = DataLoader.growth_rate m
    /\ DataLoader.doubling_time m' = DataLoader.doubling_time m
    /\ DataLoader.daily_accumulation m'
       = DataLoader.daily_accumulation m / Finite 1e12.
Proof.
  apply (growth_metrics_unit_free 1e12). lra.
Defined.

(** ** The dashboard *)

Section Dashboard.

Import DataLoader.

Lemma calculate_growth_metrics_total (dt : list DailyTotal) :
  exists m, calculate_growth_metrics dt = Some m.
Proof.
  unfold calculate_growth_metrics.
  destruct (Nat.ltb_spec (length dt) 2) as [Hlen|Hlen]; [eauto|].
  destruct (growth_source_ends dt) as [first [latest [Hf Hl]]].
  { destruct dt; [simpl in Hlen; lia|easy]. }
  destruct (growth_from_source_cases _ _ _ Hf Hl) as [m [Hm _]]. eauto.
Qed.

Lemma hd_error_map_opt {A B : Type} (h : A -> B) (l : list A) :
  hd_error (map h l) = option_map h (hd_error l).
Proof. now destruct l. Qed.

Lemma last_error_cons {A : Type} (a b : A) (l : list A) :
  last_error (a :: b :: l) = last_error (b :: l).
Proof. unfold last_error. cbn [length]. now rewrite !Nat.sub_succ, !Nat.sub_0_r. Qed.

Lemma last_error_In {A : Type} (l : list A) (b : A) :
  last_error l = Some b -> In b l.
Proof. apply nth_error_In. Qed.

Lemma sorted_hd_min (l : list Z) (a : Z) :
  StronglySorted Z.lt l -> hd_error l = Some a ->
  forall x, In x l -> (a <= x)%Z.
Proof.
  intros Hs Ha x Hx. destruct Hs as [|a' l Hs Hall]; [discriminate|].
  injection Ha as ->. destruct Hx as [->|Hx]; [lia|].
  rewrite Forall_forall in Hall. apply Hall in Hx. lia.
Qed.

Lemma sorted_last_max (l : list Z) (b : Z) :
  StronglySorted Z.lt l -> last_error l = Some b ->
  forall x, In x l -> (x <= b)%Z.
Proof.
  induction 1 as [|a l Hs IH Hall]; intros Hb x Hx; [destruct Hx|].
  destruct l as [|a' l].
  - injection Hb as <-. destruct Hx as [->|[]]. lia.
  - rewrite last_error_cons in Hb. destruct Hx as [<-|Hx]; [|now apply IH].
    rewrite Forall_forall in Hall. apply last_error_In, Hall in Hb. lia.
Qed.

Lemma int_of_INR (n : nat) : int_of (INR n) = Z.of_nat n.
Proof.
  unfold int_of. rewrite Rltb_false by apply pos_INR.
  rewrite INR_IZR_INZ. apply ZfloorZ.
Qed.

Lemma pct_change_scale (k new old : R) :
  k <> 0%R -> pct_change (new / k) (old / k) = pct_change new old.
Proof.
  intros Hk. unfold pct_change.
  destruct (Req_dec old 0) as [->|Ho].
  - rewrite !Reqb_true; [reflexivity|reflexivity|unfold Rdiv; ring].
  - rewrite !Reqb_false; [field; split; assumption|assumption|].
    intros E. apply Ho. apply Rmult_eq_reg_r with (/ k)%R.
    + unfold Rdiv in E. rewrite E. ring.
    + now apply Rinv_neq_0_compat.
Qed.

Lemma daily_rows_nonempty (df : list Snapshot) : df <> [] -> daily_rows df <> [].
Proof.
  intros Hne E. destruct df as [|s df]; [easy|].
  assert (H : In (crawl_date s) (map date (daily_rows (s :: df)))).
  { rewrite daily_rows_dates. apply group_keys_In. now left. }
  rewrite E in H. destruct H.
Qed.

Lemma daily_rows_row (df : list Snapshot) (r : DailyTotal) :
  In r (daily_rows df) ->
  total_wealth r = Rsum (map finalWorth (on_date df (date r)))
  /\ billionaire_count r = INR (nunique (map personName (on_date df (date r))))
  /\ on_date df (date r) <> [].
Proof.
  unfold daily_rows. intros H. apply in_map_iff in H as [d [<- Hd]].
  cbn [date total_wealth billionaire_count]. repeat split.
  apply group_keys_In, in_map_iff in Hd as [s [Hs Hin]]. intros E.
  assert (H : In s (on_date df d))
    by (apply filter_In; split; [assumption|now apply Z.eqb_eq]).
  rewrite E in H. destruct H.
Qed.

(** What [calculate_metrics] returns on records: the first and the last
    daily row give the dates, and the metrics are those of
    [_compute_all_metrics]. *)
Lemma calculate_metrics_Some (T : R) (df : list Snapshot) :
  df <> [] ->
  exists first latest ms,
    hd_error (daily_rows df) = Some first
    /\ last_error (daily_rows df) = Some latest
    /\ compute_all_metrics T first latest (daily_rows df) = Some ms
    /\ calculate_metrics T df
       = Some {| metrics := ms;
                 last_updated := date latest;
                 data_start_date := date first;
                 data_end_date := date latest;
                 data_days_span := (date latest - date first)%Z;
                 data_points := length (daily_rows df);
                 time_series := map (in_trillions T) (daily_rows df) |}.
Proof.
  intros Hne. apply daily_rows_nonempty in Hne.
  destruct (last_error_Some _ Hne) as [latest Hl].
  destruct (daily_rows df) as [|first rest] eqn:E; [easy|].
  destruct (calculate_growth_metrics_total (first :: rest)) as [gm Hgm].
  exists first, latest. eexists. split; [reflexivity|]. split; [assumption|].
  unfold calculate_metrics. rewrite compute_daily_totals_rows, E, Hl.
  unfold compute_all_metrics. rewrite Hgm. cbn [hd_error option_map bind].
  split; reflexivity.
Qed.

(** X6. [calculate_metrics] fails exactly on an input without records.
    Otherwise the start and end dates it reports are dates of the input,
    the earliest and the latest one; the span between them is not
    negative; the last update is the end date; and the time series has
    one point per distinct date, in increasing order of date. *)
Theorem calculate_metrics_dates (T : R) (df : list Snapshot) :
  match calculate_metrics T df with
  | None => df = []
  | Some d =>
      df <> []
      /\ In (data_start_date d) (map crawl_date df)
      /\ In (data_end_date d) (map crawl_date df)
      /\ (forall s, In s df ->
            (data_start_date d <= crawl_date s <= data_end_date d)%Z)
      /\ data_days_span d = (data_end_date d - data_start_date d)%Z
      /\ (0 <= data_days_span d)%Z
      /\ last_updated d = data_end_date d
      /\ map date (time_series d) = group_keys (map crawl_date df)
      /\ data_points d = length (group_keys (map crawl_date df))
  end.
Proof.
  destruct df as [|s0 df]; [reflexivity|].
  destruct (calculate_metrics_Some T (s0 :: df)) as
    [first [latest [ms [Hf [Hl [_ ->]]]]]]; [easy|].
  cbn [data_start_date data_end_date data_days_span last_updated time_series
       data_points].
  set (ks := group_keys (map crawl_date (s0 :: df))).
  assert (Hks : map date (daily_rows (s0 :: df)) = ks) by apply daily_rows_dates.
  assert (Hsorted : StronglySorted Z.lt ks) by apply group_keys_sorted.
  assert (Hhd : hd_error ks = Some (date first))
    by (rewrite <- Hks, hd_error_map_opt, Hf; reflexivity).
  assert (Hlast : last_error ks = Some (date latest))
    by (rewrite <- Hks, last_error_map, Hl; reflexivity).
  assert (Hin : forall s, In s (s0 :: df) ->
                  (date first <= crawl_date s <= date latest)%Z).
  { intros s Hs.
    assert (Hk : In (crawl_date s) ks) by (apply group_keys_In; now apply in_map).
    split; [now apply (sorted_hd_min ks)|now apply (sorted_last_max ks)]. }
  split; [easy|]. split; [|split; [|split; [assumption|]]].
  - apply (group_keys_In (date first)). fold ks.
    destruct ks; [discriminate|]. injection Hhd as ->. now left.
  - apply (group_keys_In (date latest)). fold ks. now apply last_error_In.
  - split; [reflexivity|]. split; [specialize (Hin s0 (or_introl eq_refl)); lia|].
    split; [reflexivity|]. split.
    + rewrite map_map. exact Hks.
    + now rewrite <- Hks, length_map.
Qed.

Lemma Some_eq {A : Type} (x y : A) : Some x = Some y -> x = y.
Proof. now intros [=]. Qed.

Lemma hd_error_In {A : Type} (l : list A) (a : A) : hd_error l = Some a -> In a l.
Proof. destruct l; [discriminate|]. intros [= ->]. now left. Qed.

(** X7. On records, with a unit that is not zero, the headline metrics are
    those of the latest date: the number of distinct names on that date (at
    least one), their total net worth in the unit, and an average that
    multiplied by the count gives the total again.  The increase of the
    wealth in percent compares the latest date with the earliest one and
    does not depend on the unit. *)
Theorem calculate_metrics_values (T : R) (df : list Snapshot) :
  T <> 0%R -> df <> [] ->
  exists d, calculate_metrics T df = Some d
  /\ let latest := on_date df (data_end_date d) in
     let first := on_date df (data_start_date d) in
     let m := metrics d in
     billionaire_count_now m = Z.of_nat (nunique (map personName latest))
     /\ (1 <= billionaire_count_now m)%Z
     /\ total_wealth_trillions m = (Rsum (map finalWorth latest) / T)%R
     /\ (average_wealth_billions m * IZR (billionaire_count_now m)
         = total_wealth_trillions m * 1000)%R
     /\ wealth_increase_pct m
        = pct_change (Rsum (map finalWorth latest)) (Rsum (map finalWorth first))
     /\ billionaire_increase_count m
        = (Z.of_nat (nunique (map personName latest))
           - Z.of_nat (nunique (map personName first)))%Z.
Proof.
  intros HT Hne.
  destruct (calculate_metrics_Some T df Hne) as
    [first [latest [ms [Hf [Hl [Hms ->]]]]]].
  eexists. split; [reflexivity|].
  cbn [data_start_date data_end_date metrics]. cbv zeta.
  unfold compute_all_metrics in Hms.
  destruct (calculate_growth_metrics_total (daily_rows df)) as [gm Hgm].
  rewrite Hgm in Hms. cbn [bind] in Hms. apply Some_eq in Hms. subst ms.
  cbv beta iota delta [billionaire_count_now total_wealth_trillions
                       average_wealth_billions wealth_increase_pct
                       billionaire_increase_count].
  destruct (daily_rows_row df first (hd_error_In _ _ Hf)) as [Hft [Hfc _]].
  destruct (daily_rows_row df latest (last_error_In _ _ Hl)) as [Hlt [Hlc Hlne]].
  rewrite Hfc, Hlc, Hft, Hlt, !int_of_INR.
  assert (Hpos : (1 <= nunique (map personName (on_date df (date latest))))%nat).
  { apply nunique_pos. intros E. now apply map_eq_nil in E. }
  set (n := nunique (map personName (on_date df (date latest)))) in *.
  split; [reflexivity|]. split; [lia|]. split; [reflexivity|].
  split; [|split; [now apply pct_change_scale|reflexivity]].
  destruct (Z.eqb_spec (Z.of_nat n) 0) as [E|E]; [lia|].
  field. split; [assumption|now apply not_0_IZR].
Qed.

End Dashboard.

(** Two people on the first day, one on the second, in units of ten. *)
Lemma calculate_metrics_values_witness :
  exists d,
    DataLoader.calculate_metrics 10
      [ {| DataLoader.crawl_date := 1; DataLoader.finalWorth := 30;
           DataLoader.personName := "a" |};
        {| DataLoader.crawl_date := 1; DataLoader.finalWorth := 20;
           DataLoader.personName := "b" |};
        {| DataLoader.crawl_date := 2; DataLoader.finalWorth := 60;
           DataLoader.personName := "a" |} ] = Some d
    /\ (1 <= DataLoader.billionaire_count_now (DataLoader.metrics d))%Z.
Proof.
  destruct (calculate_metrics_values 10
      [ {| DataLoader.crawl_date := 1; DataLoader.finalWorth := 30;
           DataLoader.personName := "a" |};
        {| DataLoader.crawl_date := 1; DataLoader.finalWorth := 20;
           DataLoader.personName := "b" |};
        {| DataLoader.crawl_date := 2; DataLoader.finalWorth := 60;
           DataLoader.personName := "a" |} ]) as [d [Hd H]].
  - lra.
  - discriminate.
  - exists d. split; [exact Hd|].
    exact (proj1 (proj2 H)).
Defined.

(* ====================================================================== *)
(** * Further properties of the chart data *)

Section PreparedFrame.

Import ChartDataProcessor.

Lemma sorted_le_hd_min (l : list Z) (a : Z) :
  StronglySorted Z.le l -> hd_error l = Some a ->
  forall x, In x l -> (a <= x)%Z.
Proof.
  intros Hs Ha x Hx. destruct Hs as [|a' l Hs Hall]; [discriminate|].
  injection Ha as ->. destruct Hx as [->|Hx]; [lia|].
  rewrite Forall_forall in Hall. now apply Hall.
Qed.

Lemma sorted_le_last_max (l : list Z) (b : Z) :
  StronglySorted Z.le l -> last_error l = Some b ->
  forall x, In x l -> (x <= b)%Z.
Proof.
  induction 1 as [|a l Hs IH Hall]; intros Hb x Hx; [destruct Hx|].
  destruct l as [|a' l].
  - injection Hb as <-. destruct Hx as [->|[]]. lia.
  - rewrite last_error_cons in Hb. destruct Hx as [<-|Hx]; [|now apply IH].
    rewrite Forall_forall in Hall. now apply last_error_In, Hall in Hb.
Qed.

Lemma fold_Zmax_In (l : list Z) (x : Z) :
  fold_left Z.max l x = x \/ In (fold_left Z.max l x) l.
Proof.
  revert x. induction l as [|y l IH]; intros x; [now left|].
  cbn [fold_left]. destruct (IH (Z.max x y)) as [E|Hin].
  - rewrite E. destruct (Z.max_spec x y) as [[_ ->]|[_ ->]];
      [right; now left|now left].
  - right. now right.
Qed.

Lemma fold_Zmax_upper (l : list Z) (x : Z) :
  forall y, In y l -> (y <= fold_left Z.max l x)%Z.
Proof.
  revert x. induction l as [|z l IH]; intros x y Hy; [destruct Hy|].
  cbn [fold_left]. destruct Hy as [->|Hy]; [|now apply IH].
  pose proof (fold_Zmax_ge l (Z.max x y)). lia.
Qed.

(** The largest element of a sorted list is its last one. *)
Lemma Zmax_list_last (l : list Z) (b : Z) :
  StronglySorted Z.le l -> last_error l = Some b -> Zmax_list l = b.
Proof.
  intros Hs Hb. pose proof (sorted_le_last_max l b Hs Hb) as Hmax.
  pose proof (last_error_In _ _ Hb) as Hin.
  destruct l as [|x l]; [destruct Hin|]. cbn [Zmax_list].
  assert (Hge : (b <= fold_left Z.max l x)%Z).
  { destruct Hin as [->|Hin]; [apply fold_Zmax_ge|now apply fold_Zmax_upper]. }
  assert (Hle : (fold_left Z.max l x <= b)%Z).
  { destruct (fold_Zmax_In l x) as [->|H];
      [apply Hmax; now left|apply Hmax; now right]. }
  lia.
Qed.

Lemma prepare_Some (ts : list DataLoader.DailyTotal) :
  ts <> [] ->
  exists first,
    hd_error (sort_values DataLoader.date ts) = Some first
    /\ prepare ts
       = Some (map (chart_row_of (DataLoader.date first))
                   (sort_values DataLoader.date ts)).
Proof.
  intros Hne. unfold prepare.
  destruct (sort_values DataLoader.date ts) as [|first rest] eqn:E.
  - pose proof (sort_values_perm DataLoader.date ts) as Hp. rewrite E in Hp.
    apply Permutation_sym, Permutation_nil in Hp. contradiction.
  - exists first. split; reflexivity.
Qed.

(** X8. Preparing the timeline fails exactly on an empty series.  Otherwise
    the frame holds the points of the series in order of date; the range it
    reports starts at the earliest date and ends at the latest; every row
    is at its day offset from the start, which is not negative; and the
    number of days of the range is the largest offset, the one the trend
    line is drawn up to. *)
Theorem prepared_frame (ts : list DataLoader.DailyTotal) :
  match prepare ts with
  | None => ts = []
  | Some df =>
      ts <> []
      /\ Permutation (nominal_data df)
           (map (fun r => (DataLoader.date r, DataLoader.total_wealth r)) ts)
      /\ StronglySorted Z.le (map date df)
      /\ exists range,
           get_time_range df = Some range
           /\ Forall (fun r => (range_start range <= date r <= range_end range)%Z
                               /\ date r = (range_start range + days_from_start r)%Z
                               /\ (0 <= days_from_start r)%Z) df
           /\ totalDays range = Zmax_list (map days_from_start df)
           /\ totalDays range = (range_end range - range_start range)%Z
  end.
Proof.
  destruct ts as [|r0 ts]; [reflexivity|].
  destruct (prepare_Some (r0 :: ts)) as [first [Hf ->]]; [easy|].
  set (sorted := sort_values DataLoader.date (r0 :: ts)) in *.
  set (d0 := DataLoader.date first).
  assert (Hdates : map date (map (chart_row_of d0) sorted)
                   = map DataLoader.date sorted) by (now rewrite map_map).
  assert (Hs : StronglySorted Z.le (map DataLoader.date sorted))
    by apply sort_values_is_sorted.
  assert (Hne : sorted <> []) by (intros E; rewrite E in Hf; discriminate).
  destruct (last_error_Some _ Hne) as [latest Hl].
  assert (Hmin : forall r, In r sorted -> (d0 <= DataLoader.date r)%Z).
  { intros r Hr. apply (sorted_le_hd_min (map DataLoader.date sorted));
      [assumption|now rewrite hd_error_map_opt, Hf|now apply in_map]. }
  assert (Hmax : forall r, In r sorted ->
                   (DataLoader.date r <= DataLoader.date latest)%Z).
  { intros r Hr. apply (sorted_le_last_max (map DataLoader.date sorted));
      [assumption|now rewrite last_error_map, Hl|now apply in_map]. }
  split; [easy|]. split; [|split; [now rewrite Hdates|]].
  - unfold nominal_data. rewrite map_map. cbn [chart_row_of date total_wealth].
    apply Permutation_map, Permutation_sym, sort_values_perm.
  - eexists. split; [|split; [|split]].
    + unfold get_time_range.
      rewrite hd_error_map_opt, last_error_map, Hf, Hl. reflexivity.
    + cbn [range_start range_end chart_row_of date]. apply Forall_map, Forall_forall.
      intros r Hr. cbn [chart_row_of date days_from_start].
      specialize (Hmin r Hr). specialize (Hmax r Hr). fold d0. lia.
    + cbn [totalDays chart_row_of date]. symmetry. apply Zmax_list_last.
      * rewrite map_map. cbn [chart_row_of days_from_start].
        clear -Hs. induction sorted as [|r l IH]; [constructor|].
        cbn [map] in *. apply StronglySorted_inv in Hs as [Hs Hall].
        constructor; [now apply IH|].
        rewrite Forall_map in *. eapply Forall_impl; [|exact Hall].
        intros; simpl in *; lia.
      * now rewrite !last_error_map, Hl.
    + reflexivity.
Qed.

End PreparedFrame.

(** ** The chart of the dashboard's time series *)

Section DashboardChart.

Import ChartDataProcessor.

Lemma compute_all_metrics_Some (T : R) (first latest : DataLoader.DailyTotal)
      (dr : list DataLoader.DailyTotal) (ms : DataLoader.all_metrics) :
  DataLoader.compute_all_metrics T first latest dr = Some ms ->
  DataLoader.total_wealth_trillions ms = (DataLoader.total_wealth latest / T)%R
  /\ DataLoader.wealth_increase_pct ms
     = DataLoader.pct_change (DataLoader.total_wealth latest / T)
                             (DataLoader.total_wealth first / T).
Proof.
  unfold DataLoader.compute_all_metrics.
  destruct (DataLoader.calculate_growth_metrics dr); [|discriminate].
  cbn [bind]. intros H. apply Some_eq in H. subst ms. split; reflexivity.
Qed.

(** X9. The chart drawn from the dashboard's time series agrees with the
    dashboard: the summary counts the same number of points between the
    same two dates, the range has the same number of days, the end value is
    the total wealth of the metrics, and the total increase is the
    dashboard's wealth increase in percent whenever the start value is not
    zero. *)
Theorem chart_summary_agrees (T : R) (df : list DataLoader.Snapshot)
        (fit : fit_params) :
  T <> 0%R -> df <> [] ->
  exists d rows summary range,
    DataLoader.calculate_metrics T df = Some d
    /\ prepare (DataLoader.time_series d) = Some rows
    /\ get_summary_stats rows fit = Some summary
    /\ get_time_range rows = Some range
    /\ dataPoints summary = DataLoader.data_points d
    /\ timespan summary
       = (DataLoader.data_start_date d, DataLoader.data_end_date d)
    /\ totalDays range = DataLoader.data_days_span d
    /\ endValue summary = DataLoader.total_wealth_trillions (DataLoader.metrics d)
    /\ (startValue summary <> 0%R ->
        totalIncrease summary
        = Finite (DataLoader.wealth_increase_pct (DataLoader.metrics d))).
Proof.
  intros _ Hne.
  destruct (calculate_metrics_Some T df Hne) as
    [first [latest [ms [Hf [Hl [Hms Hd]]]]]].
  destruct (compute_all_metrics_Some _ _ _ _ _ Hms) as [Hw Hp].
  set (dr := DataLoader.daily_rows df) in *.
  set (ts := map (DataLoader.in_trillions T) dr).
  assert (Hsort : sort_values DataLoader.date ts = ts).
  { apply sort_values_sorted. unfold ts. rewrite map_map.
    cbn [DataLoader.in_trillions DataLoader.date].
    change (StronglySorted Z.le (map DataLoader.date dr)).
    unfold dr. rewrite daily_rows_dates. apply sorted_lt_le, group_keys_sorted. }
  set (d0 := DataLoader.date first).
  set (rows := map (chart_row_of d0) ts).
  assert (Hrows : prepare ts = Some rows).
  { unfold prepare. rewrite Hsort. unfold ts at 1.
    rewrite hd_error_map_opt, Hf. reflexivity. }
  assert (Hhd : hd_error rows
                = Some (chart_row_of d0 (DataLoader.in_trillions T first)))
    by (unfold rows, ts; rewrite !hd_error_map_opt, Hf; reflexivity).
  assert (Hlast : last_error rows
                  = Some (chart_row_of d0 (DataLoader.in_trillions T latest)))
    by (unfold rows, ts; rewrite !last_error_map, Hl; reflexivity).
  eexists. exists rows. eexists. eexists.
  split; [exact Hd|]. cbn [DataLoader.time_series]. split; [exact Hrows|].
  split; [unfold get_summary_stats; rewrite Hhd, Hlast; reflexivity|].
  split; [unfold get_time_range; rewrite Hhd, Hlast; reflexivity|].
  cbn [dataPoints timespan totalDays endValue startValue totalIncrease
       DataLoader.data_points DataLoader.data_start_date
       DataLoader.data_end_date DataLoader.data_days_span DataLoader.metrics
       chart_row_of DataLoader.in_trillions date total_wealth
       DataLoader.date DataLoader.total_wealth].
  split; [unfold rows, ts; now rewrite !length_map|].
  split; [reflexivity|]. split; [reflexivity|]. split; [now rewrite Hw|].
  intros Hs. rewrite Hp. unfold DataLoader.pct_change.
  rewrite Reqb_false by assumption.
  cbn [sub add opp]. rewrite div_finite by assumption. reflexivity.
Qed.

End DashboardChart.

(** One person on each of two days. *)
Lemma chart_summary_agrees_witness :
  exists d rows summary,
    DataLoader.calculate_metrics 10
      [ {| DataLoader.crawl_date := 1; DataLoader.finalWorth := 30;
           DataLoader.personName := "a" |};
        {| DataLoader.crawl_date := 2; DataLoader.finalWorth := 60;
           DataLoader.personName := "a" |} ] = Some d
    /\ ChartDataProcessor.prepare (DataLoader.time_series d) = Some rows
    /\ ChartDataProcessor.get_summary_stats
         rows ChartDataProcessor.degenerate_fit = Some summary
    /\ ChartDataProcessor.dataPoints summary = DataLoader.data_points d.
Proof.
  destruct (chart_summary_agrees 10
      [ {| DataLoader.crawl_date := 1; DataLoader.finalWorth := 30;
           DataLoader.personName := "a" |};
        {| DataLoader.crawl_date := 2; DataLoader.finalWorth := 60;
           DataLoader.personName := "a" |} ]
      ChartDataProcessor.degenerate_fit)
    as [d [rows [summary [range [H1 [H2 [H3 [_ [H5 _]]]]]]]]].
  - lra.
  - discriminate.
  - exists d, rows, summary. repeat split; assumption.
Defined.

(** ** The exponential fit on exact and on rescaled data *)

Section ExactFit.

Import ChartDataProcessor.

Variable np_mean : list R -> R.

(** The points of the fit: day offset and logarithm of the total. *)
Let points (df : list chart_row) : list (R * R) :=
  map (fun r => (IZR (days_from_start r), ln (total_wealth r))) (valid_rows df).

Lemma fit_of_points (df : list chart_row) :
  (2 <= length (valid_rows df))%nat ->
  calculate_exponential_fit np_mean df
  = let x := map fst (points df) in
    let y := map snd (points df) in
    line <- polyfit1 x y ;;
    Some {| a := exp (snd line);
            b := fst line;
            r_squared :=
              if Rltb 0 (ss_tot_about (np_mean y) y)
              then (1 - ss_res_of x y (fst line) (snd line)
                        / ss_tot_about (np_mean y) y)%R
              else 0%R;
            annualGrowthRate := ((exp (fst line * 365.25) - 1) * 100)%R |}.
Proof.
  intros Hlen. unfold calculate_exponential_fit, points.
  destruct (Nat.ltb_spec (length (valid_rows df)) 2); [lia|].
  rewrite !map_map. reflexivity.
Qed.

Lemma Rsum_line (B C : R) (l : list (R * R)) :
  Forall (fun p => snd p = (B * fst p + C)%R) l ->
  Rsum (map snd l) = (B * Rsum (map fst l) + INR (length l) * C)%R.
Proof.
  induction 1 as [|p l Hp _ IH]; [simpl; ring|].
  cbn [map length]. rewrite !Rsum_cons, S_INR, IH, Hp. ring.
Qed.

Lemma INR_length_pos {A : Type} (l : list A) : l <> [] -> (0 < INR (length l))%R.
Proof. destruct l; [easy|]. intros _. apply lt_0_INR. simpl. lia. Qed.

Lemma mean_line (B C : R) (l : list (R * R)) :
  l <> [] -> Forall (fun p => snd p = (B * fst p + C)%R) l ->
  mean (map snd l) = (B * mean (map fst l) + C)%R.
Proof.
  intros Hne Hl. unfold mean. rewrite (Rsum_line B C) by assumption.
  rewrite !length_map. apply INR_length_pos in Hne. field. lra.
Qed.

Lemma Rsum_ext_in {A : Type} (u v : A -> R) (l : list A) :
  (forall p, In p l -> u p = v p) -> Rsum (map u l) = Rsum (map v l).
Proof. intros H. f_equal. now apply map_ext_in. Qed.

(** Two different abscissas: the abscissas have a positive variance. *)
Lemma distinct_abscissas (l : list (R * R)) (p1 p2 : R * R) :
  In p1 l -> In p2 l -> fst p1 <> fst p2 ->
  Rsum (map (fun p => sq (fst p - mean (map fst l))) l) <> 0%R.
Proof.
  intros H1 H2 Hne E. apply Rsum_squares_zero in E.
  rewrite Forall_forall in E.
  pose proof (E p1 H1) as E1. pose proof (E p2 H2) as E2.
  cbv beta in E1, E2. apply Hne. lra.
Qed.

(** Points on a line are fitted by that line. *)
Lemma exact_line_fit (B C : R) (l : list (R * R)) :
  l <> [] -> Forall (fun p => snd p = (B * fst p + C)%R) l ->
  Rsum (map (fun p => sq (fst p - mean (map fst l))) l) <> 0%R ->
  polyfit1 (map fst l) (map snd l) = Some (B, C)
  /\ ss_res_of (map fst l) (map snd l) B C = 0%R
  /\ ss_tot_of (map snd l)
     = (B * B * Rsum (map (fun p => sq (fst p - mean (map fst l))) l))%R.
Proof.
  intros Hne Hl Hxx. pose proof (mean_line B C l Hne Hl) as Hmy.
  rewrite Forall_forall in Hl.
  unfold polyfit1, ss_res_of, ss_tot_of. rewrite combine_fst_snd, !map_map.
  set (mx := mean (map fst l)) in *. rewrite Hmy.
  set (sxx := Rsum (map (fun p => sq (fst p - mx)) l)) in *.
  assert (Hxy : Rsum (map (fun p => ((fst p - mx) * (snd p - (B * mx + C)))%R) l)
                = (B * sxx)%R).
  { unfold sxx. rewrite <- Rsum_scal. apply Rsum_ext_in. intros p Hp.
    rewrite (Hl p Hp). unfold sq. ring. }
  rewrite Hxy, Reqb_false by assumption. split; [|split].
  - f_equal. f_equal; field; assumption.
  - rewrite (Rsum_ext_in _ (fun _ => 0%R)).
    + clear. induction l as [|p l IH]; [reflexivity|].
      cbn [map]. rewrite Rsum_cons, IH. ring.
    + intros p Hp. rewrite (Hl p Hp). unfold sq. ring.
  - unfold sxx. rewrite <- Rsum_scal. apply Rsum_ext_in. intros p Hp.
    rewrite (Hl p Hp). unfold sq. ring.
Qed.

Lemma two_rows {A : Type} (r1 r2 : A) (l : list A) :
  In r1 l -> In r2 l -> r1 <> r2 -> (2 <= length l)%nat.
Proof.
  intros H1 H2 Hne. destruct l as [|x [|y l]]; simpl in *; [easy| |lia].
  destruct H1 as [<-|[]], H2 as [<-|[]]. contradiction.
Qed.

Lemma filter_all_true {A : Type} (q : A -> bool) (l : list A) :
  Forall (fun x => q x = true) l -> filter q l = l.
Proof.
  induction 1 as [|x l Hx _ IH]; [reflexivity|].
  cbn [filter]. now rewrite Hx, IH.
Qed.

(** X10. Totals that grow exactly exponentially, [A * exp (B * day)] with
    [A] positive, on at least two different days, are fitted exactly: the
    fit returns [a = A] and [b = B], the annual growth rate of [B], and,
    when the totals are not constant ([B] not 0), a coefficient of
    determination of 1. *)
Theorem exact_exponential_recovered (A B : R) (df : list chart_row)
        (r1 r2 : chart_row) :
  (0 < A)%R ->
  Forall (fun r => total_wealth r = (A * exp (B * IZR (days_from_start r)))%R) df ->
  In r1 df -> In r2 df -> days_from_start r1 <> days_from_start r2 ->
  exists fit,
    calculate_exponential_fit np_mean df = Some fit
    /\ a fit = A
    /\ b fit = B
    /\ annualGrowthRate fit = ((exp (B * 365.25) - 1) * 100)%R
    /\ (B <> 0%R -> r_squared fit = 1%R).
Proof.
  intros HA Hdf H1 H2 Hdays.
  assert (Hvalid : valid_rows df = df).
  { apply filter_all_true. eapply Forall_impl; [|exact Hdf].
    intros r Hr. cbv beta in Hr. apply Rltb_true. rewrite Hr.
    apply Rmult_lt_0_compat; [assumption|apply exp_pos]. }
  assert (Hlen : (2 <= length (valid_rows df))%nat).
  { rewrite Hvalid. apply (two_rows r1 r2); [assumption|assumption|congruence]. }
  rewrite (fit_of_points df Hlen). unfold points. rewrite Hvalid.
  set (l := map (fun r => (IZR (days_from_start r), ln (total_wealth r))) df).
  assert (Hl : Forall (fun p => snd p = (B * fst p + ln A)%R) l).
  { unfold l. apply Forall_map. eapply Forall_impl; [|exact Hdf].
    intros r Hr. cbv beta in Hr. cbn [fst snd]. rewrite Hr.
    rewrite ln_mult by (assumption || apply exp_pos). rewrite ln_exp. ring. }
  assert (Hne : l <> []).
  { unfold l. destruct df; [destruct H1|discriminate]. }
  set (sxx := Rsum (map (fun p => sq (fst p - mean (map fst l))) l)).
  assert (Hxx : sxx <> 0%R).
  { apply (distinct_abscissas l
             (IZR (days_from_start r1), ln (total_wealth r1))
             (IZR (days_from_start r2), ln (total_wealth r2))).
    - unfold l. now apply (in_map (fun r => (IZR (days_from_start r),
                                              ln (total_wealth r)))).
    - unfold l. now apply (in_map (fun r => (IZR (days_from_start r),
                                              ln (total_wealth r)))).
    - cbn [fst]. intros E. now apply Hdays, eq_IZR. }
  destruct (exact_line_fit B (ln A) l Hne Hl Hxx) as [-> [Hres Htot]].
  fold sxx in Htot. cbv zeta. cbn [bind fst snd]. rewrite Hres.
  eexists. split; [reflexivity|]. cbn [a b r_squared annualGrowthRate].
  split; [apply exp_ln; assumption|]. split; [reflexivity|].
  split; [reflexivity|]. intros HB.
  assert (Hpos : (0 <= sxx)%R)
    by apply (Rsum_squares_nonneg (fun p => (fst p - mean (map fst l))%R)).
  assert (Hvar : (0 < ss_tot_of (map snd l))%R).
  { rewrite Htot. apply Rmult_lt_0_compat; [nra|lra]. }
  assert (Hyne : map snd l <> []).
  { intros E. apply map_eq_nil in E. contradiction. }
  pose proof (ss_tot_about_ge (np_mean (map snd l)) (map snd l) Hyne) as Hge.
  rewrite Rltb_true by lra. field. lra.
Qed.

Lemma Rsum_shift {A : Type} (c : R) (v : A -> R) (l : list A) :
  Rsum (map (fun p => v p + c)%R l) = (Rsum (map v l) + INR (length l) * c)%R.
Proof.
  induction l as [|p l IH]; [simpl; ring|].
  cbn [map length]. rewrite !Rsum_cons, S_INR, IH. ring.
Qed.

(** Adding a constant to the ordinates of points whose abscissas differ
    adds it to the intercept and leaves the slope as it is. *)
Lemma shifted_line_fit (c : R) (l : list (R * R)) :
  l <> [] ->
  Rsum (map (fun p => sq (fst p - mean (map fst l))) l) <> 0%R ->
  exists s i,
    polyfit1 (map fst l) (map snd l) = Some (s, i)
    /\ polyfit1 (map fst l) (map (fun p => snd p + c)%R l)
       = Some (s, (i + c)%R).
Proof.
  intros Hne Hxx.
  assert (Hl' : combine (map fst l) (map (fun p => snd p + c)%R l)
                = map (fun p => (fst p, (snd p + c)%R)) l).
  { clear. induction l as [|p l IH]; [reflexivity|].
    cbn [map combine]. now rewrite IH. }
  assert (Hmean : mean (map (fun p => snd p + c)%R l) = (mean (map snd l) + c)%R).
  { unfold mean. rewrite Rsum_shift, !length_map.
    apply INR_length_pos in Hne. field. lra. }
  unfold polyfit1.
  rewrite Hl', Hmean, combine_fst_snd, !map_map. cbn [fst snd].
  set (mx := mean (map fst l)) in *. set (my := mean (map snd l)).
  rewrite Reqb_false by assumption.
  rewrite (Rsum_ext_in
             (fun p => ((fst p - mx) * (snd p + c - (my + c)))%R)
             (fun p => ((fst p - mx) * (snd p - my))%R))
    by (intros; ring).
  eexists _, _. split; [reflexivity|]. f_equal. f_equal. ring.
Qed.

(** X11. The fit does not depend on the unit of the totals.  When two
    positive totals lie on different days, multiplying every total by the
    same positive constant leaves the exponent [b] and the annual growth
    rate as they are and multiplies [a] by the constant. *)
Theorem exponential_fit_unit_free (k : R) (df : list chart_row)
        (r1 r2 : chart_row) :
  (0 < k)%R ->
  In r1 df -> In r2 df ->
  (0 < total_wealth r1)%R -> (0 < total_wealth r2)%R ->
  days_from_start r1 <> days_from_start r2 ->
  let scaled :=
    map (fun r => {| date := date r;
                     total_wealth := (k * total_wealth r)%R;
                     days_from_start := days_from_start r |}) df in
  exists fit fit',
    calculate_exponential_fit np_mean df = Some fit
    /\ calculate_exponential_fit np_mean scaled = Some fit'
    /\ b fit' = b fit
    /\ annualGrowthRate fit' = annualGrowthRate fit
    /\ a fit' = (k * a fit)%R.
Proof.
  intros Hk H1 H2 Hp1 Hp2 Hdays. cbv zeta.
  set (h := fun r => {| date := date r;
                        total_wealth := (k * total_wealth r)%R;
                        days_from_start := days_from_start r |}).
  assert (Hvalid : valid_rows (map h df) = map h (valid_rows df)).
  { apply filter_map_comm. intros r. unfold h. cbn [total_wealth].
    destruct (Rlt_dec 0 (total_wealth r)) as [Hr|Hr].
    - rewrite !Rltb_true; [reflexivity|assumption|].
      now apply Rmult_lt_0_compat.
    - rewrite !Rltb_false; [reflexivity|lra|nra]. }
  assert (Hv1 : In r1 (valid_rows df))
    by (apply filter_In; split; [assumption|now apply Rltb_true]).
  assert (Hv2 : In r2 (valid_rows df))
    by (apply filter_In; split; [assumption|now apply Rltb_true]).
  assert (Hlen : (2 <= length (valid_rows df))%nat)
    by (apply (two_rows r1 r2); [assumption|assumption|congruence]).
  assert (Hlen' : (2 <= length (valid_rows (map h df)))%nat)
    by now rewrite Hvalid, length_map.
  rewrite (fit_of_points df Hlen), (fit_of_points (map h df) Hlen').
  assert (Hpts : points (map h df)
                 = map (fun p => (fst p, (snd p + ln k)%R)) (points df)).
  { unfold points. rewrite Hvalid, !map_map. apply map_ext_in. intros r Hr.
    apply filter_In in Hr as [_ Hr]. apply Rltb_iff in Hr.
    unfold h. cbn [total_wealth days_from_start fst snd].
    rewrite ln_mult by assumption. f_equal. ring. }
  rewrite Hpts. set (l := points df). rewrite !map_map. cbn [fst snd].
  change (map (fun x => fst x) l) with (map fst l).
  assert (Hne : l <> []).
  { unfold l, points. destruct (valid_rows df); [simpl in Hlen; lia|discriminate]. }
  assert (Hxx : Rsum (map (fun p => sq (fst p - mean (map fst l))) l) <> 0%R).
  { apply (distinct_abscissas l
             (IZR (days_from_start r1), ln (total_wealth r1))
             (IZR (days_from_start r2), ln (total_wealth r2))).
    - unfold l, points.
      now apply (in_map (fun r => (IZR (days_from_start r),
                                   ln (total_wealth r)))).
    - unfold l, points.
      now apply (in_map (fun r => (IZR (days_from_start r),
                                   ln (total_wealth r)))).
    - cbn [fst]. intros E. now apply Hdays, eq_IZR. }
  destruct (shifted_line_fit (ln k) l Hne Hxx) as [s [i [-> ->]]].
  cbv zeta. cbn [bind fst snd].
  eexists _, _. split; [reflexivity|]. split; [reflexivity|].
  cbn [a b annualGrowthRate]. split; [reflexivity|]. split; [reflexivity|].
  rewrite exp_plus, exp_ln by assumption. ring.
Qed.

End ExactFit.

(** The totals 1 and [exp 1] on two consecutive days: [A = 1], [B = 1]. *)
Lemma exact_exponential_recovered_witness :
  exists fit,
    ChartDataProcessor.calculate_exponential_fit mean
      [ {| ChartDataProcessor.date := 0; ChartDataProcessor.total_wealth := 1;
           ChartDataProcessor.days_from_start := 0 |};
        {| ChartDataProcessor.date := 1;
           ChartDataProcessor.total_wealth := exp 1;
           ChartDataProcessor.days_from_start := 1 |} ] = Some fit
    /\ ChartDataProcessor.a fit = 1%R
    /\ ChartDataProcessor.b fit = 1%R
    /\ ChartDataProcessor.r_squared fit = 1%R.
Proof.
  destruct (exact_exponential_recovered mean 1 1
              [ {| ChartDataProcessor.date := 0;
                   ChartDataProcessor.total_wealth := 1;
                   ChartDataProcessor.days_from_start := 0 |};
                {| ChartDataProcessor.date := 1;
                   ChartDataProcessor.total_wealth := exp 1;
                   ChartDataProcessor.days_from_start := 1 |} ]
              {| ChartDataProcessor.date := 0;
                 ChartDataProcessor.total_wealth := 1;
                 ChartDataProcessor.days_from_start := 0 |}
              {| ChartDataProcessor.date := 1;
                 ChartDataProcessor.total_wealth := exp 1;
                 ChartDataProcessor.days_from_start := 1 |})
    as [fit [Hfit [Ha [Hb [_ Hr]]]]].
  - lra.
  - repeat constructor; simpl.
    + rewrite Rmult_0_r, exp_0. lra.
    + rewrite !Rmult_1_l. reflexivity.
  - simpl. auto.
  - simpl. auto.
  - simpl. lia.
  - exists fit. repeat split; try assumption. apply Hr. lra.
Defined.

(** Totals 2 and 3 on two consecutive days, and the same in thousandths. *)
Lemma exponential_fit_unit_free_witness :
  exists fit fit',
    ChartDataProcessor.calculate_exponential_fit mean
      [ {| ChartDataProcessor.date := 0; ChartDataProcessor.total_wealth := 2;
           ChartDataProcessor.days_from_start := 0 |};
        {| ChartDataProcessor.date := 1; ChartDataProcessor.total_wealth := 3;
           ChartDataProcessor.days_from_start := 1 |} ] = Some fit
    /\ ChartDataProcessor.calculate_exponential_fit mean
         (map (fun r =>
                 {| ChartDataProcessor.date := ChartDataProcessor.date r;
                    ChartDataProcessor.total_wealth :=
                      (1000 * ChartDataProcessor.total_wealth r)%R;
                    ChartDataProcessor.days_from_start :=
                      ChartDataProcessor.days_from_start r |})
            [ {| ChartDataProcessor.date := 0;
                 ChartDataProcessor.total_wealth := 2;
                 ChartDataProcessor.days_from_start := 0 |};
              {| ChartDataProcessor.date := 1;
                 ChartDataProcessor.total_wealth := 3;
                 ChartDataProcessor.days_from_start := 1 |} ]) = Some fit'
    /\ ChartDataProcessor.b fit' = ChartDataProcessor.b fit
    /\ ChartDataProcessor.annualGrowthRate fit'
       = ChartDataProcessor.annualGrowthRate fit
    /\ ChartDataProcessor.a fit' = (1000 * ChartDataProcessor.a fit)%R.
Proof.
  refine (exponential_fit_unit_free mean 1000 _
            {| ChartDataProcessor.date := 0;
               ChartDataProcessor.total_wealth := 2;
               ChartDataProcessor.days_from_start := 0 |}
            {| ChartDataProcessor.date := 1;
               ChartDataProcessor.total_wealth := 3;
               ChartDataProcessor.days_from_start := 1 |} _ _ _ _ _ _).
  - lra.
  - simpl. auto.
  - simpl. auto.
  - simpl. lra.
  - simpl. lra.
  - simpl. lia.
Defined.

(** ** The base of the price index *)

Section IndexBase.

Import ChartDataProcessor.

Variable c : R.
Hypothesis c_pos : (0 < c)%R.

(** A price index after a change of its base period: every value times the
    same positive constant. *)
Let rebase (v : float64) : float64 := v * Finite c.

Lemma rebase_notna (v : float64) : notna (rebase v) = notna v.
Proof.
  unfold rebase, notna. destruct v as [x| | |]; cbn [mul is_nan]; try reflexivity;
    unfold signed_inf; rewrite Reqb_false by lra;
    [rewrite Rltb_true by lra|rewrite Rltb_false by lra]; reflexivity.
Qed.

Lemma rebase_positive (v : float64) : (rebase v >? Finite 0) = (v >? Finite 0).
Proof.
  unfold rebase, gtb. destruct v as [x| | |]; cbn [mul ltb]; try reflexivity.
  - destruct (Rlt_dec 0 x).
    + rewrite !Rltb_true; [reflexivity|assumption|now apply Rmult_lt_0_compat].
    + rewrite !Rltb_false; [reflexivity|lra|nra].
  - unfold signed_inf. rewrite Reqb_false, Rltb_true by lra. reflexivity.
  - unfold signed_inf. rewrite Reqb_false, Rltb_false by lra. reflexivity.
Qed.

Lemma rebase_ratio (base v : float64) :
  (v >? Finite 0) = true -> rebase base / rebase v = base / v.
Proof.
  unfold rebase, gtb.
  assert (Hc : Reqb c 0 = false) by (apply Reqb_false; lra).
  assert (Hc' : Reqb (- c) 0 = false) by (apply Reqb_false; lra).
  assert (Hp : Rltb 0 c = true) by (apply Rltb_true; lra).
  assert (Hn : Rltb 0 (- c) = false) by (apply Rltb_false; lra).
  destruct v as [x| | |]; cbn [ltb]; try discriminate.
  - intros Hx. apply Rltb_iff in Hx.
    assert (Hx0 : Reqb x 0 = false) by (apply Reqb_false; lra).
    assert (Hxc : Reqb (x * c) 0 = false) by (apply Reqb_false; nra).
    assert (Hxn : Rltb x 0 = false) by (apply Rltb_false; lra).
    assert (Hxcn : Rltb (x * c) 0 = false) by (apply Rltb_false; nra).
    destruct base as [y| | |]; cbn [mul div]; unfold signed_inf;
      rewrite ?Hc, ?Hc', ?Hp, ?Hn, ?Hx0, ?Hxc; cbn [div];
      rewrite ?Hxn, ?Hxcn; try reflexivity.
    f_equal. field. lra.
  - intros _. destruct base as [y| | |]; cbn [mul div]; unfold signed_inf;
      rewrite ?Hc, ?Hc', ?Hp, ?Hn; reflexivity.
Qed.

Lemma hd_filter_rebase (column : list float64) :
  hd_error (filter notna (map rebase column))
  = option_map rebase (hd_error (filter notna column)).
Proof.
  induction column as [|v column IH]; [reflexivity|].
  cbn [map filter]. rewrite rebase_notna. now destruct (notna v).
Qed.

Lemma adjusted_rebase (base : float64) (rs : list chart_row)
      (column : list float64) :
  map (fun p => (date (fst p),
                 Finite (total_wealth (fst p)) * (rebase base / snd p)))
      (filter index_usable (combine rs (map rebase column)))
  = map (fun p => (date (fst p),
                   Finite (total_wealth (fst p)) * (base / snd p)))
        (filter index_usable (combine rs column)).
Proof.
  revert column. induction rs as [|r rs IH]; intros [|v column];
    try reflexivity.
  cbn [map combine filter].
  assert (Hu : index_usable (r, rebase v) = index_usable (r, v)).
  { unfold index_usable. cbn [snd]. now rewrite rebase_notna, rebase_positive. }
  rewrite Hu. destruct (index_usable (r, v)) eqn:Hv; [|apply IH].
  apply andb_prop in Hv as [_ Hv]. cbn [snd] in Hv.
  cbn [map fst snd]. rewrite rebase_ratio by assumption. now rewrite IH.
Qed.

(** X12. The adjusted series does not depend on the base period of the
    price index: with every value of the index column multiplied by the
    same positive constant, the adjustment fails on the same frames, and
    otherwise gives the same points for the same type, with a base value
    multiplied by the constant. *)
Theorem inflation_adjustment_rebased (df df' : frame) (name : string)
        (column : list float64) :
  rows df' = rows df ->
  lookup name (extra df) = Some column ->
  lookup name (extra df') = Some (map (fun v => v * Finite c) column) ->
  prepare_inflation_adjusted_data df' name
  = option_map (fun r => {| data := data r;
                            inflationType := inflationType r;
                            baseValue := baseValue r * Finite c |})
               (prepare_inflation_adjusted_data df name).
Proof.
  intros Hrows Hcol Hcol'. unfold prepare_inflation_adjusted_data.
  rewrite Hcol, Hcol', Hrows. cbn [bind].
  change (map (fun v => v * Finite c) column) with (map rebase column).
  rewrite hd_filter_rebase.
  destruct (hd_error (filter notna column)) as [base|]; [|reflexivity].
  cbn [option_map bind data inflationType baseValue].
  now rewrite adjusted_rebase.
Qed.

(** X13. A price index that stays at the same positive value changes
    nothing: the adjusted series is the nominal series, point by point,
    and the base value is that value. *)
Theorem flat_index_no_adjustment (df : frame) (name : string) :
  rows df <> [] ->
  lookup name (extra df) = Some (repeat (Finite c) (length (rows df))) ->
  exists r,
    prepare_inflation_adjusted_data df name = Some r
    /\ baseValue r = Finite c
    /\ data r = map (fun p => (fst p, Finite (snd p))) (nominal_data (rows df)).
Proof.
  intros Hne Hcol. unfold prepare_inflation_adjusted_data. rewrite Hcol.
  cbn [bind]. destruct (rows df) as [|r0 rs] eqn:E; [easy|].
  cbn [length repeat filter notna is_nan negb hd_error bind].
  eexists. split; [reflexivity|]. split; [reflexivity|].
  cbn [data]. change (Finite c :: repeat (Finite c) (length rs))
    with (repeat (Finite c) (length (r0 :: rs))).
  unfold nominal_data. rewrite map_map. cbn [fst snd].
  generalize (r0 :: rs). clear -c_pos. intros l.
  induction l as [|r l IH]; [reflexivity|].
  cbn [length repeat combine filter map].
  assert (Hu : index_usable (r, Finite c) = true).
  { unfold index_usable, gtb. cbn [snd notna is_nan negb ltb andb].
    now apply Rltb_true. }
  rewrite Hu. cbn [map fst snd]. rewrite IH. f_equal. f_equal.
  rewrite div_finite by lra. cbn [mul]. f_equal. field. lra.
Qed.

End IndexBase.

(** Two rows with the index at 100 and 110, and the same index on twice the
    base. *)
Lemma inflation_adjustment_rebased_witness :
  ChartDataProcessor.prepare_inflation_adjusted_data
    {| ChartDataProcessor.rows :=
         [ {| ChartDataProcessor.date := 0;
              ChartDataProcessor.total_wealth := 3;
              ChartDataProcessor.days_from_start := 0 |};
           {| ChartDataProcessor.date := 1;
              ChartDataProcessor.total_wealth := 4;
              ChartDataProcessor.days_from_start := 1 |} ];
       ChartDataProcessor.extra :=
         [("cpi_u", map (fun v => v * Finite 2) [Finite 100; Finite 110])] |}
    "cpi_u"
  = option_map
      (fun r => {| ChartDataProcessor.data := ChartDataProcessor.data r;
                   ChartDataProcessor.inflationType :=
                     ChartDataProcessor.inflationType r;
                   ChartDataProcessor.baseValue :=
                     ChartDataProcessor.baseValue r * Finite 2 |})
      (ChartDataProcessor.prepare_inflation_adjusted_data
         {| ChartDataProcessor.rows :=
              [ {| ChartDataProcessor.date := 0;
                   ChartDataProcessor.total_wealth := 3;
                   ChartDataProcessor.days_from_start := 0 |};
                {| ChartDataProcessor.date := 1;
                   ChartDataProcessor.total_wealth := 4;
                   ChartDataProcessor.days_from_start := 1 |} ];
            ChartDataProcessor.extra :=
              [("cpi_u", [Finite 100; Finite 110])] |}
         "cpi_u").
Proof.
  apply (inflation_adjustment_rebased 2)
    with (column := [Finite 100; Finite 110]).
  - lra.
  - reflexivity.
  - reflexivity.
  - reflexivity.
Defined.

(** One row, with the index at 100. *)
Lemma flat_index_no_adjustment_witness :
  exists r,
    ChartDataProcessor.prepare_inflation_adjusted_data
      {| ChartDataProcessor.rows :=
           [ {| ChartDataProcessor.date := 0;
                ChartDataProcessor.total_wealth := 3;
                ChartDataProcessor.days_from_start := 0 |} ];
         ChartDataProcessor.extra := [("pce", [Finite 100])] |}
      "pce" = Some r
    /\ ChartDataProcessor.baseValue r = Finite 100
    /\ ChartDataProcessor.data r = [(0%Z, Finite 3)].
Proof.
  refine (flat_index_no_adjustment 100 _
            {| ChartDataProcessor.rows :=
                 [ {| ChartDataProcessor.date := 0;
                      ChartDataProcessor.total_wealth := 3;
                      ChartDataProcessor.days_from_start := 0 |} ];
               ChartDataProcessor.extra := [("pce", [Finite 100])] |}
            "pce" _ _).
  - lra.
  - discriminate.
  - reflexivity.
Defined.

(* ====================================================================== *)
(** * Further properties of the sparklines *)

Section SparklinePoints.

Import BackgroundSparklineGenerator.

Lemma normalize_Some (data : list float64) :
  data <> [] ->
  exists normalized,
    normalize data = Some normalized /\ length normalized = length data.
Proof.
  intros Hne. destruct data as [|x data]; [easy|].
  unfold normalize. cbn [np_min np_max bind].
  eexists. split; [reflexivity|].
  destruct (_ >? _); [apply length_map|apply repeat_length].
Qed.

Lemma map_fst_combine_eq {A B : Type} (la : list A) (lb : list B) :
  length la = length lb -> map fst (combine la lb) = la.
Proof.
  revert lb. induction la as [|a la IH]; intros [|b lb] H;
    try reflexivity; try discriminate.
  cbn [combine map fst]. f_equal. apply IH. now injection H.
Qed.

Lemma generate_coordinates_Some (g : generator) (data : list float64) :
  data <> [] ->
  exists coords,
    generate_coordinates g data = Some coords
    /\ length coords = length data
    /\ map fst coords = linspace (Finite 0) (of_Z (card_width g)) (length data).
Proof.
  intros Hne. unfold generate_coordinates.
  destruct (normalize_Some data Hne) as [normalized [-> Hlen]]. cbn [bind].
  eexists. split; [reflexivity|]. split.
  - rewrite length_combine, linspace_length, length_map, Hlen. apply Nat.min_id.
  - apply map_fst_combine_eq. now rewrite linspace_length, length_map, Hlen.
Qed.

Lemma process_data_Some (w h : Z) (data : list ts_row) (cfg : config) :
  well_formed cfg = true ->
  exists out, process_data (init w h) data cfg = Some out
              /\ length out = 70%nat.
Proof.
  intros Hwf. unfold process_data.
  destruct (dropna data (columns cfg)) as [|r valid] eqn:E.
  - eexists. split; [reflexivity|]. apply repeat_length.
  - destruct (metric_values_Some cfg (r :: valid) Hwf) as [values [-> Hl]].
    cbn [bind]. apply resample_length.
    + intros E'. apply (f_equal (@length _)) in E'.
      rewrite normalize_timeline_length in E'. discriminate.
    + now rewrite normalize_timeline_length.
Qed.

(** X14. For a configuration that names its columns, the sparkline is
    always drawn, whatever the time series holds (no row, missing cells,
    any values): the polygon has 72 points, the 70 points of the curve
    between the two bottom corners of the card, and the abscissas of the
    curve are the 70 values of [linspace] from 0 to the card width. *)
Theorem sparkline_always_drawn (w h : Z) (time_series : list ts_row)
        (cfg : config) :
  well_formed cfg = true ->
  exists coords,
    gen_sparkline_points (init w h) time_series cfg
    = Some (((Finite 0, of_Z h) :: coords) ++ [(of_Z w, of_Z h)])%list
    /\ length coords = 70%nat
    /\ map fst coords = linspace (Finite 0) (of_Z w) 70.
Proof.
  intros Hwf. unfold gen_sparkline_points.
  destruct (process_data_Some w h time_series cfg Hwf) as [out [-> Hlen]].
  cbn [bind].
  destruct (generate_coordinates_Some (init w h) out) as [coords [-> [Hl Hx]]].
  { intros E. rewrite E in Hlen. discriminate. }
  cbn [bind]. exists coords. rewrite Hlen in Hl, Hx.
  split; [reflexivity|]. split; assumption.
Qed.

End SparklinePoints.

(** The three configurations of [generate_all_backgrounds] name their
    columns; here the ratio, on an empty series. *)
Lemma sparkline_always_drawn_witness :
  exists coords,
    BackgroundSparklineGenerator.gen_sparkline_points
      BackgroundSparklineGenerator.default []
      BackgroundSparklineGenerator.ratio_average_wealth
    = Some (((Finite 0, of_Z 120) :: coords) ++ [(of_Z 280, of_Z 120)])%list
    /\ length coords = 70%nat
    /\ map fst coords = linspace (Finite 0) (of_Z 280) 70.
Proof.
  apply (sparkline_always_drawn 280 120 []
           BackgroundSparklineGenerator.ratio_average_wealth).
  reflexivity.
Defined.

(** ** The layout of the coordinates *)

Section CoordinateLayout.

Import BackgroundSparklineGenerator.

Lemma fold_Rmin_In (l : list R) (x : R) :
  fold_left Rmin l x = x \/ In (fold_left Rmin l x) l.
Proof.
  revert x. induction l as [|y l IH]; intros x; [now left|].
  cbn [fold_left]. destruct (IH (Rmin x y)) as [E|Hin]; [|right; now right].
  rewrite E. unfold Rmin. destruct (Rle_dec x y); [now left|right; now left].
Qed.

Lemma fold_Rmax_In (l : list R) (x : R) :
  fold_left Rmax l x = x \/ In (fold_left Rmax l x) l.
Proof.
  revert x. induction l as [|y l IH]; intros x; [now left|].
  cbn [fold_left]. destruct (IH (Rmax x y)) as [E|Hin]; [|right; now right].
  rewrite E. unfold Rmax. destruct (Rle_dec x y); [right; now left|now left].
Qed.

(** The least and the greatest sample: bounds that are attained. *)
Lemma Rmin_list_spec (x : R) (l : list R) :
  In (Ideal.Rmin_list x l) (x :: l)
  /\ forall v, In v (x :: l) -> (Ideal.Rmin_list x l <= v)%R.
Proof.
  unfold Ideal.Rmin_list. split.
  - destruct (fold_Rmin_In l x) as [->|H]; [now left|now right].
  - destruct (fold_Rmin_le l x) as [H1 H2]. rewrite Forall_forall in H2.
    intros v [<-|Hv]; [assumption|now apply H2].
Qed.

Lemma Rmax_list_spec (x : R) (l : list R) :
  In (Ideal.Rmax_list x l) (x :: l)
  /\ forall v, In v (x :: l) -> (v <= Ideal.Rmax_list x l)%R.
Proof.
  unfold Ideal.Rmax_list. split.
  - destruct (fold_Rmax_In l x) as [->|H]; [now left|now right].
  - destruct (fold_Rmax_ge l x) as [H1 H2]. rewrite Forall_forall in H2.
    intros v [<-|Hv]; [assumption|now apply H2].
Qed.

Lemma ideal_normalize_nth (x : R) (l : list R) (i : nat) :
  (i < length (x :: l))%nat ->
  nth i (Ideal.normalize (x :: l)) 0%R
  = if Rltb (Ideal.Rmin_list x l) (Ideal.Rmax_list x l)
    then ((nth i (x :: l) 0 - Ideal.Rmin_list x l)
          / (Ideal.Rmax_list x l - Ideal.Rmin_list x l))%R
    else 0%R.
Proof.
  intros Hi. unfold Ideal.normalize.
  destruct (Rltb _ _).
  - now rewrite (nth_map_inrange _ _ 0%R) by assumption.
  - apply nth_repeat.
Qed.

Lemma linspace_samples_set_last (b : R) (n : nat) :
  (1 < n)%nat ->
  set_last (linspace_samples 0 b n) b = linspace_samples 0 b n.
Proof.
  intros Hn.
  assert (Hlast : last (linspace_samples 0 b n) 0%R = b).
  { unfold linspace_samples. destruct n as [|n]; [lia|].
    rewrite seq_S, map_app. cbn [map]. rewrite last_last.
    replace (S n - 1)%nat with n by lia. cbn [Nat.add].
    field. apply not_0_INR. lia. }
  pose proof (set_last_last (linspace_samples 0 b n) 0%R) as H.
  now rewrite Hlast in H.
Qed.

(** X15. The layout of the curve, for two or more finite samples on a card
    at least as high as its two paddings: point [i] is at the abscissa
    [i * card_width / (n - 1)], so the points are evenly spaced from 0 to
    the card width, in the order of the samples; a greater sample is never
    drawn lower than a smaller one; every least sample lies on the lower
    padding line [card_height - 15], and, unless all samples are equal,
    every greatest sample on the upper padding line [15]. *)
Theorem coordinates_layout (w h : Z) (data : list R) :
  (2 <= length data)%nat -> (30 <= h)%Z ->
  let n := length data in
  exists (coords : list (float64 * float64)) (y : nat -> R),
    generate_coordinates (init w h) (map Finite data) = Some coords
    /\ length coords = n
    /\ (forall i, (i < n)%nat ->
         nth i coords (NaN, NaN)
         = (Finite (INR i * IZR w / INR (n - 1)), Finite (y i)))
    /\ (forall i j, (i < n)%nat -> (j < n)%nat ->
         (nth i data 0 <= nth j data 0)%R -> (y j <= y i)%R)
    /\ (forall i, (i < n)%nat ->
         (forall j, (j < n)%nat -> (nth i data 0 <= nth j data 0)%R) ->
         y i = IZR (h - 15))
    /\ (forall i j, (i < n)%nat -> (j < n)%nat ->
         (forall k, (k < n)%nat -> (nth k data 0 <= nth i data 0)%R) ->
         (nth j data 0 < nth i data 0)%R -> y i = 15%R).
Proof.
  intros Hn Hh n.
  set (A := IZR (h - 15)). set (B := IZR (h - 30)).
  assert (HB : (0 <= B)%R) by (apply IZR_le; lia).
  assert (Hne : data <> []) by (destruct data; [simpl in Hn; lia|discriminate]).
  set (nl := Ideal.normalize data).
  exists (combine (map Finite (linspace_samples 0 (IZR w) n))
                  (map Finite (map (fun v => A - v * B)%R nl))),
         (fun i => A - nth i nl 0 * B)%R.
  assert (Hlx : length (linspace_samples 0 (IZR w) n) = n)
    by (unfold linspace_samples; now rewrite length_map, length_seq).
  assert (Hnl : length nl = n) by apply ideal_normalize_length.
  split; [|split; [|split]].
  - unfold generate_coordinates. rewrite normalize_finite by assumption.
    cbn [bind]. f_equal. f_equal.
    + rewrite length_map. cbn [init card_width]. unfold of_Z. fold n.
      rewrite linspace_finite by lia.
      now rewrite linspace_samples_set_last by lia.
    + fold nl. rewrite !map_map. apply map_ext. intros v.
      cbn [init card_height padding]. unfold of_Z. cbn [sub add opp mul].
      f_equal.
  - now rewrite length_combine, !length_map, Hlx, Hnl, Nat.min_id.
  - intros i Hi. rewrite combine_nth by (now rewrite !length_map, Hlx, Hnl).
    rewrite !nth_map_Finite by (rewrite ?length_map; lia). f_equal; f_equal.
    + unfold linspace_samples. rewrite nth_map_seq by assumption.
      field. apply not_0_INR. lia.
    + apply (nth_map_inrange (fun v => A - v * B)%R). lia.
  - destruct data as [|x l]; [easy|]. clear Hne.
    destruct (Rmin_list_spec x l) as [Hmin_in Hmin].
    destruct (Rmax_list_spec x l) as [Hmax_in Hmax].
    assert (Hnth : forall i, (i < n)%nat ->
              nth i nl 0%R
              = if Rltb (Ideal.Rmin_list x l) (Ideal.Rmax_list x l)
                then ((nth i (x :: l) 0 - Ideal.Rmin_list x l)
                      / (Ideal.Rmax_list x l - Ideal.Rmin_list x l))%R
                else 0%R)
      by (intros i Hi; now apply ideal_normalize_nth).
    set (mn := Ideal.Rmin_list x l) in *. set (mx := Ideal.Rmax_list x l) in *.
    split; [|split].
    + intros i j Hi Hj Hle. rewrite !Hnth by assumption.
      destruct (Rltb mn mx) eqn:Hlt; [|lra]. apply Rltb_iff in Hlt.
      assert (Hk : (0 < / (mx - mn))%R) by (apply Rinv_0_lt_compat; lra).
      unfold Rdiv.
      assert (Hkb : (0 <= / (mx - mn) * B)%R) by (apply Rmult_le_pos; lra).
      nra.
    + intros i Hi Hleast. rewrite Hnth by assumption.
      destruct (Rltb mn mx) eqn:Hlt; [|lra].
      apply (In_nth _ _ 0%R) in Hmin_in as [k [Hk Hkmn]].
      specialize (Hleast k Hk). rewrite Hkmn in Hleast.
      pose proof (Hmin (nth i (x :: l) 0%R) (nth_In _ _ Hi)) as Hge.
      replace (nth i (x :: l) 0%R) with mn by lra.
      unfold Rdiv. lra.
    + intros i j Hi Hj Hgreatest Hlt. rewrite Hnth by assumption.
      apply (In_nth _ _ 0%R) in Hmax_in as [k [Hk Hkmx]].
      specialize (Hgreatest k Hk). rewrite Hkmx in Hgreatest.
      pose proof (Hmax (nth i (x :: l) 0%R) (nth_In _ _ Hi)) as Hle.
      pose proof (Hmin (nth j (x :: l) 0%R) (nth_In _ _ Hj)) as Hge.
      assert (Hi_mx : nth i (x :: l) 0%R = mx) by lra. rewrite Hi_mx in *.
      rewrite Rltb_true by lra.
      replace ((mx - mn) / (mx - mn))%R with 1%R by (field; lra).
      unfold A, B. rewrite !minus_IZR. lra.
Qed.

End CoordinateLayout.

(** Three samples on the default card. *)
Lemma coordinates_layout_witness :
  exists (coords : list (float64 * float64)) (y : nat -> R),
    BackgroundSparklineGenerator.generate_coordinates
      (BackgroundSparklineGenerator.init 280 120)
      (map Finite [1; 3; 2]%R) = Some coords
    /\ length coords = 3%nat
    /\ (forall i, (i < 3)%nat ->
         nth i coords (NaN, NaN)
         = (Finite (INR i * 280 / INR (3 - 1)), Finite (y i))).
Proof.
  destruct (coordinates_layout 280 120 [1; 3; 2]%R) as [coords [y [H1 [H2 [H3 _]]]]].
  - simpl. lia.
  - lia.
  - exists coords, y. split; [exact H1|]. split; [exact H2|exact H3].
Defined.

(** ** Flat series and the ratio metric *)

Section FlatSeries.

Import BackgroundSparklineGenerator.

Lemma flat_coordinates (w h : Z) (l : list R) (k : R) :
  l <> [] -> Forall (fun v => v = k) l ->
  generate_coordinates (init w h) (map Finite l)
  = Some (combine (linspace (Finite 0) (of_Z w) (length l))
                  (repeat (Finite (IZR (h - 15))) (length l))).
Proof.
  intros Hne Hk. unfold generate_coordinates.
  rewrite (normalize_zeros l k Hne Hk). cbn [bind].
  rewrite length_map, map_repeat. cbn [init card_width card_height padding].
  f_equal. f_equal. f_equal. unfold of_Z. cbn [sub add opp mul]. f_equal.
  change (h - 2 * 15)%Z with (h - 30)%Z. ring.
Qed.

(** X16. A series without a valid row, and a series whose metric has the
    same finite value on every valid row, are drawn as a flat line: the 70
    points of the curve all lie on the lower padding line
    [card_height - 15]. *)
Theorem flat_series_flat_line (w h : Z) (time_series : list ts_row)
        (cfg : config) (vals : list R) (k : R) :
  metric_values cfg (dropna time_series (columns cfg)) = Some (map Finite vals) ->
  Forall (fun v => v = k) vals ->
  gen_sparkline_points (init w h) time_series cfg
  = Some (((Finite 0, of_Z h)
           :: combine (linspace (Finite 0) (of_Z w) 70)
                      (repeat (Finite (IZR (h - 15))) 70))
          ++ [(of_Z w, of_Z h)])%list.
Proof.
  intros Hv Hk. unfold gen_sparkline_points.
  assert (Hout : exists c, process_data (init w h) time_series cfg
                           = Some (map Finite (repeat c 70))).
  { destruct (dropna time_series (columns cfg)) as [|r valid] eqn:E.
    - exists 0%R. unfold process_data. rewrite E. now rewrite map_repeat.
    - exists (k * Rsum Ideal.window)%R.
      rewrite (process_data_valid _ _ _ _ ltac:(rewrite E; discriminate)
                 ltac:(rewrite E; exact Hv)).
      rewrite E. apply resample_flat; [| |assumption].
      + intros E'. apply (f_equal (@length _)) in E'.
        rewrite normalize_timeline_length in E'. discriminate.
      + rewrite normalize_timeline_length.
        apply metric_values_length in Hv. rewrite length_map in Hv.
        now rewrite Hv. }
  destruct Hout as [c ->]. cbn [bind].
  rewrite (flat_coordinates w h (repeat c 70) c).
  - rewrite repeat_length. reflexivity.
  - discriminate.
  - apply Forall_forall. intros v Hin. now apply repeat_spec in Hin.
Qed.

(** X17. The ratio metric never divides by zero: on rows whose total and
    count are finite numbers, each value is the total divided by the count,
    and the total itself where the count is zero; all values are finite. *)
Theorem ratio_metric_finite (valid_data : list ts_row) :
  Forall (fun r => exists a b, total_wealth r = Finite a
                               /\ billionaire_count r = Finite b) valid_data ->
  exists vals,
    metric_values ratio_average_wealth valid_data = Some (map Finite vals)
    /\ Forall2 (fun r v =>
                  exists a b, total_wealth r = Finite a
                              /\ billionaire_count r = Finite b
                              /\ v = (if Reqb b 0 then a else a / b)%R)
               valid_data vals.
Proof.
  intros H. unfold metric_values. cbn [ratio_average_wealth ctype columns].
  cbn [String.eqb Ascii.eqb Bool.eqb nth_error bind cell].
  induction H as [|r l [a [b [Ha Hb]]] _ [vals [IH1 IH2]]].
  - exists []. split; [reflexivity|constructor].
  - exists ((if Reqb b 0 then a else a / b)%R :: vals). split.
    + cbn [map]. apply Some_eq in IH1. rewrite <- IH1. f_equal. f_equal.
      rewrite Ha, Hb. unfold replace_0_1. cbn [eqb div].
      destruct (Reqb b 0) eqn:E.
      * cbn [div]. rewrite Reqb_false by lra. f_equal. field.
      * cbn [div]. now rewrite E.
    + constructor; [|assumption]. exists a, b. repeat split; assumption.
Qed.

End FlatSeries.

(** An empty series under the single-column configuration. *)
Lemma flat_series_flat_line_witness :
  BackgroundSparklineGenerator.gen_sparkline_points
    (BackgroundSparklineGenerator.init 280 120) []
    BackgroundSparklineGenerator.single_total_wealth
  = Some (((Finite 0, of_Z 120)
           :: combine (linspace (Finite 0) (of_Z 280) 70)
                      (repeat (Finite (IZR (120 - 15))) 70))
          ++ [(of_Z 280, of_Z 120)])%list.
Proof.
  apply (flat_series_flat_line 280 120 []
           BackgroundSparklineGenerator.single_total_wealth [] 0%R).
  - reflexivity.
  - constructor.
Defined.

(** A row with a total of 6 and a count of 0. *)
Lemma ratio_metric_finite_witness :
  exists vals,
    BackgroundSparklineGenerator.metric_values
      BackgroundSparklineGenerator.ratio_average_wealth
      [ {| BackgroundSparklineGenerator.date := 0;
           BackgroundSparklineGenerator.total_wealth := Finite 6;
           BackgroundSparklineGenerator.billionaire_count := Finite 0 |} ]
    = Some (map Finite vals)
    /\ Forall2 (fun r v =>
                  exists a b,
                    BackgroundSparklineGenerator.total_wealth r = Finite a
                    /\ BackgroundSparklineGenerator.billionaire_count r = Finite b
                    /\ v = (if Reqb b 0 then a else a / b)%R)
               [ {| BackgroundSparklineGenerator.date := 0;
                    BackgroundSparklineGenerator.total_wealth := Finite 6;
                    BackgroundSparklineGenerator.billionaire_count := Finite 0 |} ]
               vals.
Proof.
  apply ratio_metric_finite.
  constructor; [|constructor]. exists 6%R, 0%R. split; reflexivity.
Defined.

(* ====================================================================== *)
(** * The sparkline of the lightweight generator *)

Section LightweightSparkline.

Import AdaptedLightweightGenerator.

Lemma list_min_le (values : list R) :
  Forall (fun v => (list_min values <= v)%R) values.
Proof.
  destruct values as [|x l]; [constructor|]. cbn [list_min].
  destruct (fold_Rmin_le l x) as [H1 H2]. now constructor.
Qed.

Lemma list_max_ge (values : list R) :
  Forall (fun v => (v <= list_max values)%R) values.
Proof.
  destruct values as [|x l]; [constructor|]. cbn [list_max].
  destruct (fold_Rmax_ge l x) as [H1 H2]. now constructor.
Qed.

(** X18. The coordinates of the lightweight sparkline.  Fewer than two
    values give no picture.  Otherwise there is one point per value, point
    [i] at the abscissa [i * 280 / (n - 1)]; and when the bounds in use
    (those supplied, the least and greatest value otherwise) enclose the
    values, as the computed ones always do, every point lies in the card:
    [0 <= x <= 280] and [10 <= y <= 110]. *)
Theorem lightweight_sparkline_in_frame (values : list R) (b : bounds) :
  let lo := match bounds_min b with Some m => m | None => list_min values end in
  let hi := match bounds_max b with Some m => m | None => list_max values end in
  let in_frame (p : R * R) :=
    (0 <= fst p <= 280)%R /\ (10 <= snd p <= 110)%R in
  match sparkline_xy values b with
  | None => (length values < 2)%nat
  | Some pts =>
      (2 <= length values)%nat
      /\ length pts = length values
      /\ (forall i, (i < length values)%nat ->
            fst (nth i pts (0, 0)%R)
            = (INR i * 280 / INR (length values - 1))%R)
      /\ (Forall (fun v => (lo <= v <= hi)%R) values -> Forall in_frame pts)
      /\ (bounds_min b = None -> bounds_max b = None -> Forall in_frame pts)
  end.
Proof.
  intros lo hi in_frame. unfold sparkline_xy.
  destruct (Nat.ltb_spec (length values) 2) as [Hlen|Hlen]; [assumption|].
  fold lo hi. set (range_val := if Rltb lo hi then (hi - lo)%R else 1%R).
  set (n := length values) in *.
  assert (Hn : (0 < INR (n - 1))%R) by (apply lt_0_INR; lia).
  assert (Hframe : Forall (fun v => (lo <= v <= hi)%R) values ->
                   Forall in_frame
                     (map (fun p =>
                             ((INR (fst p) / INR (n - 1) * 280)%R,
                              (120 - (snd p - lo) / range_val * (120 - 20) - 10)%R))
                          (combine (seq 0 n) values))).
  { intros Hb. rewrite Forall_forall in Hb. apply Forall_map, Forall_forall.
    intros [i v] Hin. unfold in_frame. cbn [fst snd].
    pose proof (in_combine_l _ _ _ _ Hin) as Hi. apply in_seq in Hi.
    pose proof (in_combine_r _ _ _ _ Hin) as Hv. apply Hb in Hv.
    split.
    - assert (Hq : (0 <= INR i / INR (n - 1) <= 1)%R).
      { assert (Hle : (INR i <= INR (n - 1))%R) by (apply le_INR; lia).
        pose proof (pos_INR i) as Hpos.
        pose proof (Rinv_0_lt_compat _ Hn) as Hinv. unfold Rdiv. split.
        - apply Rmult_le_pos; lra.
        - apply Rmult_le_reg_r with (INR (n - 1)); [assumption|].
          rewrite Rmult_assoc, Rinv_l by lra. lra. }
      lra.
    - assert (Ht : (0 <= (v - lo) / range_val <= 1)%R).
      { unfold range_val. destruct (Rltb lo hi) eqn:E.
        - apply Rltb_iff in E.
          assert (Hinv : (0 < / (hi - lo))%R) by (apply Rinv_0_lt_compat; lra).
          unfold Rdiv. split.
          + apply Rmult_le_pos; lra.
          + apply Rmult_le_reg_r with (hi - lo)%R; [lra|].
            rewrite Rmult_assoc, Rinv_l by lra. lra.
        - assert (hi <= lo)%R.
          { destruct (Rlt_dec lo hi) as [Hlt|Hge]; [|lra].
            apply Rltb_iff in Hlt. congruence. }
          replace (v - lo)%R with 0%R by lra. lra. }
      lra. }
  split; [assumption|]. split; [|split; [|split]].
  - now rewrite length_map, length_combine, length_seq, Nat.min_id.
  - intros i Hi.
    rewrite (nth_map_inrange _ _ (O, 0%R))
      by (now rewrite length_combine, length_seq, Nat.min_id).
    rewrite combine_nth by apply length_seq. cbn [fst].
    rewrite seq_nth by assumption. cbn [Nat.add]. field. lra.
  - exact Hframe.
  - intros Hmin Hmax. apply Hframe. unfold lo, hi. rewrite Hmin, Hmax.
    pose proof (list_min_le values) as H1. pose proof (list_max_ge values) as H2.
    rewrite Forall_forall in *. intros v Hv. split; [now apply H1|now apply H2].
Qed.

End LightweightSparkline.

(* ====================================================================== *)
(** * The pipelines as a whole *)

Section Pipelines.

Import ChartDataProcessor.

Variable np_mean : list R -> R.

(** When the fit fails, and that its first parameter is positive. *)
Lemma fit_cases (df : list chart_row) :
  match calculate_exponential_fit np_mean df with
  | None =>
      (2 <= length (valid_rows df))%nat
      /\ Forall (fun r => days_from_start r = 0%Z) (valid_rows df)
  | Some fit =>
      (0 < a fit)%R
      /\ ~ ((2 <= length (valid_rows df))%nat
            /\ Forall (fun r => days_from_start r = 0%Z) (valid_rows df))
  end.
Proof.
  unfold calculate_exponential_fit.
  destruct (Nat.ltb_spec (length (valid_rows df)) 2) as [Hlt|Hge].
  { split; [simpl; lra|]. intros [H _]. lia. }
  set (l := map (fun r => (IZR (days_from_start r), ln (total_wealth r)))
                (valid_rows df)).
  assert (Hx : map (fun r => IZR (days_from_start r)) (valid_rows df)
               = map fst l) by (unfold l; now rewrite map_map).
  assert (Hy : map (fun r => ln (total_wealth r)) (valid_rows df)
               = map snd l) by (unfold l; now rewrite map_map).
  assert (Hzero : Forall (fun v => v = 0%R) (map fst l)
                  <-> Forall (fun r => days_from_start r = 0%Z) (valid_rows df)).
  { rewrite <- Hx, Forall_map. split; intros H; eapply Forall_impl; try exact H.
    - intros r Hr. cbv beta in Hr. now apply eq_IZR.
    - intros r Hr. cbv beta. now rewrite Hr. }
  rewrite Hx, Hy.
  destruct (Req_dec (Rsum (map (fun p => sq (fst p - mean (map fst l))) l)) 0)
    as [Hxx|Hxx].
  - rewrite (polyfit1_rank_one l Hxx).
    destruct (Req_dec (mean (map fst l)) 0) as [Hm|Hm].
    + rewrite (Reqb_true _ _ Hm). cbn [bind]. split; [assumption|].
      apply Hzero, (all_zero_rank_one l). now split.
    + rewrite Reqb_false by assumption. cbn [bind a].
      split; [apply exp_pos|]. intros [_ H].
      apply Hzero, (all_zero_rank_one l) in H. now destruct H.
  - rewrite (polyfit1_regular l Hxx). cbn [bind a].
    split; [apply exp_pos|]. intros [_ H].
    apply Hzero, (all_zero_rank_one l) in H. now destruct H.
Qed.

Lemma no_price_index (df : list chart_row) (column : list float64) :
  get_inflation_data {| rows := df; extra := [("billionaire_count", column)] |}
  = Some None.
Proof. reflexivity. Qed.

Lemma NoDup_map_filter {A B : Type} (f : A -> B) (q : A -> bool) (l : list A) :
  NoDup (map f l) -> NoDup (map f (filter q l)).
Proof.
  induction l as [|x l IH]; [trivial|]. cbn [map filter]. intros H.
  apply NoDup_cons_iff in H as [Hx Hl]. destruct (q x); [|now apply IH].
  cbn [map]. constructor; [|now apply IH].
  intros Hin. apply Hx. apply in_map_iff in Hin as [y [Hy Hin]].
  apply filter_In in Hin as [Hin _]. rewrite <- Hy. now apply in_map.
Qed.

(** With one row per date the fit does not fail. *)
Lemma distinct_dates_fit (ts : list DataLoader.DailyTotal) (df : list chart_row) :
  NoDup (map DataLoader.date ts) -> prepare ts = Some df ->
  ~ ((2 <= length (valid_rows df))%nat
     /\ Forall (fun r => days_from_start r = 0%Z) (valid_rows df)).
Proof.
  intros Hnd Hp [Hlen Hzero].
  assert (Hne : ts <> []) by (intros ->; discriminate).
  destruct (prepare_Some ts Hne) as [first [_ Hp']].
  rewrite Hp' in Hp. apply Some_eq in Hp. subst df.
  set (d0 := DataLoader.date first) in *.
  set (df := map (chart_row_of d0) (sort_values DataLoader.date ts)) in *.
  assert (Hdates : NoDup (map date df)).
  { unfold df. rewrite map_map. cbn [chart_row_of date].
    eapply Permutation_NoDup; [|exact Hnd].
    apply Permutation_map, sort_values_perm. }
  assert (Hoff : forall r, In r (valid_rows df) ->
                   days_from_start r = (date r - d0)%Z).
  { intros r Hr. apply filter_In in Hr as [Hr _]. unfold df in Hr.
    apply in_map_iff in Hr as [x [<- _]]. reflexivity. }
  pose proof (NoDup_map_filter date (fun r => Rltb 0 (total_wealth r)) df Hdates)
    as Hvalid.
  fold (valid_rows df) in Hvalid. rewrite Forall_forall in Hzero.
  destruct (valid_rows df) as [|r1 [|r2 rest]]; [simpl in Hlen; lia..|].
  cbn [map] in Hvalid. apply NoDup_cons_iff in Hvalid as [Hin _].
  apply Hin. left.
  pose proof (Hoff r1 (or_introl eq_refl)) as E1.
  pose proof (Hoff r2 (or_intror (or_introl eq_refl))) as E2.
  rewrite (Hzero r1 (or_introl eq_refl)) in E1.
  rewrite (Hzero r2 (or_intror (or_introl eq_refl))) in E2. lia.
Qed.

(** What the preparation returns when the fit succeeds. *)
Lemma prepare_wealth_timeline_data_fit (ts : list DataLoader.DailyTotal)
      (row latest : chart_row) (rest : list chart_row) (fit : fit_params) :
  prepare ts = Some (row :: rest) ->
  last_error (row :: rest) = Some latest ->
  calculate_exponential_fit np_mean (row :: rest) = Some fit ->
  exists trend,
    generate_trend_line (row :: rest) fit = Some trend
    /\ prepare_wealth_timeline_data np_mean ts
       = Some {| chart_points := nominal_data (row :: rest);
                 trendLine := trend;
                 fitParams := fit;
                 inflationData := None;
                 timeRange := {| range_start := date row;
                                 range_end := date latest;
                                 totalDays := (date latest - date row)%Z |};
                 summary :=
                   {| totalIncrease :=
                        (Finite (total_wealth latest)
                         - Finite (total_wealth row))
                        / Finite (total_wealth row) * Finite 100;
                      timespan := (date row, date latest);
                      dataPoints := length (row :: rest);
                      startValue := total_wealth row;
                      endValue := total_wealth latest;
                      exponentialGrowthRate := annualGrowthRate fit |} |}.
Proof.
  intros Hp Hl Hfit.
  destruct (generate_trend_line_total row rest fit) as [trend [Ht _]].
  exists trend. split; [assumption|].
  unfold prepare_wealth_timeline_data. rewrite Hp. cbn [bind].
  rewrite Hfit. cbn [bind]. rewrite Ht. cbn [bind].
  rewrite no_price_index. cbn [bind].
  unfold get_time_range, get_summary_stats. rewrite Hl. reflexivity.
Qed.

(** X19. The chart data of the wealth timeline are prepared for a time
    series of the dashboard unless it is empty or two or more of its
    positive totals all fall on the first date (then [np.polyfit] raises);
    in particular they are prepared for every series that is not empty and
    has one row per date.  The chart holds one nominal point per row, a
    trend line of 100 points whose values are all positive numbers, a fit
    with a positive [a], a summary that counts the rows, and no inflation
    data, the dashboard's time series having no price-index column. *)
Theorem wealth_timeline_prepared (ts : list DataLoader.DailyTotal) :
  match prepare_wealth_timeline_data np_mean ts with
  | None =>
      ts = []
      \/ exists df,
           prepare ts = Some df
           /\ (2 <= length (valid_rows df))%nat
           /\ Forall (fun r => days_from_start r = 0%Z) (valid_rows df)
  | Some chart =>
      ts <> []
      /\ (forall df, prepare ts = Some df ->
            ~ ((2 <= length (valid_rows df))%nat
               /\ Forall (fun r => days_from_start r = 0%Z) (valid_rows df)))
      /\ length (chart_points chart) = length ts
      /\ length (trendLine chart) = 100%nat
      /\ Forall (fun p => exists v, snd p = Finite v /\ (0 < v)%R)
                (trendLine chart)
      /\ (0 < a (fitParams chart))%R
      /\ inflationData chart = None
      /\ dataPoints (summary chart) = length ts
  end
  /\ (ts <> [] -> NoDup (map DataLoader.date ts) ->
      exists chart, prepare_wealth_timeline_data np_mean ts = Some chart).
Proof.
  destruct ts as [|r0 ts]; [split; [now left|easy]|].
  destruct (prepare_Some (r0 :: ts)) as [first [Hf Hp]]; [easy|].
  assert (Hlen : length (sort_values DataLoader.date (r0 :: ts))
                 = length (r0 :: ts))
    by (symmetry; apply Permutation_length, sort_values_perm).
  destruct (prepare_first _ _ Hp) as [row [rest [Hdf H0]]].
  assert (Hrows : length (row :: rest) = length (r0 :: ts))
    by (rewrite <- Hdf, length_map; exact Hlen).
  rewrite Hdf in Hp.
  destruct (last_error_Some (row :: rest)) as [latest Hl]; [easy|].
  pose proof (fit_cases (row :: rest)) as Hcases.
  destruct (calculate_exponential_fit np_mean (row :: rest)) as [fit|] eqn:Efit.
  - destruct (prepare_wealth_timeline_data_fit _ _ _ _ _ Hp Hl Efit)
      as [trend [Ht ->]].
    destruct Hcases as [Ha Hnot].
    split; [|intros _ _; eexists; reflexivity].
    cbn [chart_points trendLine fitParams inflationData summary dataPoints].
    split; [easy|]. split.
    { intros df Hdf'. rewrite Hp in Hdf'. apply Some_eq in Hdf'. now subst df. }
    split; [unfold nominal_data; now rewrite length_map|].
    destruct (generate_trend_line_total row rest fit)
      as [trend' [Ht' [Hlen' Hval]]].
    rewrite Ht in Ht'. apply Some_eq in Ht'. subst trend'.
    split; [assumption|]. split; [|split; [assumption|split; [reflexivity|assumption]]].
    eapply Forall_impl; [|exact Hval]. intros p [day Hday].
    eexists. split; [exact Hday|].
    apply Rmult_lt_0_compat; [assumption|apply exp_pos].
  - assert (Hnone : prepare_wealth_timeline_data np_mean (r0 :: ts) = None).
    { unfold prepare_wealth_timeline_data. rewrite Hp. cbn [bind].
      now rewrite Efit. }
    rewrite Hnone. split.
    + right. exists (row :: rest). split; [assumption|exact Hcases].
    + intros _ Hnd. exfalso.
      now apply (distinct_dates_fit (r0 :: ts) (row :: rest) Hnd Hp).
Qed.

End Pipelines.

(** Two daily totals on two dates, with the exact mean. *)
Lemma wealth_timeline_prepared_witness :
  exists chart,
    ChartDataProcessor.prepare_wealth_timeline_data mean
      [ {| DataLoader.date := 0; DataLoader.total_wealth := 3;
           DataLoader.billionaire_count := 2 |};
        {| DataLoader.date := 27; DataLoader.total_wealth := 5;
           DataLoader.billionaire_count := 2 |} ] = Some chart.
Proof.
  refine (proj2 (wealth_timeline_prepared mean _) _ _).
  - discriminate.
  - repeat constructor; simpl; intuition lia.
Defined.

Section AllBackgrounds.

Import BackgroundSparklineGenerator.



End AllBackgrounds.

(* ====================================================================== *)
(** * The monthly averages *)

Section MonthlyAverages.

Import DataLoader.

Lemma Rsum_lower (m : R) (l : list R) :
  (forall v, In v l -> (m <= v)%R) -> (INR (length l) * m <= Rsum l)%R.
Proof.
  induction l as [|x l IH]; intros H; [simpl; lra|].
  cbn [length]. rewrite S_INR, Rsum_cons.
  assert (m <= x)%R by (apply H; now left).
  assert (INR (length l) * m <= Rsum l)%R by (apply IH; intros; apply H; now right).
  lra.
Qed.

Lemma Rsum_upper (m : R) (l : list R) :
  (forall v, In v l -> (v <= m)%R) -> (Rsum l <= INR (length l) * m)%R.
Proof.
  induction l as [|x l IH]; intros H; [simpl; lra|].
  cbn [length]. rewrite S_INR, Rsum_cons.
  assert (x <= m)%R by (apply H; now left).
  assert (Rsum l <= INR (length l) * m)%R by (apply IH; intros; apply H; now right).
  lra.
Qed.

(** A mean lies between two of the values. *)
Lemma mean_between (l : list R) :
  l <> [] -> exists lo hi, In lo l /\ In hi l /\ (lo <= mean l <= hi)%R.
Proof.
  intros Hne. destruct l as [|x l]; [easy|].
  destruct (Rmin_list_spec x l) as [Hlo_in Hlo].
  destruct (Rmax_list_spec x l) as [Hhi_in Hhi].
  exists (Ideal.Rmin_list x l), (Ideal.Rmax_list x l).
  split; [assumption|]. split; [assumption|].
  pose proof (Rsum_lower _ _ Hlo) as H1. pose proof (Rsum_upper _ _ Hhi) as H2.
  assert (Hn : (0 < INR (length (x :: l)))%R) by (apply lt_0_INR; simpl; lia).
  unfold mean. split.
  - apply Rmult_le_reg_r with (INR (length (x :: l))); [assumption|].
    unfold Rdiv. rewrite Rmult_assoc, Rinv_l by lra. lra.
  - apply Rmult_le_reg_r with (INR (length (x :: l))); [assumption|].
    unfold Rdiv. rewrite Rmult_assoc, Rinv_l by lra. lra.
Qed.

(** X21. The monthly averages have one row per calendar month of the daily
    totals, so never more rows than there are days, and none exactly when
    there is no day.  Each average lies between two daily totals of its
    month; and the averages, each weighted by the number of days of its
    month, add up to the sum of the daily totals. *)
Theorem monthly_averages_bounds (dt : list DailyTotal) :
  (length (get_monthly_averages dt) <= length dt)%nat
  /\ (get_monthly_averages dt = [] <-> dt = [])
  /\ Forall (fun m =>
               exists lo hi,
                 In lo dt /\ In hi dt
                 /\ period lo = period m /\ period hi = period m
                 /\ (total_wealth lo <= total_wealth m <= total_wealth hi)%R)
            (get_monthly_averages dt)
  /\ Rsum (map (fun m => INR (length (in_period dt (period m))) * total_wealth m)%R
               (get_monthly_averages dt))
     = Rsum (map total_wealth dt).
Proof.
  pose proof (sort_values_perm date (monthly_rows dt)) as Hperm.
  fold (get_monthly_averages dt) in Hperm.
  set (keys := group_keys (map period dt)).
  assert (Hkeys : forall p, In p keys -> In p (map period dt))
    by (intros p; apply group_keys_In).
  split; [|split; [|split]].
  - rewrite <- (Permutation_length Hperm). unfold monthly_rows.
    rewrite length_map, <- (length_map period dt). apply group_keys_length.
  - split.
    + intros E. destruct dt as [|r dt]; [reflexivity|].
      exfalso. now apply (get_monthly_averages_nonempty (r :: dt)).
    + intros ->. reflexivity.
  - apply (Permutation_Forall Hperm). unfold monthly_rows. fold keys.
    apply Forall_map, Forall_forall. intros p Hp. apply Hkeys in Hp.
    rewrite (monthly_row_period dt p Hp).
    pose proof (in_period_nonempty dt p Hp) as Hne.
    destruct (mean_between (map total_wealth (in_period dt p)))
      as [lo [hi [Hlo [Hhi Hb]]]].
    { intros E. now apply map_eq_nil in E. }
    apply in_map_iff in Hlo as [rlo [<- Hrlo]].
    apply in_map_iff in Hhi as [rhi [<- Hrhi]].
    exists rlo, rhi.
    pose proof (in_period_period dt p rlo Hrlo).
    pose proof (in_period_period dt p rhi Hrhi).
    apply filter_In in Hrlo as [Hrlo _]. apply filter_In in Hrhi as [Hrhi _].
    repeat split; try assumption; apply Hb.
  - rewrite <- (Rsum_perm _ _ (Permutation_map _ Hperm)).
    unfold monthly_rows. fold keys. rewrite map_map.
    rewrite <- (Rsum_by_key period total_wealth keys dt).
    + apply Rsum_ext_in. intros p Hp. apply Hkeys in Hp.
      rewrite (monthly_row_period dt p Hp).
      pose proof (in_period_nonempty dt p Hp) as Hne.
      unfold monthly_row. cbn [total_wealth]. unfold mean, in_period in *.
      rewrite length_map. field. apply not_0_INR.
      destruct (filter _ dt); [easy|discriminate].
    + apply group_keys_NoDup.
    + intros r Hr. apply group_keys_In. now apply in_map.
Qed.

End MonthlyAverages.

(* ====================================================================== *)
(** * The span of the trend line *)

Section TrendSpan.

Import ChartDataProcessor.

Lemma prepare_offsets (ts : list DataLoader.DailyTotal) (df : list chart_row)
      (row latest : chart_row) :
  prepare ts = Some df -> hd_error df = Some row -> last_error df = Some latest ->
  Zmax_list (map days_from_start df) = (date latest - date row)%Z
  /\ (0 <= date latest - date row)%Z.
Proof.
  intros Hp Hhd Hl.
  assert (Hne : ts <> []) by (intros ->; discriminate).
  destruct (prepare_Some ts Hne) as [first [Hf Hp']].
  rewrite Hp' in Hp. apply Some_eq in Hp. subst df.
  set (sorted := sort_values DataLoader.date ts) in *.
  set (d0 := DataLoader.date first) in *.
  rewrite hd_error_map_opt, Hf in Hhd. apply Some_eq in Hhd. subst row.
  rewrite last_error_map in Hl.
  destruct (last_error sorted) as [l|] eqn:El; [|discriminate].
  apply Some_eq in Hl. subst latest. cbn [chart_row_of date].
  assert (Hs : StronglySorted Z.le (map DataLoader.date sorted))
    by apply sort_values_is_sorted.
  assert (Hmin : (d0 <= DataLoader.date l)%Z).
  { apply (sorted_le_hd_min (map DataLoader.date sorted));
      [assumption|now rewrite hd_error_map_opt, Hf|].
    apply in_map. now apply last_error_In. }
  split; [|lia]. apply Zmax_list_last.
  - rewrite map_map. cbn [chart_row_of days_from_start].
    clear -Hs. induction sorted as [|r s IH]; [constructor|].
    cbn [map] in *. apply StronglySorted_inv in Hs as [Hs Hall].
    constructor; [now apply IH|].
    rewrite Forall_map in *. eapply Forall_impl; [|exact Hall].
    intros; simpl in *; lia.
  - now rewrite !last_error_map, El.
Qed.

Lemma exp_le (u v : R) : (u <= v)%R -> (exp u <= exp v)%R.
Proof.
  intros [H| ->]; [left; now apply exp_increasing|lra].
Qed.

(** X22. On a series with one row per date that spans at most [2 ^ 31]
    days, the trend line of the prepared chart spans the data: its first
    point is labelled with the first date of the time range and its last
    point with the last date, the labels never going back; and its values
    never fall when the fitted exponent [b] is not negative, and never
    rise when [b] is not positive. *)
Theorem trend_line_spans_data (np_mean : list R -> R)
        (ts : list DataLoader.DailyTotal) :
  ts <> [] -> NoDup (map DataLoader.date ts) ->
  (forall r r', In r ts -> In r' ts ->
     (DataLoader.date r' - DataLoader.date r <= 2147483648)%Z) ->
  exists chart (label : nat -> Z) (value : nat -> R),
    prepare_wealth_timeline_data np_mean ts = Some chart
    /\ (forall i, (i < 100)%nat ->
          nth i (trendLine chart) (0%Z, NaN) = (label i, Finite (value i)))
    /\ label 0%nat = range_start (timeRange chart)
    /\ label 99%nat = range_end (timeRange chart)
    /\ (forall i j, (i <= j)%nat -> (j < 100)%nat -> (label i <= label j)%Z)
    /\ ((0 <= b (fitParams chart))%R ->
        forall i j, (i <= j)%nat -> (j < 100)%nat -> (value i <= value j)%R)
    /\ ((b (fitParams chart) <= 0)%R ->
        forall i j, (i <= j)%nat -> (j < 100)%nat -> (value j <= value i)%R).
Proof.
  intros Hne Hnd Hspan.
  destruct (prepare_Some ts Hne) as [first [Hf Hp]].
  destruct (prepare_first _ _ Hp) as [row [rest [Hdf H0]]].
  assert (Hrow : forall x, In x (row :: rest) ->
                   exists r, In r ts /\ date x = DataLoader.date r).
  { intros x Hx. rewrite <- Hdf in Hx. apply in_map_iff in Hx as [r [<- Hr]].
    exists r. split; [|reflexivity].
    eapply Permutation_in; [|exact Hr].
    apply Permutation_sym, sort_values_perm. }
  rewrite Hdf in Hp.
  destruct (last_error_Some (row :: rest)) as [latest Hl]; [easy|].
  destruct (prepare_offsets ts _ row latest Hp eq_refl Hl) as [HD Hpos].
  assert (Hbound : (date latest - date row <= 2147483648)%Z).
  { destruct (Hrow row (or_introl eq_refl)) as [r [Hr ->]].
    destruct (Hrow latest (last_error_In _ _ Hl)) as [r' [Hr' ->]].
    now apply Hspan. }
  pose proof (fit_cases np_mean (row :: rest)) as Hcases.
  destruct (calculate_exponential_fit np_mean (row :: rest)) as [fit|] eqn:Efit;
    [|exfalso; now apply (distinct_dates_fit ts (row :: rest) Hnd Hp)].
  destruct Hcases as [Ha _].
  destruct (prepare_wealth_timeline_data_fit np_mean _ _ _ _ _ Hp Hl Efit)
    as [trend [Ht ->]].
  rewrite (generate_trend_line_days row rest fit H0) in Ht
    by (rewrite HD; lia).
  apply Some_eq in Ht. subst trend. rewrite HD.
  set (D := (date latest - date row)%Z) in *.
  eexists.
  exists (fun i => (date row + Zfloor (Ideal.trend_day D i))%Z),
         (fun i => (a fit * exp (b fit * Ideal.trend_day D i))%R).
  split; [reflexivity|].
  cbn [trendLine timeRange fitParams range_start range_end].
  assert (Hday : forall i j, (i <= j)%nat -> (j < 100)%nat ->
                   (Ideal.trend_day D i <= Ideal.trend_day D j)%R).
  { intros i j Hij Hj. apply day_monotone; [lia|assumption..]. }
  split; [|split; [|split; [|split; [|split]]]].
  - intros i Hi. unfold Spec.trend_line.
    rewrite (nth_map_inrange _ _ O) by (now rewrite length_seq).
    rewrite seq_nth by assumption. reflexivity.
  - unfold Ideal.trend_day. cbn [Nat.eqb INR].
    rewrite Rmult_0_l, round64_0.
    change 0%R with (IZR 0). rewrite ZfloorZ. lia.
  - unfold Ideal.trend_day. cbn [Nat.eqb]. rewrite ZfloorZ. unfold D. lia.
  - intros i j Hij Hj. pose proof (Hday i j Hij Hj) as H.
    apply Zfloor_le in H. lia.
  - intros Hb i j Hij Hj. pose proof (Hday i j Hij Hj) as H.
    apply Rmult_le_compat_l; [lra|]. apply exp_le. nra.
  - intros Hb i j Hij Hj. pose proof (Hday i j Hij Hj) as H.
    apply Rmult_le_compat_l; [lra|]. apply exp_le. nra.
Qed.

End TrendSpan.

(** Two daily totals 27 days apart. *)
Lemma trend_line_spans_data_witness :
  exists chart (label : nat -> Z) (value : nat -> R),
    ChartDataProcessor.prepare_wealth_timeline_data mean
      [ {| DataLoader.date := 5; DataLoader.total_wealth := 3;
           DataLoader.billionaire_count := 2 |};
        {| DataLoader.date := 32; DataLoader.total_wealth := 4;
           DataLoader.billionaire_count := 2 |} ] = Some chart
    /\ label 0%nat
       = ChartDataProcessor.range_start (ChartDataProcessor.timeRange chart)
    /\ label 99%nat
       = ChartDataProcessor.range_end (ChartDataProcessor.timeRange chart)
    /\ (forall i j, (i <= j)%nat -> (j < 100)%nat -> (label i <= label j)%Z)
    /\ ((0 <= ChartDataProcessor.b (ChartDataProcessor.fitParams chart))%R ->
        forall i j, (i <= j)%nat -> (j < 100)%nat -> (value i <= value j)%R).
Proof.
  destruct (trend_line_spans_data mean
      [ {| DataLoader.date := 5; DataLoader.total_wealth := 3;
           DataLoader.billionaire_count := 2 |};
        {| DataLoader.date := 32; DataLoader.total_wealth := 4;
           DataLoader.billionaire_count := 2 |} ])
    as [chart [label [value [H1 [_ [H3 [H4 [H5 [H6 _]]]]]]]]].
  - discriminate.
  - repeat constructor; simpl; intuition lia.
  - intros r r' [<-|[<-|[]]] [<-|[<-|[]]]; simpl; lia.
  - exists chart, label, value. repeat split; assumption.
Defined.
